(** * Haiku UVC webcam driver: deframer, transfer pump, negotiation,
      colour conversion and audio ring

    A shallow embedding of the parts of the driver that the specification
    makes claims about:

    - [src/addons/uvc/UVCDeframer.cpp] and [src/CamDeframer.cpp]
      (module [Deframer]);
    - [CamDevice::DataPumpThread], isochronous branch (module [Pump]);
    - [UVCCamDevice::_ProbeCommitFormat] and
      [UVCCamDevice::_SelectBestAlternate] (module [Negotiator]);
    - [yuv_rgb_lookup_tables::Initialize] and
      [UVCCamDevice::_ConvertYUY2toRGB32] (module [Convert]);
    - [UVCCamDevice::AudioPumpThread] and [UVCCamDevice::ReadAudioData]
      (module [Audio]).

    The modules that follow them prove further properties of the same code
    and of its neighbours: the frame pool, the queue and the fixed buffer
    of the deframer and [CamDeframer::FindTags] ([DeframerFacts]); the
    descriptor slots of the pump ([PumpFacts]);
    [UVCCamDevice::_GetMaxAvailableBandwidth], the high-bandwidth fallback
    and [UVCCamDevice::StartTransfer] ([NegotiatorFacts]); bounds and
    colour formula of the converter ([ConvertFacts]); deframer and
    converter together ([Pipeline]); the audio ring as a queue
    ([AudioFacts]); the transfer retry wrappers ([Recovery]); double
    buffering ([DoubleBuffer]); the frame timing statistics ([Timing]).

    Conventions.  Machine integers are values of [Z]; where the source
    computes in an unsigned type the reduction modulo the word size is
    written out.  A byte is a [Z] in [0, 256).  Raw C buffers are maps from
    byte offsets to bytes ([mem]); a [NULL] pointer is [None].  syslog
    output, the wall clock and the throttling counters that only gate log
    lines are left out; every other field the modelled functions touch is
    kept under its source name. *)

From Stdlib Require Import ZArith List Bool Lia.
From Stdlib Require String.
Import ListNotations.
Open Scope Z_scope.

(** ** Platform constants (Haiku [SupportDefs.h] / [Errors.h]) *)

Definition B_OK : Z := 0.
Definition B_ERROR : Z := -1.
Definition B_NO_MEMORY : Z := - 2147483648.

Definition size_t_mod : Z := 2 ^ 64.
Definition uint32_mod : Z := 2 ^ 32.

(** Conversion of a signed result to [size_t]. *)
Definition to_size_t (v : Z) : Z := v mod size_t_mod.
Definition to_uint32 (v : Z) : Z := v mod uint32_mod.

(** ** Raw memory *)

Definition mem := Z -> Z.

(** [memcpy(dst + off, src, n)]: the first [n] bytes of [src] land at
    offsets [off .. off + n - 1]. *)
Definition memcpy (m : mem) (off : Z) (src : list Z) (n : Z) : mem :=
  fun i =>
    if (off <=? i) && (i <? off + n)
    then nth (Z.to_nat (i - off)) src 0
    else m i.

(** The [n] bytes found at [m + off]. *)
Definition mem_read (m : mem) (off n : Z) : list Z :=
  map (fun k => m (off + Z.of_nat k)) (seq 0 (Z.to_nat n)).

Lemma mem_read_length m off n : length (mem_read m off n) = Z.to_nat n.
Proof. unfold mem_read. now rewrite length_map, length_seq. Qed.

Lemma mem_read_nth m off n k d :
  (k < Z.to_nat n)%nat ->
  nth k (mem_read m off n) d = m (off + Z.of_nat k).
Proof.
  intros Hk. unfold mem_read.
  rewrite (nth_indep _ d (m (off + Z.of_nat 0))) by now rewrite length_map, length_seq.
  rewrite (map_nth (fun j => m (off + Z.of_nat j)) (seq 0 (Z.to_nat n)) 0%nat k).
  now rewrite seq_nth.
Qed.

Lemma memcpy_inside m off src n i :
  off <= i < off + n -> memcpy m off src n i = nth (Z.to_nat (i - off)) src 0.
Proof.
  intros H. unfold memcpy.
  replace ((off <=? i) && (i <? off + n)) with true; [reflexivity|].
  symmetry. apply andb_true_iff. split; [apply Z.leb_le | apply Z.ltb_lt]; lia.
Qed.

Lemma memcpy_outside m off src n i :
  i < off \/ off + n <= i -> memcpy m off src n i = m i.
Proof.
  intros H. unfold memcpy.
  replace ((off <=? i) && (i <? off + n)) with false; [reflexivity|].
  symmetry. apply andb_false_iff.
  destruct H; [left; apply Z.leb_gt | right; apply Z.ltb_ge]; lia.
Qed.

(** ** [BMallocIO]: a growable byte buffer with a cursor *)

Record BMallocIO := mkIO { io_data : list Z; io_position : Z }.

Definition io_empty : BMallocIO := mkIO [] 0.

Definition BufferLength (io : BMallocIO) : Z := Z.of_nat (length (io_data io)).

(** [Seek(0, SEEK_SET)] followed by [SetSize(0)]. *)
Definition io_reset (io : BMallocIO) : BMallocIO := io_empty.

(** [Write(bytes, n)] stores at the cursor and advances it. *)
Definition io_write (io : BMallocIO) (bytes : list Z) : BMallocIO :=
  let p := Z.to_nat (io_position io) in
  mkIO (firstn p (io_data io) ++ bytes ++ skipn (p + length bytes) (io_data io))
       (io_position io + Z.of_nat (length bytes)).

Lemma io_write_empty bytes : io_data (io_write io_empty bytes) = bytes.
Proof. unfold io_write; simpl. rewrite skipn_nil. apply app_nil_r. Qed.

(** * The UVC payload deframer *)

Module Deframer.

(** [CAMDEFRAMER_MAX_QUEUED_FRAMES] and [CAMDEFRAMER_FRAME_POOL_SIZE]
    ([src/CamDeframer.h]). *)
Definition MAXFRAMEBUF : Z := 8.
Definition CAMDEFRAMER_FRAME_POOL_SIZE : Z := 12.

(** A [CamFrame] is a [BMallocIO]; its time stamp is not modelled. *)
Abbreviation CamFrame := BMallocIO (only parsing).

(** The members of the base class [CamDeframer] that frame assembly uses.
    [fFrameSem] is the count of the semaphore released once per queued
    frame. *)
Record CamDeframer := mkBase {
  fFrameSem : Z;
  fFrames : list CamFrame;
  fFramePool : list CamFrame;
  fCurrentFrame : option CamFrame;
  fPoolHits : Z;
  fPoolMisses : Z
}.

(** The members of [UVCDeframer].  [sHeaderErrors] is the function-static
    counter of rejected headers in [Write]. *)
Record UVCDeframer := mkUVC {
  base : CamDeframer;
  fFrameCount : Z;
  fID : Z;
  fInputBuffer : BMallocIO;
  fExpectedFrameSize : Z;
  fFixedBuffer : option mem;
  fFixedBufferSize : Z;
  fFixedBufferPos : Z;
  fFramesCompleted : Z;
  fFramesIncomplete : Z;
  fFIDChanges : Z;
  fQueueOverflows : Z;
  fPacketsThisFrame : Z;
  fTotalBytesThisFrame : Z;
  sHeaderErrors : Z
}.

(** *** Field updates *)

Definition set_fFrameSem v (b : CamDeframer) :=
  mkBase v (fFrames b) (fFramePool b) (fCurrentFrame b) (fPoolHits b) (fPoolMisses b).
Definition set_fFrames v (b : CamDeframer) :=
  mkBase (fFrameSem b) v (fFramePool b) (fCurrentFrame b) (fPoolHits b) (fPoolMisses b).
Definition set_fFramePool v (b : CamDeframer) :=
  mkBase (fFrameSem b) (fFrames b) v (fCurrentFrame b) (fPoolHits b) (fPoolMisses b).
Definition set_fCurrentFrame v (b : CamDeframer) :=
  mkBase (fFrameSem b) (fFrames b) (fFramePool b) v (fPoolHits b) (fPoolMisses b).
Definition set_fPoolHits v (b : CamDeframer) :=
  mkBase (fFrameSem b) (fFrames b) (fFramePool b) (fCurrentFrame b) v (fPoolMisses b).
Definition set_fPoolMisses v (b : CamDeframer) :=
  mkBase (fFrameSem b) (fFrames b) (fFramePool b) (fCurrentFrame b) (fPoolHits b) v.

Definition set_base v (s : UVCDeframer) :=
  mkUVC v (fFrameCount s) (fID s) (fInputBuffer s) (fExpectedFrameSize s)
    (fFixedBuffer s) (fFixedBufferSize s) (fFixedBufferPos s) (fFramesCompleted s)
    (fFramesIncomplete s) (fFIDChanges s) (fQueueOverflows s) (fPacketsThisFrame s)
    (fTotalBytesThisFrame s) (sHeaderErrors s).
Definition set_fFrameCount v (s : UVCDeframer) :=
  mkUVC (base s) v (fID s) (fInputBuffer s) (fExpectedFrameSize s)
    (fFixedBuffer s) (fFixedBufferSize s) (fFixedBufferPos s) (fFramesCompleted s)
    (fFramesIncomplete s) (fFIDChanges s) (fQueueOverflows s) (fPacketsThisFrame s)
    (fTotalBytesThisFrame s) (sHeaderErrors s).
Definition set_fID v (s : UVCDeframer) :=
  mkUVC (base s) (fFrameCount s) v (fInputBuffer s) (fExpectedFrameSize s)
    (fFixedBuffer s) (fFixedBufferSize s) (fFixedBufferPos s) (fFramesCompleted s)
    (fFramesIncomplete s) (fFIDChanges s) (fQueueOverflows s) (fPacketsThisFrame s)
    (fTotalBytesThisFrame s) (sHeaderErrors s).
Definition set_fInputBuffer v (s : UVCDeframer) :=
  mkUVC (base s) (fFrameCount s) (fID s) v (fExpectedFrameSize s)
    (fFixedBuffer s) (fFixedBufferSize s) (fFixedBufferPos s) (fFramesCompleted s)
    (fFramesIncomplete s) (fFIDChanges s) (fQueueOverflows s) (fPacketsThisFrame s)
    (fTotalBytesThisFrame s) (sHeaderErrors s).
Definition set_fExpectedFrameSize v (s : UVCDeframer) :=
  mkUVC (base s) (fFrameCount s) (fID s) (fInputBuffer s) v
    (fFixedBuffer s) (fFixedBufferSize s) (fFixedBufferPos s) (fFramesCompleted s)
    (fFramesIncomplete s) (fFIDChanges s) (fQueueOverflows s) (fPacketsThisFrame s)
    (fTotalBytesThisFrame s) (sHeaderErrors s).
Definition set_fFixedBuffer v (s : UVCDeframer) :=
  mkUVC (base s) (fFrameCount s) (fID s) (fInputBuffer s) (fExpectedFrameSize s)
    v (fFixedBufferSize s) (fFixedBufferPos s) (fFramesCompleted s)
    (fFramesIncomplete s) (fFIDChanges s) (fQueueOverflows s) (fPacketsThisFrame s)
    (fTotalBytesThisFrame s) (sHeaderErrors s).
Definition set_fFixedBufferPos v (s : UVCDeframer) :=
  mkUVC (base s) (fFrameCount s) (fID s) (fInputBuffer s) (fExpectedFrameSize s)
    (fFixedBuffer s) (fFixedBufferSize s) v (fFramesCompleted s)
    (fFramesIncomplete s) (fFIDChanges s) (fQueueOverflows s) (fPacketsThisFrame s)
    (fTotalBytesThisFrame s) (sHeaderErrors s).
Definition set_fFramesCompleted v (s : UVCDeframer) :=
  mkUVC (base s) (fFrameCount s) (fID s) (fInputBuffer s) (fExpectedFrameSize s)
    (fFixedBuffer s) (fFixedBufferSize s) (fFixedBufferPos s) v
    (fFramesIncomplete s) (fFIDChanges s) (fQueueOverflows s) (fPacketsThisFrame s)
    (fTotalBytesThisFrame s) (sHeaderErrors s).
Definition set_fFramesIncomplete v (s : UVCDeframer) :=
  mkUVC (base s) (fFrameCount s) (fID s) (fInputBuffer s) (fExpectedFrameSize s)
    (fFixedBuffer s) (fFixedBufferSize s) (fFixedBufferPos s) (fFramesCompleted s)
    v (fFIDChanges s) (fQueueOverflows s) (fPacketsThisFrame s)
    (fTotalBytesThisFrame s) (sHeaderErrors s).
Definition set_fFIDChanges v (s : UVCDeframer) :=
  mkUVC (base s) (fFrameCount s) (fID s) (fInputBuffer s) (fExpectedFrameSize s)
    (fFixedBuffer s) (fFixedBufferSize s) (fFixedBufferPos s) (fFramesCompleted s)
    (fFramesIncomplete s) v (fQueueOverflows s) (fPacketsThisFrame s)
    (fTotalBytesThisFrame s) (sHeaderErrors s).
Definition set_fQueueOverflows v (s : UVCDeframer) :=
  mkUVC (base s) (fFrameCount s) (fID s) (fInputBuffer s) (fExpectedFrameSize s)
    (fFixedBuffer s) (fFixedBufferSize s) (fFixedBufferPos s) (fFramesCompleted s)
    (fFramesIncomplete s) (fFIDChanges s) v (fPacketsThisFrame s)
    (fTotalBytesThisFrame s) (sHeaderErrors s).
Definition set_fPacketsThisFrame v (s : UVCDeframer) :=
  mkUVC (base s) (fFrameCount s) (fID s) (fInputBuffer s) (fExpectedFrameSize s)
    (fFixedBuffer s) (fFixedBufferSize s) (fFixedBufferPos s) (fFramesCompleted s)
    (fFramesIncomplete s) (fFIDChanges s) (fQueueOverflows s) v
    (fTotalBytesThisFrame s) (sHeaderErrors s).
Definition set_fTotalBytesThisFrame v (s : UVCDeframer) :=
  mkUVC (base s) (fFrameCount s) (fID s) (fInputBuffer s) (fExpectedFrameSize s)
    (fFixedBuffer s) (fFixedBufferSize s) (fFixedBufferPos s) (fFramesCompleted s)
    (fFramesIncomplete s) (fFIDChanges s) (fQueueOverflows s) (fPacketsThisFrame s)
    v (sHeaderErrors s).
Definition set_sHeaderErrors v (s : UVCDeframer) :=
  mkUVC (base s) (fFrameCount s) (fID s) (fInputBuffer s) (fExpectedFrameSize s)
    (fFixedBuffer s) (fFixedBufferSize s) (fFixedBufferPos s) (fFramesCompleted s)
    (fFramesIncomplete s) (fFIDChanges s) (fQueueOverflows s) (fPacketsThisFrame s)
    (fTotalBytesThisFrame s) v.

(** *** [CamDeframer] operations *)

(** [CamDeframer::AllocFrame]: reuse the most recently recycled frame (the
    last pool entry), reset, or make a new one. *)
Definition AllocFrame (b : CamDeframer) : CamFrame * CamDeframer :=
  match rev (fFramePool b) with
  | frame :: rest =>
      (io_reset frame,
       set_fPoolHits (fPoolHits b + 1) (set_fFramePool (rev rest) b))
  | [] => (io_empty, set_fPoolMisses (fPoolMisses b + 1) b)
  end.

(** [CamDeframer::RecycleFrame] for a non-NULL frame. *)
Definition RecycleFrame (frame : CamFrame) (b : CamDeframer) : CamDeframer :=
  if Z.of_nat (length (fFramePool b)) <? CAMDEFRAMER_FRAME_POOL_SIZE
  then set_fFramePool (fFramePool b ++ [io_reset frame]) b
  else b.

(** [CamDeframer::GetFrame]: hand the oldest queued frame to the caller. *)
Definition GetFrame (b : CamDeframer) : option CamFrame * CamDeframer :=
  match fFrames b with
  | f :: rest => (Some f, set_fFrames rest b)
  | [] => (None, b)
  end.

(** [CamDeframer::DropFrame]. *)
Definition DropFrame (b : CamDeframer) : CamDeframer :=
  match fFrames b with
  | _ :: rest => set_fFrames rest b
  | [] => b
  end.

(** [CamDeframer::Flush]: empty the queue, reset the current frame, drain
    the semaphore. *)
Definition CamDeframer_Flush (b : CamDeframer) : CamDeframer :=
  set_fFrameSem 0
    (set_fCurrentFrame (option_map io_reset (fCurrentFrame b))
       (set_fFrames [] b)).

(** The [CamDeframer] constructor: empty queue and pool, one frame allocated
    up front. *)
Definition CamDeframer_new : CamDeframer :=
  let b := mkBase 0 [] [] None 0 0 in
  let '(f, b) := AllocFrame b in
  set_fCurrentFrame (Some f) b.

(** *** [UVCDeframer] operations *)

(** The constructor; [buffer] is what [malloc(4 MiB)] returned. *)
Definition UVCDeframer_new (buffer : option mem) : UVCDeframer :=
  mkUVC CamDeframer_new 0 0 io_empty 0 buffer (4 * 1024 * 1024) 0 0 0 0 0 0 0 0.

Definition SetExpectedFrameSize (size : Z) (s : UVCDeframer) : UVCDeframer :=
  set_fExpectedFrameSize size s.

Definition Flush (s : UVCDeframer) : UVCDeframer :=
  set_fPacketsThisFrame 0
    (set_fID 0
       (set_fFixedBufferPos 0
          (set_fInputBuffer (io_reset (fInputBuffer s))
             (set_base (CamDeframer_Flush (base s)) s)))).

(** *** [UVCDeframer::Write] *)

(** The header test at the top of [Write]:
    [size < 2 || buf[0] < 2 || buf[0] > size]. *)
Definition header_invalid (buf : list Z) : bool :=
  let size := Z.of_nat (length buf) in
  (size <? 2) || (nth 0 buf 0 <? 2) || (size <? nth 0 buf 0).

(** [buf[1] & 0x02] and [buf[1] & 0x01]. *)
Definition eof_bit (buf : list Z) : bool := negb (Z.land (nth 1 buf 0) 2 =? 0).
Definition fid_bit (buf : list Z) : Z := Z.land (nth 1 buf 0) 1.

(** The payload [&buf[buf[0]]]. *)
Definition payload (buf : list Z) : list Z := skipn (Z.to_nat (nth 0 buf 0)) buf.

(** [uint8 padPattern[4]]: Y U Y V of two black pixels. *)
Definition padPattern : list Z := [0; 128; 0; 128].

(** Queueing the current frame: [fFrames.AddItem(fCurrentFrame);
    release_sem(fFrameSem); fCurrentFrame = NULL], after the frame received
    [frameData] when that is non-empty. *)
Definition queue_current (frameData : list Z) (b : CamDeframer) : CamDeframer :=
  match fCurrentFrame b with
  | Some f =>
      let f' := if 0 <? Z.of_nat (length frameData) then io_write f frameData else f in
      set_fCurrentFrame None
        (set_fFrameSem (fFrameSem b + 1)
           (set_fFrames (fFrames b ++ [f']) b))
  | None => b
  end.

(** The block run when the FID bit differs from [fID] (lines 163-237):
    count the change, in MJPEG mode complete the previous frame from
    [fInputBuffer] when that holds data, then restart the fill. *)
Definition on_fid_change (buf : list Z) (s : UVCDeframer) : UVCDeframer :=
  let s := set_fID (fid_bit buf) (set_fFIDChanges (fFIDChanges s + 1) s) in
  let s :=
    if (fExpectedFrameSize s =? 0) && (0 <? BufferLength (fInputBuffer s)) then
      let queueCount := Z.of_nat (length (fFrames (base s))) in
      let s :=
        if MAXFRAMEBUF <=? queueCount
        then set_fQueueOverflows (fQueueOverflows s + 1) s
        else s in
      let s :=
        match fCurrentFrame (base s) with
        | None =>
            if queueCount <? MAXFRAMEBUF then
              let '(f, b) := AllocFrame (base s) in
              set_base (set_fCurrentFrame (Some f) b) s
            else s
        | Some _ => s
        end in
      match fCurrentFrame (base s) with
      | Some _ =>
          let s := set_fFramesCompleted (fFramesCompleted s + 1)
                     (set_fFrameCount (fFrameCount s + 1) s) in
          set_base (queue_current (io_data (fInputBuffer s)) (base s)) s
      | None => s
      end
    else s in
  set_fTotalBytesThisFrame 0
    (set_fPacketsThisFrame 1
       (set_fFixedBufferPos 0
          (set_fInputBuffer (io_reset (fInputBuffer s)) s))).

(** The padding loop of the EOF branch (lines 333-338); [fuel] bounds the
    number of iterations. *)
Fixpoint pad_loop (fuel : nat) (expected : Z) (m : mem) (pos : Z) : mem * Z :=
  match fuel with
  | O => (m, pos)
  | S fuel' =>
      if pos <? expected then
        let remaining := expected - pos in
        let toWrite := if remaining <? 4 then remaining else 4 in
        pad_loop fuel' expected (memcpy m pos padPattern toWrite) (pos + toWrite)
      else (m, pos)
  end.

(** Lines 263-298: clip the payload to the room left in a fixed-size frame
    and copy it into the fixed buffer. *)
Definition append_payload (buf : list Z) (payloadSize : Z) (s : UVCDeframer)
  : UVCDeframer :=
  let bytesToWrite :=
    if 0 <? fExpectedFrameSize s then
      let currentSize := fFixedBufferPos s in
      let spaceLeft :=
        if currentSize <? fExpectedFrameSize s
        then fExpectedFrameSize s - currentSize else 0 in
      if spaceLeft <? payloadSize then spaceLeft else payloadSize
    else payloadSize in
  match fFixedBuffer s with
  | Some m =>
      if (0 <? bytesToWrite)
         && (fFixedBufferPos s + bytesToWrite <=? fFixedBufferSize s)
      then set_fFixedBufferPos (fFixedBufferPos s + bytesToWrite)
             (set_fFixedBuffer
                (Some (memcpy m (fFixedBufferPos s) (payload buf) bytesToWrite)) s)
      else s
  | None => s
  end.

(** Lines 321-339: on EOF in fixed-size mode a short fill is padded up to
    the expected size. *)
Definition pad_on_eof (s : UVCDeframer) : UVCDeframer :=
  match fFixedBuffer s with
  | Some m =>
      if fFixedBufferPos s <? fExpectedFrameSize s then
        let '(m', pos') :=
          pad_loop (Z.to_nat (fExpectedFrameSize s - fFixedBufferPos s))
                   (fExpectedFrameSize s) m (fFixedBufferPos s) in
        set_fFixedBufferPos pos' (set_fFixedBuffer (Some m') s)
      else s
  | None => s
  end.

(** Lines 361-436: queue the completed frame and restart the fill. *)
Definition complete_frame (s : UVCDeframer) : UVCDeframer :=
  let s := set_fFramesCompleted (fFramesCompleted s + 1)
             (set_fFrameCount (fFrameCount s + 1) s) in
  let frameData :=
    match fFixedBuffer s with
    | Some m =>
        if 0 <? fExpectedFrameSize s
        then mem_read m 0 (fFixedBufferPos s)
        else io_data (fInputBuffer s)
    | None => io_data (fInputBuffer s)
    end in
  let frameSize := Z.of_nat (length frameData) in
  let s :=
    if (0 <? fExpectedFrameSize s) && (frameSize <? fExpectedFrameSize s)
    then set_fFramesIncomplete (fFramesIncomplete s + 1) s
    else s in
  let s := set_base (queue_current frameData (base s)) s in
  set_fPacketsThisFrame 0
    (set_fFixedBufferPos 0
       (set_fInputBuffer (io_reset (fInputBuffer s)) s)).

(** Lines 239-248: make sure there is a frame to fill; [None] when the
    queue is full and none is held. *)
Definition ensure_frame (s : UVCDeframer) : option UVCDeframer :=
  match fCurrentFrame (base s) with
  | Some _ => Some s
  | None =>
      if Z.of_nat (length (fFrames (base s))) <? MAXFRAMEBUF then
        let '(f, b) := AllocFrame (base s) in
        Some (set_base (set_fCurrentFrame (Some f) b) s)
      else None
  end.

(** Lines 300-358: decide whether the frame is complete, padding a short
    fixed-size fill when EOF is set. *)
Definition frame_complete (eof fidChanged : bool) (s : UVCDeframer)
  : bool * UVCDeframer :=
  let currentSize := fFixedBufferPos s in
  if 0 <? fExpectedFrameSize s then
    if eof then (true, pad_on_eof s)
    else (fExpectedFrameSize s <=? currentSize, s)
  else (eof && negb fidChanged, s).

(** Lines 250-436: account for the payload, store it, and queue the frame
    when it is complete. *)
Definition assemble (buf : list Z) (payloadSize : Z) (eof fidChanged : bool)
    (s : UVCDeframer) : UVCDeframer :=
  let s := set_fTotalBytesThisFrame (fTotalBytesThisFrame s + payloadSize) s in
  let s := append_payload buf payloadSize s in
  let '(frameComplete, s) := frame_complete eof fidChanged s in
  if frameComplete then complete_frame s else s.

(** [UVCDeframer::Write(buffer, size)] with [size = length buf]; the result
    is the returned [ssize_t] and the deframer afterwards. *)
Definition Write (buf : list Z) (s : UVCDeframer) : Z * UVCDeframer :=
  let size := Z.of_nat (length buf) in
  let s := set_fPacketsThisFrame (fPacketsThisFrame s + 1) s in
  if header_invalid buf then
    (B_ERROR, set_sHeaderErrors (sHeaderErrors s + 1) s)
  else
    let payloadSize := size - nth 0 buf 0 in
    if payloadSize =? 0 then (size, s)
    else
      let eof := eof_bit buf in
      let fidChanged := negb (fid_bit buf =? fID s) in
      let s := if fidChanged then on_fid_change buf s else s in
      match ensure_frame s with
      | None => (size, set_fQueueOverflows (fQueueOverflows s + 1) s)
      | Some s => (size, assemble buf payloadSize eof fidChanged s)
      end.

(** A run of packets, each handed to [Write] in turn. *)
Fixpoint write_all (pkts : list (list Z)) (s : UVCDeframer) : UVCDeframer :=
  match pkts with
  | [] => s
  | p :: rest => write_all rest (snd (Write p s))
  end.

(** *** Reachable deframer states *)

(** What the pump thread and the consumer can do to a deframer. *)
Inductive op :=
| OpWrite (buf : list Z)
| OpGetFrame
| OpDropFrame
| OpFlush
| OpRecycleFrame (f : CamFrame)
| OpSetExpectedFrameSize (size : Z).

Definition apply_op (o : op) (s : UVCDeframer) : UVCDeframer :=
  match o with
  | OpWrite buf => snd (Write buf s)
  | OpGetFrame => set_base (snd (GetFrame (base s))) s
  | OpDropFrame => set_base (DropFrame (base s)) s
  | OpFlush => Flush s
  | OpRecycleFrame f => set_base (RecycleFrame f (base s)) s
  | OpSetExpectedFrameSize size => SetExpectedFrameSize size s
  end.

Inductive reachable : UVCDeframer -> Prop :=
| reach_new buffer : reachable (UVCDeframer_new buffer)
| reach_step o s : reachable s -> reachable (apply_op o s).

(** The queue never exceeds [MAXFRAMEBUF]; while a current frame is held it
    is still empty and the queue has room for it. *)
Definition base_inv (b : CamDeframer) : Prop :=
  Z.of_nat (length (fFrames b)) <= MAXFRAMEBUF /\
  (forall f, fCurrentFrame b = Some f ->
     f = io_empty /\ Z.of_nat (length (fFrames b)) < MAXFRAMEBUF).

(** Nothing ever stores into [fInputBuffer]. *)
Definition inv (s : UVCDeframer) : Prop :=
  base_inv (base s) /\ fInputBuffer s = io_empty.

Lemma AllocFrame_fresh b : fst (AllocFrame b) = io_empty.
Proof. unfold AllocFrame. destruct (rev (fFramePool b)); reflexivity. Qed.

Lemma AllocFrame_frames b : fFrames (snd (AllocFrame b)) = fFrames b.
Proof. unfold AllocFrame. destruct (rev (fFramePool b)); reflexivity. Qed.

Lemma AllocFrame_current b : fCurrentFrame (snd (AllocFrame b)) = fCurrentFrame b.
Proof. unfold AllocFrame. destruct (rev (fFramePool b)); reflexivity. Qed.

Lemma base_inv_alloc b :
  base_inv b -> Z.of_nat (length (fFrames b)) < MAXFRAMEBUF ->
  base_inv (set_fCurrentFrame (Some (fst (AllocFrame b))) (snd (AllocFrame b))).
Proof.
  intros [Hq _] Hlt. unfold base_inv; simpl. rewrite AllocFrame_frames.
  split; [exact Hq|]. intros f Hf. injection Hf as <-.
  split; [apply AllocFrame_fresh | exact Hlt].
Qed.

Lemma queue_current_frames_le b frameData :
  base_inv b -> base_inv (queue_current frameData b).
Proof.
  intros [Hq Hc]. unfold queue_current.
  destruct (fCurrentFrame b) as [f|] eqn:E.
  - destruct (Hc f eq_refl) as [_ Hlt].
    unfold base_inv; simpl. rewrite length_app; simpl.
    split; [lia | intros ? HH; discriminate HH].
  - split; [exact Hq|]. intros f Hf. rewrite E in Hf. discriminate Hf.
Qed.

Ltac break_match :=
  match goal with
  | |- context [match ?x with _ => _ end] => destruct x eqn:?
  end.

Ltac dsimpl :=
  cbn -[Z.add Z.sub Z.of_nat Z.to_nat Z.leb Z.ltb Z.eqb Z.land MAXFRAMEBUF
        AllocFrame queue_current pad_loop mem_read memcpy nth skipn
        on_fid_change ensure_frame assemble append_payload pad_on_eof complete_frame] in *.

Lemma base_inv_on_fid_change buf s :
  base_inv (base s) -> base_inv (base (on_fid_change buf s)).
Proof.
  intros Hb. unfold on_fid_change. dsimpl.
  repeat break_match; dsimpl; try assumption; try discriminate;
    try (now apply queue_current_frames_le).
  all: match goal with
       | H : AllocFrame ?b = (?f, ?b'), L : (_ <? MAXFRAMEBUF) = true |- _ =>
           apply Z.ltb_lt in L;
           pose proof (base_inv_alloc b Hb L) as Ha; rewrite H in Ha; dsimpl
       end.
  all: try (now apply queue_current_frames_le); assumption.
Qed.

Lemma on_fid_change_input buf s : fInputBuffer (on_fid_change buf s) = io_empty.
Proof. reflexivity. Qed.

Lemma append_payload_base buf n s : base (append_payload buf n s) = base s.
Proof. unfold append_payload. repeat break_match; reflexivity. Qed.

Lemma append_payload_input buf n s :
  fInputBuffer (append_payload buf n s) = fInputBuffer s.
Proof. unfold append_payload. repeat break_match; reflexivity. Qed.

Lemma pad_on_eof_base s : base (pad_on_eof s) = base s.
Proof. unfold pad_on_eof. repeat break_match; reflexivity. Qed.

Lemma pad_on_eof_input s : fInputBuffer (pad_on_eof s) = fInputBuffer s.
Proof. unfold pad_on_eof. repeat break_match; reflexivity. Qed.

Lemma inv_complete_frame s : inv s -> inv (complete_frame s).
Proof.
  intros [Hb Hi]. unfold complete_frame, inv.
  cbn -[queue_current].
  split; [|reflexivity].
  repeat break_match; now apply queue_current_frames_le.
Qed.

Lemma inv_ensure_frame s s1 : inv s -> ensure_frame s = Some s1 -> inv s1.
Proof.
  intros [Hb Hi] E. unfold ensure_frame in E.
  destruct (fCurrentFrame (base s)) eqn:Ec.
  - injection E as <-. now split.
  - destruct (_ <? _) eqn:L; [|discriminate E].
    apply Z.ltb_lt in L. pose proof (base_inv_alloc _ Hb L) as Ha.
    destruct (AllocFrame (base s)) as [f b]. injection E as <-.
    split; [exact Ha | exact Hi].
Qed.

Lemma inv_assemble buf n eof fc s : inv s -> inv (assemble buf n eof fc s).
Proof.
  intros [Hb Hi]. unfold assemble, frame_complete.
  set (s1 := append_payload buf n _).
  assert (H1 : inv s1).
  { split; subst s1;
      [now rewrite append_payload_base | now rewrite append_payload_input]. }
  assert (H2 : inv (pad_on_eof s1)).
  { split; [rewrite pad_on_eof_base | rewrite pad_on_eof_input]; apply H1. }
  clearbody s1.
  destruct (0 <? fExpectedFrameSize s1).
  - destruct eof; [now apply inv_complete_frame|].
    destruct (_ <=? _); [now apply inv_complete_frame | exact H1].
  - destruct (eof && negb fc); [now apply inv_complete_frame | exact H1].
Qed.

Lemma inv_Write buf s : inv s -> inv (snd (Write buf s)).
Proof.
  intros Hinv. unfold Write.
  destruct (header_invalid buf); [exact Hinv|].
  destruct (_ =? 0); [exact Hinv|].
  set (s0 := set_fPacketsThisFrame (fPacketsThisFrame s + 1) s).
  set (s1 := if negb (fid_bit buf =? fID s0) then on_fid_change buf s0 else s0).
  assert (H1 : inv s1).
  { subst s1. destruct (negb _); [|exact Hinv].
    split; [apply base_inv_on_fid_change; apply Hinv | reflexivity]. }
  clearbody s1.
  destruct (ensure_frame s1) as [s2|] eqn:E; [|exact H1].
  apply inv_assemble. eapply inv_ensure_frame; eauto.
Qed.

Lemma inv_new buffer : inv (UVCDeframer_new buffer).
Proof.
  split; [|reflexivity]. split; simpl.
  - unfold MAXFRAMEBUF; lia.
  - intros f Hf. injection Hf as <-. split; [reflexivity | unfold MAXFRAMEBUF; lia].
Qed.

Lemma base_inv_tail b f rest :
  fFrames b = f :: rest -> base_inv b -> base_inv (set_fFrames rest b).
Proof.
  intros E [Hq Hc]. rewrite E in Hq, Hc. cbn [length] in Hq, Hc.
  split; cbn [fFrames set_fFrames fCurrentFrame]; [lia|].
  intros f0 Hf. destruct (Hc f0 Hf). split; [assumption | lia].
Qed.

Lemma inv_apply_op o s : inv s -> inv (apply_op o s).
Proof.
  intros Hinv. destruct o; simpl.
  - now apply inv_Write.
  - destruct Hinv as [Hb Hi]. split; [|exact Hi]. simpl.
    unfold GetFrame. destruct (fFrames (base s)) as [|f rest] eqn:E; simpl;
      [exact Hb | now apply (base_inv_tail _ f)].
  - destruct Hinv as [Hb Hi]. split; [|exact Hi]. simpl.
    unfold DropFrame. destruct (fFrames (base s)) as [|f rest] eqn:E; simpl;
      [exact Hb | now apply (base_inv_tail _ f)].
  - split; [|reflexivity]. simpl. split; simpl; [unfold MAXFRAMEBUF; lia|].
    intros f Hf. destruct (fCurrentFrame (base s)); [|discriminate Hf].
    injection Hf as <-. split; [reflexivity | unfold MAXFRAMEBUF; lia].
  - destruct Hinv as [[Hq Hc] Hi]. split; [|exact Hi]. simpl.
    unfold RecycleFrame. destruct (_ <? _); [|now split].
    split; simpl; assumption.
  - exact Hinv.
Qed.

Lemma reachable_inv s : reachable s -> inv s.
Proof.
  induction 1 as [buffer | o s _ IH]; [apply inv_new | now apply inv_apply_op].
Qed.

(** With an empty [fInputBuffer] the FID block only restarts the fill. *)
Lemma on_fid_change_idle buf s :
  fInputBuffer s = io_empty ->
  on_fid_change buf s =
  set_fTotalBytesThisFrame 0
    (set_fPacketsThisFrame 1
       (set_fFixedBufferPos 0
          (set_fInputBuffer io_empty
             (set_fID (fid_bit buf) (set_fFIDChanges (fFIDChanges s + 1) s))))).
Proof.
  intros Hi. unfold on_fid_change.
  cbn [fExpectedFrameSize fInputBuffer set_fID set_fFIDChanges].
  rewrite Hi. cbn [BufferLength io_data io_empty length Z.of_nat].
  rewrite andb_false_r. reflexivity.
Qed.









(** *** Stage lemmas *)

(** [ensure_frame] changes nothing but the pool and the current frame, and
    under the invariant the frame it leaves is empty. *)
Lemma ensure_frame_spec s s2 :
  inv s -> ensure_frame s = Some s2 ->
  fCurrentFrame (base s2) = Some io_empty /\
  fFrames (base s2) = fFrames (base s) /\
  fFrameSem (base s2) = fFrameSem (base s) /\
  s2 = set_base (base s2) s.
Proof.
  intros [[Hq Hc] Hi] E. unfold ensure_frame in E.
  destruct (fCurrentFrame (base s)) as [f|] eqn:Ec.
  - injection E as <-. destruct (Hc f eq_refl) as [-> _].
    repeat split; auto. destruct s; reflexivity.
  - destruct (_ <? _); [|discriminate E].
    pose proof (AllocFrame_fresh (base s)) as Hf.
    pose proof (AllocFrame_frames (base s)) as Hfr.
    destruct (AllocFrame (base s)) as [f b] eqn:Ea. simpl in Hf, Hfr.
    injection E as <-. subst f. cbn [base set_base fCurrentFrame fFrames fFrameSem
      set_fCurrentFrame].
    repeat split; auto.
    unfold AllocFrame in Ea. destruct (rev (fFramePool (base s)));
      injection Ea as <-; reflexivity.
Qed.

Lemma ensure_frame_some s :
  fCurrentFrame (base s) <> None \/
  Z.of_nat (length (fFrames (base s))) < MAXFRAMEBUF ->
  exists s2, ensure_frame s = Some s2.
Proof.
  intros H. unfold ensure_frame.
  destruct (fCurrentFrame (base s)) as [f|]; [eauto|].
  destruct H as [H | H]; [now destruct H|].
  apply Z.ltb_lt in H. rewrite H.
  destruct (AllocFrame (base s)); eauto.
Qed.

(** In marker-delimited mode a packet without the EOF bit never queues a
    frame, whether or not its FID differs: the FID block looks at
    [fInputBuffer], which is always empty. *)
Lemma mjpeg_only_eof_publishes buf s :
  inv s -> fExpectedFrameSize s = 0 -> eof_bit buf = false ->
  fFrames (base (snd (Write buf s))) = fFrames (base s).
Proof.
  intros Hinv HE Heof. unfold Write.
  destruct (header_invalid buf); [reflexivity|].
  destruct (_ =? 0); [reflexivity|].
  set (s0 := set_fPacketsThisFrame (fPacketsThisFrame s + 1) s).
  set (s1 := if negb (fid_bit buf =? fID s0) then on_fid_change buf s0 else s0).
  assert (H1 : inv s1 /\ base s1 = base s /\ fExpectedFrameSize s1 = 0).
  { subst s1. destruct (negb _);
      [|split; [exact Hinv | split; [reflexivity | exact HE]]].
    rewrite on_fid_change_idle by apply Hinv.
    split; [split; [apply Hinv | reflexivity] | split; [reflexivity | exact HE]]. }
  destruct H1 as (H1 & H2 & H3). clearbody s1.
  destruct (ensure_frame s1) as [s2|] eqn:E; [|simpl; now rewrite H2].
  destruct (ensure_frame_spec _ _ H1 E) as (_ & Hf & _ & Hs2).
  cbn [snd]. unfold assemble, frame_complete.
  set (s3 := append_payload _ _ _).
  assert (H4 : fExpectedFrameSize s3 = 0 /\ base s3 = base s2).
  { subst s3. rewrite append_payload_base. split; [|reflexivity].
    unfold append_payload. rewrite Hs2.
    repeat break_match; cbn; exact H3. }
  destruct H4 as [H4 H5]. rewrite H4, Heof. cbn [Z.ltb Z.compare andb].
  now rewrite H5, Hf, H2.
Qed.

(** Scenario S2 of the specification. *)
Definition S2_P1 : list Z := [2; 1; 255; 216; 170; 170].
Definition S2_P2 : list Z := [2; 1; 187; 187; 255; 217].
Definition S2_P3 : list Z := [2; 0; 255; 216].

(** C2, the code at scenario S2.  In marker-delimited mode (expected size
    0, as constructed) the three packets of S2 leave the ready queue empty:
    the FID flip of P3 publishes nothing, because the payloads of P1 and P2
    went to the fixed buffer while the FID block reads [fInputBuffer]. *)
Theorem S2_fid_flip_publishes_nothing buffer :
  fExpectedFrameSize (UVCDeframer_new buffer) = 0 /\
  fFrames (base (write_all [S2_P1; S2_P2; S2_P3] (UVCDeframer_new buffer))) = [].
Proof. destruct buffer; split; vm_compute; reflexivity. Qed.

(** *** Fixed-size (YUY2) assembly *)

Lemma mem_read_ext m1 m2 off n :
  (forall i, off <= i < off + n -> m1 i = m2 i) ->
  mem_read m1 off n = mem_read m2 off n.
Proof.
  intros H. unfold mem_read. apply map_ext_in. intros k Hk.
  apply in_seq in Hk. apply H. lia.
Qed.

(** The padding loop, given fuel for one iteration per missing byte, stops
    exactly at [expected]; below the old position the buffer is untouched
    and from there on it holds the pattern, restarted at the old position. *)
Lemma pad_loop_spec fuel expected : forall m pos,
  0 <= pos <= expected ->
  (Z.to_nat (expected - pos) <= fuel)%nat ->
  snd (pad_loop fuel expected m pos) = expected /\
  forall i,
    fst (pad_loop fuel expected m pos) i =
    if (pos <=? i) && (i <? expected)
    then nth (Z.to_nat ((i - pos) mod 4)) padPattern 0
    else m i.
Proof.
  induction fuel as [|fuel IH]; intros m pos Hpos Hfuel.
  - assert (pos = expected) by lia. subst pos. simpl. split; [reflexivity|].
    intros i. destruct (expected <=? i) eqn:A, (i <? expected) eqn:B; try reflexivity.
    apply Z.leb_le in A. apply Z.ltb_lt in B. lia.
  - cbn [pad_loop]. destruct (pos <? expected) eqn:Hlt.
    + apply Z.ltb_lt in Hlt.
      set (toWrite := if expected - pos <? 4 then expected - pos else 4).
      assert (HtW : 1 <= toWrite <= 4 /\ pos + toWrite <= expected /\
                    (toWrite < 4 -> pos + toWrite = expected)).
      { subst toWrite. destruct (expected - pos <? 4) eqn:E4;
          [apply Z.ltb_lt in E4 | apply Z.ltb_ge in E4]; lia. }
      destruct HtW as (Ht1 & Ht2 & Ht3).
      destruct (IH (memcpy m pos padPattern toWrite) (pos + toWrite)) as [IH1 IH2];
        [lia | lia |].
      split; [exact IH1|]. intros i. rewrite IH2.
      destruct (pos + toWrite <=? i) eqn:A, (i <? expected) eqn:B, (pos <=? i) eqn:C;
        cbn [andb];
        repeat match goal with
               | H : (_ <=? _) = true |- _ => apply Z.leb_le in H
               | H : (_ <=? _) = false |- _ => apply Z.leb_gt in H
               | H : (_ <? _) = true |- _ => apply Z.ltb_lt in H
               | H : (_ <? _) = false |- _ => apply Z.ltb_ge in H
               end; try lia.
      * assert (toWrite = 4) by lia.
        replace (pos + toWrite) with (pos + 4) by lia.
        replace (i - pos) with ((i - (pos + 4)) + 1 * 4) by lia.
        now rewrite Z.mod_add by lia.
      * apply memcpy_outside. lia.
      * rewrite memcpy_inside by lia.
        now rewrite Z.mod_small by lia.
      * apply memcpy_outside. lia.
    + apply Z.ltb_ge in Hlt. assert (pos = expected) by lia. subst pos.
      split; [reflexivity|]. intros i. cbn [fst].
      destruct (expected <=? i) eqn:A, (i <? expected) eqn:B; try reflexivity.
      apply Z.leb_le in A. apply Z.ltb_lt in B. lia.
Qed.

(** The state in which fixed-size assembly runs: expected size set and
    within the fixed buffer, buffer allocated, fill within the frame. *)
Definition yuy2_ready (s : UVCDeframer) : Prop :=
  inv s /\
  0 < fExpectedFrameSize s <= fFixedBufferSize s /\
  fFixedBuffer s <> None /\
  0 <= fFixedBufferPos s <= fExpectedFrameSize s.

(** The content of a frame completed from a fill of [pos0] bytes of [m],
    [k] payload bytes [pl], and padding. *)
Definition yuy2_frame_byte (m : mem) (pos0 k : Z) (pl : list Z) : mem :=
  fun i =>
    if i <? pos0 then m i
    else if i <? pos0 + k then nth (Z.to_nat (i - pos0)) pl 0
    else nth (Z.to_nat ((i - (pos0 + k)) mod 4)) padPattern 0.

Ltac zb :=
  repeat match goal with
         | H : (_ <=? _) = true |- _ => apply Z.leb_le in H
         | H : (_ <=? _) = false |- _ => apply Z.leb_gt in H
         | H : (_ <? _) = true |- _ => apply Z.ltb_lt in H
         | H : (_ <? _) = false |- _ => apply Z.ltb_ge in H
         | H : (_ =? _) = true |- _ => apply Z.eqb_eq in H
         | H : (_ =? _) = false |- _ => apply Z.eqb_neq in H
         end.

Ltac proj_simpl :=
  cbn [base fFrameCount fID fInputBuffer fExpectedFrameSize fFixedBuffer
       fFixedBufferSize fFixedBufferPos fFramesCompleted fFramesIncomplete
       fFIDChanges fQueueOverflows fPacketsThisFrame fTotalBytesThisFrame
       sHeaderErrors fFrameSem fFrames fFramePool fCurrentFrame fPoolHits
       fPoolMisses set_base set_fFrameCount set_fID set_fInputBuffer
       set_fExpectedFrameSize set_fFixedBuffer set_fFixedBufferPos
       set_fFramesCompleted set_fFramesIncomplete set_fFIDChanges
       set_fQueueOverflows set_fPacketsThisFrame set_fTotalBytesThisFrame
       set_sHeaderErrors set_fFrameSem set_fFrames set_fFramePool
       set_fCurrentFrame set_fPoolHits set_fPoolMisses] in *.

(** Fields that assembly never touches. *)
Definition same_setup (s s' : UVCDeframer) : Prop :=
  fExpectedFrameSize s' = fExpectedFrameSize s /\
  fFixedBufferSize s' = fFixedBufferSize s /\
  fInputBuffer s' = fInputBuffer s /\
  fID s' = fID s.

Lemma append_payload_yuy2 buf n s m :
  fFixedBuffer s = Some m ->
  0 < fExpectedFrameSize s <= fFixedBufferSize s ->
  0 <= fFixedBufferPos s <= fExpectedFrameSize s ->
  0 < n ->
  let k := Z.min n (fExpectedFrameSize s - fFixedBufferPos s) in
  let s' := append_payload buf n s in
  same_setup s s' /\ base s' = base s /\
  fFixedBufferPos s' = fFixedBufferPos s + k /\
  exists m', fFixedBuffer s' = Some m' /\
    forall i, m' i = if (fFixedBufferPos s <=? i) && (i <? fFixedBufferPos s + k)
                     then nth (Z.to_nat (i - fFixedBufferPos s)) (payload buf) 0
                     else m i.
Proof.
  intros Hm HE Hpos Hn k s'. subst s'. unfold append_payload. rewrite Hm.
  replace (0 <? fExpectedFrameSize s) with true by (symmetry; apply Z.ltb_lt; lia).
  set (spaceLeft := if fFixedBufferPos s <? fExpectedFrameSize s
                    then fExpectedFrameSize s - fFixedBufferPos s else 0).
  assert (Hsp : spaceLeft = fExpectedFrameSize s - fFixedBufferPos s).
  { subst spaceLeft. destruct (_ <? _) eqn:A; zb; lia. }
  clearbody spaceLeft.
  set (btw := if spaceLeft <? n then spaceLeft else n).
  assert (Hb : btw = k).
  { subst btw k. destruct (_ <? _) eqn:A; zb; lia. }
  rewrite Hb. clearbody btw.
  destruct (0 <? k) eqn:Hk; zb.
  - replace (fFixedBufferPos s + k <=? fFixedBufferSize s) with true
      by (symmetry; apply Z.leb_le; lia).
    cbn [andb]. cbn. repeat split; auto.
    eexists; split; [reflexivity|]. intros i. reflexivity.
  - cbn [andb]. assert (k = 0) by lia.
    repeat split; auto; try lia.
    exists m. split; [exact Hm|]. intros i.
    destruct (fFixedBufferPos s <=? i) eqn:A, (i <? fFixedBufferPos s + k) eqn:B;
      zb; try reflexivity; lia.
Qed.

Lemma pad_on_eof_yuy2 s m :
  fFixedBuffer s = Some m ->
  0 <= fFixedBufferPos s <= fExpectedFrameSize s ->
  let s' := pad_on_eof s in
  same_setup s s' /\ base s' = base s /\
  fFixedBufferPos s' = fExpectedFrameSize s /\
  exists m', fFixedBuffer s' = Some m' /\
    forall i, m' i = if (fFixedBufferPos s <=? i) && (i <? fExpectedFrameSize s)
                     then nth (Z.to_nat ((i - fFixedBufferPos s) mod 4)) padPattern 0
                     else m i.
Proof.
  intros Hm Hpos s'. subst s'. unfold pad_on_eof. rewrite Hm.
  destruct (fFixedBufferPos s <? fExpectedFrameSize s) eqn:Hlt; zb.
  - destruct (pad_loop_spec (Z.to_nat (fExpectedFrameSize s - fFixedBufferPos s))
                (fExpectedFrameSize s) m (fFixedBufferPos s)) as [P1 P2];
      [lia | lia |].
    destruct (pad_loop _ _ _ _) as [m' pos']. cbn [fst snd] in P1, P2. subst pos'.
    cbn. repeat split; auto. exists m'. split; [reflexivity | exact P2].
  - repeat split; auto; try lia. exists m. split; [exact Hm|]. intros i.
    destruct (fFixedBufferPos s <=? i) eqn:A, (i <? fExpectedFrameSize s) eqn:B;
      zb; try reflexivity; lia.
Qed.

Lemma complete_frame_yuy2 s m :
  fFixedBuffer s = Some m ->
  0 < fExpectedFrameSize s ->
  fFixedBufferPos s = fExpectedFrameSize s ->
  fCurrentFrame (base s) = Some io_empty ->
  let s' := complete_frame s in
  fExpectedFrameSize s' = fExpectedFrameSize s /\
  fFixedBufferSize s' = fFixedBufferSize s /\
  fID s' = fID s /\
  fFixedBuffer s' = Some m /\
  fFixedBufferPos s' = 0 /\
  fInputBuffer s' = io_empty /\
  fCurrentFrame (base s') = None /\
  fFrames (base s') =
    fFrames (base s) ++ [io_write io_empty (mem_read m 0 (fExpectedFrameSize s))].
Proof.
  intros Hm HE Hpos Hc s'. subst s'. unfold complete_frame, queue_current.
  proj_simpl. rewrite Hm, Hpos.
  replace (0 <? fExpectedFrameSize s) with true by (symmetry; apply Z.ltb_lt; lia).
  rewrite mem_read_length, Z2Nat.id by lia. rewrite Z.ltb_irrefl. cbn [andb].
  proj_simpl. rewrite Hc.
  replace (0 <? fExpectedFrameSize s) with true by (symmetry; apply Z.ltb_lt; lia).
  proj_simpl. repeat split; auto.
Qed.

Lemma yuy2_frame_data m m2 m3 pos k E pl :
  0 <= pos -> 0 <= k -> pos + k <= E ->
  (forall i, m2 i = if (pos <=? i) && (i <? pos + k)
                    then nth (Z.to_nat (i - pos)) pl 0 else m i) ->
  (forall i, m3 i = if (pos + k <=? i) && (i <? E)
                    then nth (Z.to_nat ((i - (pos + k)) mod 4)) padPattern 0
                    else m2 i) ->
  mem_read m3 0 E = mem_read (yuy2_frame_byte m pos k pl) 0 E.
Proof.
  intros Hp Hk HE H2 H3. apply mem_read_ext. intros i Hi.
  rewrite H3, H2. unfold yuy2_frame_byte.
  destruct (pos + k <=? i) eqn:A, (i <? E) eqn:B, (pos <=? i) eqn:C,
    (i <? pos + k) eqn:D, (i <? pos) eqn:F; zb; cbn [andb]; try reflexivity; lia.
Qed.

(** One packet with payload in fixed-size mode, a frame being held. *)
Lemma assemble_yuy2 buf n eof fidc s m :
  fCurrentFrame (base s) = Some io_empty ->
  fFixedBuffer s = Some m ->
  0 < fExpectedFrameSize s <= fFixedBufferSize s ->
  0 <= fFixedBufferPos s <= fExpectedFrameSize s ->
  0 < n ->
  let E := fExpectedFrameSize s in
  let pos := fFixedBufferPos s in
  let k := Z.min n (E - pos) in
  let s' := assemble buf n eof fidc s in
  fExpectedFrameSize s' = E /\ fFixedBufferSize s' = fFixedBufferSize s /\
  fID s' = fID s /\ fFixedBuffer s' <> None /\
  if eof || (E <=? pos + n) then
    fFrames (base s') =
      fFrames (base s)
      ++ [io_write io_empty (mem_read (yuy2_frame_byte m pos k (payload buf)) 0 E)] /\
    fCurrentFrame (base s') = None /\
    fFixedBufferPos s' = 0 /\
    fInputBuffer s' = io_empty
  else
    base s' = base s /\
    fFixedBufferPos s' = pos + n /\ pos + n < E /\
    fInputBuffer s' = fInputBuffer s /\
    exists m', fFixedBuffer s' = Some m' /\
      forall i, m' i = if (pos <=? i) && (i <? pos + n)
                       then nth (Z.to_nat (i - pos)) (payload buf) 0 else m i.
Proof.
  intros Hc Hm HE Hpos Hn E pos k s'. subst s'. unfold assemble.
  set (s1 := set_fTotalBytesThisFrame _ s).
  destruct (append_payload_yuy2 buf n s1 m Hm HE Hpos Hn)
    as ((A1 & A2 & A3 & A4) & Ab & Ap & m2 & Am & Am').
  change (fFixedBufferPos s1) with pos in *.
  change (fExpectedFrameSize s1) with E in *.
  change (fFixedBufferSize s1) with (fFixedBufferSize s) in *.
  change (fInputBuffer s1) with (fInputBuffer s) in *.
  change (fID s1) with (fID s) in *.
  change (base s1) with (base s) in *.
  fold k in Ap, Am'.
  set (s2 := append_payload buf n s1) in *. clearbody s2. clear s1.
  assert (Hk : 0 <= k /\ pos + k <= E /\ k <= n) by (subst k; lia).
  unfold frame_complete. rewrite A1.
  replace (0 <? E) with true by (symmetry; apply Z.ltb_lt; lia).
  destruct eof.
  - cbn [orb].
    destruct (pad_on_eof_yuy2 s2 m2 Am) as ((B1 & B2 & B3 & B4) & Bb & Bp & m3 & Bm & Bm');
      [lia|].
    rewrite A1, Ap in *.
    destruct (complete_frame_yuy2 (pad_on_eof s2) m3 Bm) as
      (C1 & C2 & C3 & C4 & C5 & C6 & C7 & C8); [lia | lia | now rewrite Bb, Ab |].
    rewrite B1 in C1, C8. rewrite Bb, Ab in C8.
    rewrite (yuy2_frame_data m m2 m3 pos k E (payload buf)) in C8 by (auto; lia).
    repeat split; try congruence.
  - cbn [orb]. rewrite Ap.
    destruct (E <=? pos + k) eqn:Hsz; zb.
    + replace (E <=? pos + n) with true by (symmetry; apply Z.leb_le; lia).
      destruct (complete_frame_yuy2 s2 m2 Am) as
        (C1 & C2 & C3 & C4 & C5 & C6 & C7 & C8); [lia | lia | now rewrite Ab |].
      rewrite A1 in C1, C8. rewrite Ab in C8.
      rewrite (yuy2_frame_data m m2 m2 pos k E (payload buf)) in C8; auto; try lia.
      * repeat split; try congruence.
      * intros i. destruct (pos + k <=? i) eqn:X, (i <? E) eqn:Y; zb;
          cbn [andb]; try reflexivity; lia.
    + assert (k = n) by (subst k; lia).
      replace (E <=? pos + n) with false by (symmetry; apply Z.leb_gt; lia).
      repeat split; try congruence; try lia.
      exists m2. split; [exact Am|]. intros i. rewrite Am'. now replace k with n.
Qed.

(** A frame can be filled: one is held, or the queue has room for a new
    one (lines 239-248). *)
Definition frame_available (s : UVCDeframer) : bool :=
  match fCurrentFrame (base s) with
  | Some _ => true
  | None => Z.of_nat (length (fFrames (base s))) <? MAXFRAMEBUF
  end.

(** Where the fill stands once the FID bit of [buf] has been looked at, and
    how many payload bytes fit. *)
Definition fill_start (buf : list Z) (s : UVCDeframer) : Z :=
  if fid_bit buf =? fID s then fFixedBufferPos s else 0.
Definition payload_size (buf : list Z) : Z :=
  Z.of_nat (length buf) - nth 0 buf 0.
Definition stored_size (buf : list Z) (s : UVCDeframer) : Z :=
  Z.min (payload_size buf) (fExpectedFrameSize s - fill_start buf s).

(** The condition under which [Write] queues a frame in fixed-size mode. *)
Definition yuy2_publishes (buf : list Z) (s : UVCDeframer) : bool :=
  negb (header_invalid buf) && (0 <? payload_size buf) && frame_available s
  && (eof_bit buf || (fExpectedFrameSize s <=? fill_start buf s + payload_size buf)).

Lemma yuy2_ready_intro s s' :
  inv s' ->
  0 < fExpectedFrameSize s <= fFixedBufferSize s ->
  fExpectedFrameSize s' = fExpectedFrameSize s ->
  fFixedBufferSize s' = fFixedBufferSize s ->
  fFixedBuffer s' <> None ->
  0 <= fFixedBufferPos s' <= fExpectedFrameSize s ->
  yuy2_ready s'.
Proof.
  intros Hi HE H1 H2 H3 H4. unfold yuy2_ready. rewrite H1, H2. auto.
Qed.

Lemma Write_yuy2_step buf s m :
  yuy2_ready s -> fFixedBuffer s = Some m ->
  let E := fExpectedFrameSize s in
  let s' := snd (Write buf s) in
  yuy2_ready s' /\ fExpectedFrameSize s' = E /\
  if yuy2_publishes buf s then
    fFrames (base s') =
      fFrames (base s)
      ++ [io_write io_empty
            (mem_read (yuy2_frame_byte m (fill_start buf s) (stored_size buf s)
                         (payload buf)) 0 E)] /\
    fFixedBufferPos s' = 0
  else
    fFrames (base s') = fFrames (base s).
Proof.
  intros (Hinv & HE & Hnn & Hpos) Hm E s'.
  assert (Hinv' : inv s') by (apply inv_Write; exact Hinv).
  revert Hinv'. subst s' E. unfold yuy2_publishes, Write. fold (payload_size buf).
  destruct (header_invalid buf) eqn:Hh.
  { cbn [negb andb snd]. intros Hinv'.
    split; [apply (yuy2_ready_intro s); auto | split; reflexivity]. }
  assert (Hn0 : 0 <= payload_size buf).
  { unfold header_invalid in Hh. cbv zeta in Hh. unfold payload_size.
    rewrite !orb_false_iff in Hh. destruct Hh as [[_ _] Hh]. zb. lia. }
  destruct (payload_size buf =? 0) eqn:Hp0; zb.
  { replace (0 <? payload_size buf) with false by (symmetry; apply Z.ltb_ge; lia).
    cbn [negb andb snd]. intros Hinv'.
    split; [apply (yuy2_ready_intro s); auto | split; reflexivity]. }
  replace (0 <? payload_size buf) with true by (symmetry; apply Z.ltb_lt; lia).
  cbn [negb andb].
  set (s0 := set_fPacketsThisFrame (fPacketsThisFrame s + 1) s).
  set (s1 := if negb (fid_bit buf =? fID s0) then on_fid_change buf s0 else s0).
  assert (H1 : inv s1 /\ base s1 = base s /\ fExpectedFrameSize s1 = fExpectedFrameSize s /\
               fFixedBufferSize s1 = fFixedBufferSize s /\
               fFixedBuffer s1 = Some m /\
               fFixedBufferPos s1 = fill_start buf s).
  { subst s1. unfold fill_start. change (fID s0) with (fID s).
    destruct (fid_bit buf =? fID s) eqn:Hf; cbn [negb].
    - split; [exact Hinv | auto].
    - rewrite on_fid_change_idle by apply Hinv.
      split; [split; [apply Hinv | reflexivity] | auto]. }
  destruct H1 as (I1 & Hb1 & HE1 & Hs1 & Hm1 & Hp1).
  assert (Hfs : 0 <= fill_start buf s <= fExpectedFrameSize s).
  { unfold fill_start. destruct (_ =? _); lia. }
  change (fID s0) with (fID s).
  clearbody s1. clear s0.
  unfold frame_available. rewrite <- Hb1.
  unfold ensure_frame.
  destruct (fCurrentFrame (base s1)) as [f|] eqn:Hc.
  - destruct I1 as [[Iq Ic] Ii]. destruct (Ic f Hc) as [-> _].
    cbn [snd].
    pose proof (assemble_yuy2 buf (payload_size buf) (eof_bit buf)
                  (negb (fid_bit buf =? fID s)) s1 m Hc Hm1) as HA.
    rewrite HE1, Hs1, Hp1 in HA. cbv zeta in HA.
    destruct HA as (A1 & A2 & A3 & A4 & A5); [lia | lia | lia |].
    fold (stored_size buf s) in A5. cbn [andb]. intros Hinv'.
    destruct (eof_bit buf || (fExpectedFrameSize s <=? fill_start buf s + payload_size buf)).
    + destruct A5 as (F1 & F2 & F3 & F4).
      split; [apply (yuy2_ready_intro s); auto; lia |].
      split; [exact A1|]. cbv iota. split; [exact F1 | exact F3].
    + destruct A5 as (F1 & F2 & F3 & F4 & F5).
      split; [apply (yuy2_ready_intro s); auto; lia |].
      split; [exact A1|]. cbv iota. now rewrite F1.
  - destruct (Z.of_nat (length (fFrames (base s1))) <? MAXFRAMEBUF) eqn:Hq.
    + pose proof (AllocFrame_fresh (base s1)) as Hfresh.
      pose proof (AllocFrame_frames (base s1)) as Hfr.
      destruct (AllocFrame (base s1)) as [f b]. cbn [fst snd] in *. subst f.
      set (s2 := set_base (set_fCurrentFrame (Some io_empty) b) s1).
      pose proof (assemble_yuy2 buf (payload_size buf) (eof_bit buf)
                    (negb (fid_bit buf =? fID s)) s2 m eq_refl Hm1) as HA.
      change (fExpectedFrameSize s2) with (fExpectedFrameSize s1) in HA.
      change (fFixedBufferSize s2) with (fFixedBufferSize s1) in HA.
      change (fFixedBufferPos s2) with (fFixedBufferPos s1) in HA.
      change (fFrames (base s2)) with (fFrames b) in HA.
      change (fInputBuffer s2) with (fInputBuffer s1) in HA.
      rewrite HE1, Hs1, Hp1, Hfr in HA. cbv zeta in HA.
      destruct HA as (A1 & A2 & A3 & A4 & A5); [lia | lia | lia |].
      fold (stored_size buf s) in A5. cbn [andb snd]. intros Hinv'.
      subst s2.
      destruct (eof_bit buf || (fExpectedFrameSize s <=? fill_start buf s + payload_size buf)).
      * destruct A5 as (F1 & F2 & F3 & F4).
        split; [apply (yuy2_ready_intro s); auto; lia |].
        split; [exact A1|]. cbv iota. split; [exact F1 | exact F3].
      * destruct A5 as (F1 & F2 & F3 & F4 & F5).
        split; [apply (yuy2_ready_intro s); auto; lia |].
        split; [exact A1|]. cbv iota. rewrite F1. proj_simpl.
        exact Hfr.
    + cbn [andb snd]. intros Hinv'.
      split; [apply (yuy2_ready_intro s); auto; proj_simpl; try congruence; lia |].
      split; [exact HE1|]. reflexivity.
Qed.

Lemma published_frame_length g E :
  0 <= E -> BufferLength (io_write io_empty (mem_read g 0 E)) = E.
Proof.
  intros HE. unfold BufferLength. rewrite io_write_empty, mem_read_length. lia.
Qed.

Lemma Write_yuy2_run pkts : forall s,
  yuy2_ready s ->
  yuy2_ready (write_all pkts s) /\
  fExpectedFrameSize (write_all pkts s) = fExpectedFrameSize s /\
  exists new,
    fFrames (base (write_all pkts s)) = fFrames (base s) ++ new /\
    Forall (fun f => BufferLength f = fExpectedFrameSize s) new.
Proof.
  induction pkts as [|p rest IH]; intros s Hr.
  - split; [exact Hr|]. split; [reflexivity|].
    exists []. split; [now rewrite app_nil_r | constructor].
  - cbn [write_all].
    destruct (fFixedBuffer s) as [m|] eqn:Hm; [|now destruct Hr as (_ & _ & Hn & _)].
    destruct (Write_yuy2_step p s m Hr Hm) as (Hr' & HE' & Hstep).
    destruct (IH _ Hr') as (Hr'' & HE'' & new & Hnew & Hall).
    split; [exact Hr''|]. split; [congruence|].
    rewrite HE' in Hall.
    destruct (yuy2_publishes p s).
    + destruct Hstep as [Hf _]. eexists. rewrite Hnew, Hf, <- app_assoc.
      split; [reflexivity|]. constructor; [|exact Hall].
      apply published_frame_length. destruct Hr as (_ & ? & _). lia.
    + exists new. rewrite Hnew, Hstep. split; [reflexivity | exact Hall].
Qed.

(** *** The fixed buffer and its fill *)

Lemma append_payload_expected buf n s :
  fExpectedFrameSize (append_payload buf n s) = fExpectedFrameSize s.
Proof. unfold append_payload. repeat break_match; reflexivity. Qed.

(** The fill position lies within the fixed buffer. *)
Definition fill_ok (s : UVCDeframer) : Prop :=
  0 <= fFixedBufferPos s <= fFixedBufferSize s.

(** The fixed buffer of [s] agrees with [m] outside [0, size). *)
Definition kept_outside (m : mem) (size : Z) (s : UVCDeframer) : Prop :=
  exists m', fFixedBuffer s = Some m' /\
    forall i, i < 0 \/ size <= i -> m' i = m i.

Lemma append_payload_fixed buf n s :
  fill_ok s ->
  let s' := append_payload buf n s in
  fFixedBufferSize s' = fFixedBufferSize s /\
  fill_ok s' /\ fFixedBufferPos s <= fFixedBufferPos s' /\
  forall m, kept_outside m (fFixedBufferSize s) s ->
            kept_outside m (fFixedBufferSize s) s'.
Proof.
  intros [H0 H1]. cbv zeta. unfold append_payload.
  destruct (fFixedBuffer s) as [m0|] eqn:Hm.
  2:{ unfold fill_ok. repeat split; auto; lia. }
  match goal with
  | |- context [if ?g then set_fFixedBufferPos _ _ else _] => destruct g eqn:G
  end.
  - apply andb_true_iff in G. destruct G as [G1 G2]. zb.
    unfold fill_ok, kept_outside. proj_simpl.
    split; [reflexivity|]. split; [lia|]. split; [lia|].
    intros m (m' & Em & Hout). rewrite Hm in Em. injection Em as <-.
    eexists. split; [reflexivity|]. intros i Hi.
    rewrite memcpy_outside by lia. now apply Hout.
  - unfold fill_ok. repeat split; auto; lia.
Qed.

Lemma complete_frame_fixed s :
  0 <= fFixedBufferSize s ->
  fFixedBufferSize (complete_frame s) = fFixedBufferSize s /\
  fExpectedFrameSize (complete_frame s) = fExpectedFrameSize s /\
  fFixedBuffer (complete_frame s) = fFixedBuffer s /\
  fill_ok (complete_frame s).
Proof.
  intros H. unfold complete_frame, fill_ok. cbn -[queue_current].
  repeat break_match; repeat split; cbn; auto; lia.
Qed.

Lemma pad_on_eof_fixed s :
  fill_ok s ->
  fFixedBufferSize (pad_on_eof s) = fFixedBufferSize s /\
  fExpectedFrameSize (pad_on_eof s) = fExpectedFrameSize s /\
  (fExpectedFrameSize s <= fFixedBufferSize s ->
   forall m, kept_outside m (fFixedBufferSize s) s ->
             kept_outside m (fFixedBufferSize s) (pad_on_eof s)).
Proof.
  intros [H0 H1]. unfold pad_on_eof.
  destruct (fFixedBuffer s) as [m0|] eqn:Hm; [|auto].
  destruct (fFixedBufferPos s <? fExpectedFrameSize s) eqn:Hlt; zb; [|auto].
  destruct (pad_loop_spec (Z.to_nat (fExpectedFrameSize s - fFixedBufferPos s))
              (fExpectedFrameSize s) m0 (fFixedBufferPos s)) as [P1 P2];
    [lia | lia |].
  destruct (pad_loop _ _ _ _) as [m' pos']. cbn [fst snd] in P1, P2. subst pos'.
  proj_simpl. split; [reflexivity|]. split; [reflexivity|].
  intros HE m (m1 & Em & Hout). rewrite Hm in Em. injection Em as <-.
  exists m'. unfold kept_outside. proj_simpl. split; [reflexivity|].
  intros i Hi. rewrite P2.
  destruct (fFixedBufferPos s <=? i) eqn:A, (i <? fExpectedFrameSize s) eqn:B;
    zb; cbn [andb]; try (now apply Hout); lia.
Qed.

Lemma assemble_fixed buf n eof fc s :
  fill_ok s ->
  let s' := assemble buf n eof fc s in
  fFixedBufferSize s' = fFixedBufferSize s /\ fill_ok s' /\
  (fExpectedFrameSize s <= fFixedBufferSize s ->
   forall m, kept_outside m (fFixedBufferSize s) s ->
             kept_outside m (fFixedBufferSize s) s').
Proof.
  intros Hf. cbv zeta. unfold assemble, frame_complete.
  set (s0 := set_fTotalBytesThisFrame _ s).
  destruct (append_payload_fixed buf n s0 Hf) as (A1 & A2 & _ & A4).
  change (fFixedBufferSize s0) with (fFixedBufferSize s) in *.
  assert (AE : fExpectedFrameSize (append_payload buf n s0) = fExpectedFrameSize s)
    by now rewrite append_payload_expected.
  assert (A4' : forall m, kept_outside m (fFixedBufferSize s) s ->
                  kept_outside m (fFixedBufferSize s) (append_payload buf n s0))
    by (intros m Hk; apply A4; exact Hk).
  clear A4. set (s1 := append_payload buf n s0) in *. clearbody s1. clear s0.
  assert (Hsz : 0 <= fFixedBufferSize s1) by (destruct A2; lia).
  assert (Hcf : forall s2,
            fFixedBufferSize s2 = fFixedBufferSize s ->
            (fExpectedFrameSize s <= fFixedBufferSize s ->
             forall m, kept_outside m (fFixedBufferSize s) s ->
                       kept_outside m (fFixedBufferSize s) s2) ->
            fFixedBufferSize (complete_frame s2) = fFixedBufferSize s /\
            fill_ok (complete_frame s2) /\
            (fExpectedFrameSize s <= fFixedBufferSize s ->
             forall m, kept_outside m (fFixedBufferSize s) s ->
                       kept_outside m (fFixedBufferSize s) (complete_frame s2))).
  { intros s2 S2 K2.
    destruct (complete_frame_fixed s2) as (C1 & _ & C3 & C4); [rewrite S2; lia|].
    split; [congruence|]. split; [exact C4|].
    intros HE m Hk. specialize (K2 HE m Hk). unfold kept_outside in *.
    now rewrite C3. }
  destruct (pad_on_eof_fixed s1 A2) as (P1 & P2 & P3).
  rewrite AE, A1 in *.
  destruct (0 <? fExpectedFrameSize s).
  - destruct eof.
    + apply Hcf; [congruence|]. intros HE m Hk. apply P3; auto.
    + destruct (_ <=? _); [apply Hcf; auto | auto].
  - destruct (eof && negb fc); [apply Hcf; auto | auto].
Qed.

Lemma on_fid_change_fixed buf s :
  fFixedBufferSize (on_fid_change buf s) = fFixedBufferSize s /\
  fExpectedFrameSize (on_fid_change buf s) = fExpectedFrameSize s /\
  fFixedBuffer (on_fid_change buf s) = fFixedBuffer s /\
  fFixedBufferPos (on_fid_change buf s) = 0.
Proof.
  unfold on_fid_change. dsimpl. repeat break_match; dsimpl; auto.
Qed.

Lemma ensure_frame_fixed s s2 :
  ensure_frame s = Some s2 ->
  fFixedBufferSize s2 = fFixedBufferSize s /\
  fExpectedFrameSize s2 = fExpectedFrameSize s /\
  fFixedBuffer s2 = fFixedBuffer s /\
  fFixedBufferPos s2 = fFixedBufferPos s.
Proof.
  unfold ensure_frame. destruct (fCurrentFrame (base s)).
  - intros E. injection E as <-. auto.
  - destruct (_ <? _); [|discriminate].
    destruct (AllocFrame (base s)) as [f b]. intros E. injection E as <-. auto.
Qed.

Lemma Write_fixed buf s :
  fill_ok s ->
  let s' := snd (Write buf s) in
  fFixedBufferSize s' = fFixedBufferSize s /\ fill_ok s' /\
  (fExpectedFrameSize s <= fFixedBufferSize s ->
   forall m, kept_outside m (fFixedBufferSize s) s ->
             kept_outside m (fFixedBufferSize s) s').
Proof.
  intros Hf. cbv zeta. unfold Write.
  destruct (header_invalid buf); [cbn [snd]; auto|].
  destruct (_ =? 0); [cbn [snd]; auto|].
  set (s0 := set_fPacketsThisFrame (fPacketsThisFrame s + 1) s).
  set (s1 := if negb (fid_bit buf =? fID s0) then on_fid_change buf s0 else s0).
  assert (H1 : fFixedBufferSize s1 = fFixedBufferSize s /\
               fExpectedFrameSize s1 = fExpectedFrameSize s /\
               fFixedBuffer s1 = fFixedBuffer s /\ fill_ok s1).
  { subst s1. destruct (negb _); [|auto].
    destruct (on_fid_change_fixed buf s0) as (F1 & F2 & F3 & F4).
    split; [exact F1|]. split; [exact F2|]. split; [exact F3|].
    unfold fill_ok. rewrite F4, F1. destruct Hf. cbn. lia. }
  destruct H1 as (S1 & E1 & B1 & F1). clearbody s1.
  destruct (ensure_frame s1) as [s2|] eqn:E; cbn [snd].
  - destruct (ensure_frame_fixed _ _ E) as (S2 & E2 & B2 & P2).
    assert (F2 : fill_ok s2) by (unfold fill_ok; rewrite P2, S2; exact F1).
    destruct (assemble_fixed buf (Z.of_nat (length buf) - nth 0 buf 0) (eof_bit buf)
                (negb (fid_bit buf =? fID s0)) s2 F2) as (A1 & A2 & A3).
    rewrite S2, S1, E2, E1 in *.
    split; [exact A1|]. split; [exact A2|].
    intros HE m Hk. apply A3; [exact HE|].
    unfold kept_outside in *. now rewrite B2, B1.
  - unfold fill_ok, kept_outside in *. proj_simpl. rewrite S1, B1 in *.
    split; [reflexivity|]. split; [exact F1 | auto].
Qed.

Lemma reachable_fill_ok s :
  reachable s -> fFixedBufferSize s = 4 * 1024 * 1024 /\ fill_ok s.
Proof.
  induction 1 as [buffer | o s _ [IH1 IH2]].
  - unfold fill_ok. cbn. split; [reflexivity | lia].
  - destruct o; cbn [apply_op]; try (split; assumption).
    + destruct (Write_fixed buf s IH2) as (W1 & W2 & _).
      split; [congruence | exact W2].
    + unfold fill_ok. cbn. split; [exact IH1 | lia].
Qed.

(** One packet with payload in fixed-size mode when the fill already
    exceeds the expected size (the expected size was lowered while a frame
    was being filled): nothing is stored and the fill is queued as it is. *)
Lemma assemble_overfull buf n eof fidc s m :
  fCurrentFrame (base s) = Some io_empty ->
  fFixedBuffer s = Some m ->
  0 < fExpectedFrameSize s < fFixedBufferPos s ->
  0 < n ->
  let s' := assemble buf n eof fidc s in
  fExpectedFrameSize s' = fExpectedFrameSize s /\
  fFixedBufferSize s' = fFixedBufferSize s /\
  fID s' = fID s /\ fFixedBuffer s' = Some m /\
  fFrames (base s') =
    fFrames (base s) ++ [io_write io_empty (mem_read m 0 (fFixedBufferPos s))] /\
  fCurrentFrame (base s') = None /\
  fFixedBufferPos s' = 0 /\
  fInputBuffer s' = io_empty.
Proof.
  intros Hc Hm HE Hn s'. subst s'. unfold assemble.
  set (s0 := set_fTotalBytesThisFrame (fTotalBytesThisFrame s + n) s).
  assert (Ha : append_payload buf n s0 = s0).
  { unfold append_payload. subst s0. proj_simpl. rewrite Hm.
    replace (0 <? fExpectedFrameSize s) with true by (symmetry; apply Z.ltb_lt; lia).
    replace (fFixedBufferPos s <? fExpectedFrameSize s) with false
      by (symmetry; apply Z.ltb_ge; lia).
    replace (0 <? n) with true by (symmetry; apply Z.ltb_lt; lia).
    reflexivity. }
  assert (Hp : pad_on_eof s0 = s0).
  { unfold pad_on_eof. subst s0. proj_simpl. rewrite Hm.
    replace (fFixedBufferPos s <? fExpectedFrameSize s) with false
      by (symmetry; apply Z.ltb_ge; lia). reflexivity. }
  assert (Hf : frame_complete eof fidc s0 = (true, s0)).
  { unfold frame_complete. rewrite Hp. subst s0. proj_simpl.
    replace (0 <? fExpectedFrameSize s) with true by (symmetry; apply Z.ltb_lt; lia).
    replace (fExpectedFrameSize s <=? fFixedBufferPos s) with true
      by (symmetry; apply Z.leb_le; lia).
    destruct eof; reflexivity. }
  rewrite Ha, Hf. unfold complete_frame, queue_current. subst s0.
  proj_simpl. rewrite Hm.
  replace (0 <? fExpectedFrameSize s) with true by (symmetry; apply Z.ltb_lt; lia).
  rewrite mem_read_length, Z2Nat.id by lia.
  replace (fFixedBufferPos s <? fExpectedFrameSize s) with false
    by (symmetry; apply Z.ltb_ge; lia).
  cbn [andb]. proj_simpl. rewrite Hc.
  replace (0 <? fFixedBufferPos s) with true by (symmetry; apply Z.ltb_lt; lia).
  proj_simpl. repeat split; auto.
Qed.

Lemma ensure_frame_available s :
  frame_available s = match ensure_frame s with Some _ => true | None => false end.
Proof.
  unfold frame_available, ensure_frame.
  destruct (fCurrentFrame (base s)); [reflexivity|].
  destruct (_ <? _); [|reflexivity].
  destruct (AllocFrame (base s)); reflexivity.
Qed.

(** The frame [Write] queues in fixed-size mode: the fill, the payload
    clipped to the room left and the padding, [fExpectedFrameSize] bytes in
    all; or, when the fill already exceeds the expected size, the fill as it
    is. *)
Definition published_frame (buf : list Z) (s : UVCDeframer) (m : mem) : CamFrame :=
  let E := fExpectedFrameSize s in
  let pos0 := fill_start buf s in
  if pos0 <=? E
  then io_write io_empty
         (mem_read (yuy2_frame_byte m pos0 (stored_size buf s) (payload buf)) 0 E)
  else io_write io_empty (mem_read m 0 pos0).

(** One packet in fixed-size mode, from any fill. *)
Lemma Write_fixed_step buf s m :
  inv s -> fFixedBuffer s = Some m ->
  0 < fExpectedFrameSize s <= fFixedBufferSize s ->
  0 <= fFixedBufferPos s ->
  let E := fExpectedFrameSize s in
  let s' := snd (Write buf s) in
  inv s' /\ fExpectedFrameSize s' = E /\
  fFixedBufferSize s' = fFixedBufferSize s /\
  fFixedBuffer s' <> None /\ 0 <= fFixedBufferPos s' /\
  if yuy2_publishes buf s then
    fFrames (base s') = fFrames (base s) ++ [published_frame buf s m] /\
    fFixedBufferPos s' = 0
  else
    fFrames (base s') = fFrames (base s) /\
    (fFixedBufferPos s' = fFixedBufferPos s \/ fFixedBufferPos s' <= E).
Proof.
  intros Hinv Hm HE Hpos E s'.
  assert (Hinv' : inv s') by (apply inv_Write; exact Hinv).
  split; [exact Hinv'|]. clear Hinv'.
  subst s' E. unfold yuy2_publishes, Write. fold (payload_size buf).
  destruct (header_invalid buf) eqn:Hh.
  { cbn [negb andb snd]. proj_simpl. rewrite Hm.
    repeat split; auto; discriminate. }
  assert (Hn0 : 0 <= payload_size buf).
  { unfold header_invalid in Hh. cbv zeta in Hh. unfold payload_size.
    rewrite !orb_false_iff in Hh. destruct Hh as [[_ _] Hh]. zb. lia. }
  destruct (payload_size buf =? 0) eqn:Hp0; zb.
  { replace (0 <? payload_size buf) with false by (symmetry; apply Z.ltb_ge; lia).
    cbn [negb andb snd]. proj_simpl. rewrite Hm.
    repeat split; auto; discriminate. }
  replace (0 <? payload_size buf) with true by (symmetry; apply Z.ltb_lt; lia).
  cbn [negb andb].
  set (s0 := set_fPacketsThisFrame (fPacketsThisFrame s + 1) s).
  set (s1 := if negb (fid_bit buf =? fID s0) then on_fid_change buf s0 else s0).
  assert (H1 : inv s1 /\ base s1 = base s /\ fExpectedFrameSize s1 = fExpectedFrameSize s /\
               fFixedBufferSize s1 = fFixedBufferSize s /\
               fFixedBuffer s1 = Some m /\
               fFixedBufferPos s1 = fill_start buf s).
  { subst s1. unfold fill_start. change (fID s0) with (fID s).
    destruct (fid_bit buf =? fID s) eqn:Hf; cbn [negb].
    - split; [exact Hinv | auto].
    - rewrite on_fid_change_idle by apply Hinv.
      split; [split; [apply Hinv | reflexivity] | auto]. }
  destruct H1 as (I1 & Hb1 & HE1 & Hs1 & Hm1 & Hp1).
  assert (Hfs : 0 <= fill_start buf s /\
                (fill_start buf s = fFixedBufferPos s \/ fill_start buf s = 0)).
  { unfold fill_start. destruct (_ =? _); lia. }
  change (fID s0) with (fID s).
  clearbody s1. clear s0.
  replace (frame_available s) with (frame_available s1)
    by (unfold frame_available; now rewrite Hb1).
  rewrite (ensure_frame_available s1).
  destruct (ensure_frame s1) as [s2|] eqn:Een; cbn [andb snd].
  2:{ proj_simpl. rewrite HE1, Hs1, Hm1, Hb1, Hp1.
      repeat split; auto; try discriminate; lia. }
  destruct (ensure_frame_spec _ _ I1 Een) as (Hc & Hfr & _ & Hs2).
  assert (F2 : fExpectedFrameSize s2 = fExpectedFrameSize s /\
               fFixedBufferSize s2 = fFixedBufferSize s /\
               fFixedBuffer s2 = Some m /\
               fFixedBufferPos s2 = fill_start buf s).
  { rewrite Hs2. proj_simpl. auto. }
  destruct F2 as (HE2 & Hsz2 & Hm2 & Hp2).
  rewrite Hb1 in Hfr.
  unfold published_frame.
  destruct (fill_start buf s <=? fExpectedFrameSize s) eqn:Hle; zb.
  - pose proof (assemble_yuy2 buf (payload_size buf) (eof_bit buf)
                  (negb (fid_bit buf =? fID s)) s2 m Hc Hm2) as HA.
    rewrite HE2, Hsz2, Hp2 in HA. cbv zeta in HA.
    destruct HA as (A1 & A2 & A3 & A4 & A5); [lia | lia | lia |].
    fold (stored_size buf s) in A5. rewrite Hfr in A5.
    split; [exact A1|]. split; [exact A2|]. split; [exact A4|].
    destruct (eof_bit buf || (fExpectedFrameSize s <=? fill_start buf s + payload_size buf)).
    + destruct A5 as (F1 & F2 & F3 & F4). rewrite F3. split; [lia|].
      split; [exact F1 | reflexivity].
    + destruct A5 as (F1 & F2 & F3 & F4 & F5). rewrite F2, F1.
      split; [lia|]. split; [exact Hfr|]. right. lia.
  - destruct (assemble_overfull buf (payload_size buf) (eof_bit buf)
                (negb (fid_bit buf =? fID s)) s2 m Hc Hm2)
      as (A1 & A2 & A3 & A4 & A5 & A6 & A7 & A8); [lia | lia |].
    rewrite HE2 in A1. rewrite Hsz2 in A2. rewrite Hp2, Hfr in A5.
    split; [exact A1|]. split; [exact A2|]. split; [rewrite A4; discriminate|].
    rewrite A7. split; [lia|].
    replace (eof_bit buf || (fExpectedFrameSize s <=? fill_start buf s + payload_size buf))
      with true
      by (symmetry; apply orb_true_iff; right; apply Z.leb_le; lia).
    split; [exact A5 | reflexivity].
Qed.

Lemma published_frame_size buf s m :
  0 < fExpectedFrameSize s -> 0 <= fill_start buf s ->
  BufferLength (published_frame buf s m)
  = Z.max (fExpectedFrameSize s) (fill_start buf s).
Proof.
  intros HE Hp. unfold published_frame.
  destruct (fill_start buf s <=? fExpectedFrameSize s) eqn:A; zb;
    rewrite published_frame_length by lia; lia.
Qed.

(** A run of packets in fixed-size mode, from any fill: every frame added
    has the expected size, except that the first one is the fill as it was
    when that exceeded the expected size. *)
Lemma Write_fixed_run pkts : forall s,
  inv s -> fFixedBuffer s <> None ->
  0 < fExpectedFrameSize s <= fFixedBufferSize s ->
  0 <= fFixedBufferPos s ->
  exists new,
    fFrames (base (write_all pkts s)) = fFrames (base s) ++ new /\
    Forall (fun f => BufferLength f = fExpectedFrameSize s) (tl new) /\
    forall f, hd_error new = Some f ->
      BufferLength f = fExpectedFrameSize s \/
      (fExpectedFrameSize s < fFixedBufferPos s /\ BufferLength f = fFixedBufferPos s).
Proof.
  induction pkts as [|p rest IH]; intros s Hinv Hb HE Hpos.
  - exists []. cbn. rewrite app_nil_r. split; [reflexivity|].
    split; [constructor | intros f Hf; discriminate Hf].
  - cbn [write_all].
    destruct (fFixedBuffer s) as [m|] eqn:Hm; [|now destruct Hb].
    destruct (Write_fixed_step p s m Hinv Hm HE Hpos)
      as (I' & E' & S' & B' & P' & Hstep).
    set (s' := snd (Write p s)) in *.
    assert (Hfs : 0 <= fill_start p s /\
                  (fill_start p s = fFixedBufferPos s \/ fill_start p s = 0)).
    { unfold fill_start. destruct (_ =? _); lia. }
    destruct (yuy2_publishes p s).
    + destruct Hstep as [Hf Hp0].
      destruct (Write_yuy2_run rest s') as (_ & _ & new & Hnew & Hall).
      { unfold yuy2_ready. rewrite E', S', Hp0.
        split; [exact I'|]. split; [lia|]. split; [exact B' | lia]. }
      exists (published_frame p s m :: new).
      rewrite Hnew, Hf, <- app_assoc. split; [reflexivity|].
      cbn [tl hd_error]. rewrite E' in Hall. split; [exact Hall|].
      intros f Hf'. injection Hf' as <-.
      rewrite published_frame_size by lia. lia.
    + destruct Hstep as [Hf Hp'].
      destruct (IH s' I' B') as (new & Hnew & Htl & Hhd); [rewrite E', S'; lia | exact P' |].
      rewrite E' in *.
      exists new. rewrite Hnew, Hf. split; [reflexivity|]. split; [exact Htl|].
      intros f Hf'. destruct (Hhd f Hf') as [H | [H1 H2]]; [now left|].
      destruct Hp' as [Hp' | Hp']; [rewrite Hp' in *; right; auto | lia].
Qed.

(** C1 (as amended).  In fixed-size mode, in every state the deframer can
    reach, with the fixed buffer (of 4 MiB) allocated and
    [fExpectedFrameSize] > 0 not larger than it:

    - [Write] queues a frame exactly when the packet has a valid header and
      a non-empty payload, a frame is held or the queue has room for one, and
      the packet has EOF set or its payload takes the fill to the expected
      size ([yuy2_publishes]); a header-only packet, also one with EOF, and a
      packet that finds the queue full and no frame held, queue nothing;
    - when the fill (restarted at 0 when the FID bit changed) does not
      exceed the expected size, the queued frame has exactly
      [fExpectedFrameSize] bytes: the fill so far, then the payload clipped
      to the room left, then the pattern 00 80 00 80 repeated; [Write] keeps
      a fill that is within the expected size within it;
    - when the fill exceeds the expected size ([SetExpectedFrameSize]
      lowered it while a frame was being filled), the queued frame is that
      fill as it is;
    - so after any run of packets every frame added to the queue has
      exactly [fExpectedFrameSize] bytes, except that the first one can be
      a fill that was already longer. *)
Theorem yuy2_fixed_size_assembly s m buf pkts :
  reachable s -> fFixedBuffer s = Some m ->
  0 < fExpectedFrameSize s <= fFixedBufferSize s ->
  let E := fExpectedFrameSize s in
  let pos0 := fill_start buf s in
  let k := stored_size buf s in
  fFixedBufferSize s = 4 * 1024 * 1024 /\
  (if yuy2_publishes buf s then
     exists f,
       fFrames (base (snd (Write buf s))) = fFrames (base s) ++ [f] /\
       fFixedBufferPos (snd (Write buf s)) = 0 /\
       if pos0 <=? E then
         0 <= pos0 /\ 0 <= k <= payload_size buf /\ pos0 + k <= E /\
         BufferLength f = E /\
         forall i, 0 <= i < E ->
           nth (Z.to_nat i) (io_data f) 0 =
           if i <? pos0 then m i
           else if i <? pos0 + k then nth (Z.to_nat (i - pos0)) (payload buf) 0
           else nth (Z.to_nat ((i - (pos0 + k)) mod 4)) padPattern 0
       else
         pos0 = fFixedBufferPos s /\ BufferLength f = pos0 /\
         forall i, 0 <= i < pos0 -> nth (Z.to_nat i) (io_data f) 0 = m i
   else fFrames (base (snd (Write buf s))) = fFrames (base s)) /\
  (fFixedBufferPos s <= E -> fFixedBufferPos (snd (Write buf s)) <= E) /\
  (exists new,
     fFrames (base (write_all pkts s)) = fFrames (base s) ++ new /\
     Forall (fun f => BufferLength f = E) (tl new) /\
     (fFixedBufferPos s <= E -> Forall (fun f => BufferLength f = E) new) /\
     (forall f, hd_error new = Some f ->
        BufferLength f = E \/ BufferLength f = fFixedBufferPos s)).
Proof.
  intros Hr Hm HE E pos0 k.
  pose proof (reachable_inv s Hr) as Hinv.
  destruct (reachable_fill_ok s Hr) as [Hsize [Hpos _]].
  assert (Hfs : 0 <= pos0 /\ (pos0 = fFixedBufferPos s \/ pos0 = 0)).
  { subst pos0. unfold fill_start. destruct (_ =? _); lia. }
  split; [exact Hsize|]. split; [|split].
  3:{ destruct (Write_fixed_run pkts s Hinv) as (new & Hnew & Htl & Hhd);
        [rewrite Hm; discriminate | exact HE | exact Hpos |].
      exists new. split; [exact Hnew|]. split; [exact Htl|]. split.
      - intros Hle. destruct new as [|f rest]; [constructor|].
        constructor; [|exact Htl].
        destruct (Hhd f eq_refl) as [H | [H _]]; [exact H | fold E in H; lia].
      - intros f Hf. destruct (Hhd f Hf) as [H | [_ H]]; auto. }
  2:{ intros Hle.
      destruct (Write_fixed_step buf s m Hinv Hm HE Hpos) as (_ & _ & _ & _ & _ & Hstep).
      fold E in Hstep.
      destruct (yuy2_publishes buf s); [destruct Hstep as [_ ->]; subst E; lia|].
      destruct Hstep as [_ [-> | H]]; [exact Hle | exact H]. }
  - destruct (Write_fixed_step buf s m Hinv Hm HE Hpos) as (_ & _ & _ & _ & _ & Hstep).
    destruct (yuy2_publishes buf s) eqn:Hp; [|apply Hstep].
    destruct Hstep as [Hf Hp0].
    exists (published_frame buf s m). split; [exact Hf|]. split; [exact Hp0|].
    unfold yuy2_publishes in Hp. rewrite !andb_true_iff in Hp.
    destruct Hp as [[[_ Hn] _] _]. zb.
    unfold published_frame. fold E pos0 k.
    destruct (pos0 <=? E) eqn:Hle; zb.
    + split; [lia|]. split; [subst k; unfold stored_size; fold pos0 E; lia|].
      split; [subst k; unfold stored_size; fold pos0 E; lia|].
      split; [apply published_frame_length; lia|].
      intros i Hi. rewrite io_write_empty.
      rewrite mem_read_nth by lia. rewrite Z.add_0_l, Z2Nat.id by lia. reflexivity.
    + split; [lia|]. split; [apply published_frame_length; lia|].
      intros i Hi. rewrite io_write_empty.
      rewrite mem_read_nth by lia. now rewrite Z.add_0_l, Z2Nat.id by lia.
Qed.

(** Scenario S1 of the specification: expected size 16, three packets with
    6, 6 and 2 payload bytes, the last with EOF. *)
Definition S1_P1 : list Z := [2; 1; 0; 128; 0; 128; 0; 128].
Definition S1_P2 : list Z := [2; 1; 0; 128; 0; 128; 0; 128].
Definition S1_P3 : list Z := [2; 3; 0; 128].
Definition S1_buffer : mem := fun _ => 0.
Definition S1_start : UVCDeframer :=
  SetExpectedFrameSize 16 (UVCDeframer_new (Some S1_buffer)).

Lemma yuy2_fixed_size_assembly_witness :
  fFrames (base (snd (Write S1_P1 S1_start))) = fFrames (base S1_start) /\
  exists new,
    fFrames (base (write_all [S1_P1; S1_P2; S1_P3] S1_start))
    = fFrames (base S1_start) ++ new /\
    Forall (fun f => BufferLength f = 16) new.
Proof.
  destruct (yuy2_fixed_size_assembly S1_start S1_buffer S1_P1 [S1_P1; S1_P2; S1_P3])
    as (_ & H1 & _ & new & Hnew & _ & Hall & _).
  - exact (reach_step (OpSetExpectedFrameSize 16) _ (reach_new (Some S1_buffer))).
  - reflexivity.
  - vm_compute. split; [reflexivity | discriminate].
  - split; [exact H1|]. exists new. split; [exact Hnew|].
    apply Hall. vm_compute. discriminate.
Defined.

(** C1, the claim as stated fails.  After P1 and P2 of scenario S1 a
    header-only packet with the EOF bit set is well-formed and arrives in
    fixed-size mode, yet no frame is queued (the early return for
    header-only packets comes before the EOF test).  When the expected
    size is lowered to 8 after P1 and P2 have filled 12 bytes, P3 queues a
    frame of 12 bytes.  And on a deframer whose fixed buffer could not be
    allocated, P3 queues an empty frame. *)
Lemma yuy2_fixed_size_claim_fails :
  (let s := write_all [S1_P1; S1_P2] S1_start in
   header_invalid [2; 3] = false /\ eof_bit [2; 3] = true /\
   fExpectedFrameSize s = 16 /\ fFixedBufferPos s = 12 /\
   fFrames (base s) = [] /\
   fFrames (base (snd (Write [2; 3] s))) = []) /\
  (let s := SetExpectedFrameSize 8 (write_all [S1_P1; S1_P2] S1_start) in
   header_invalid S1_P3 = false /\ eof_bit S1_P3 = true /\
   fExpectedFrameSize s = 8 /\ fFixedBufferPos s = 12 /\
   fFrames (base s) = [] /\
   map BufferLength (fFrames (base (snd (Write S1_P3 s)))) = [12]) /\
  (let s := SetExpectedFrameSize 16 (UVCDeframer_new None) in
   fExpectedFrameSize s = 16 /\ fFixedBuffer s = None /\
   fFrames (base s) = [] /\
   map BufferLength (fFrames (base (snd (Write S1_P3 s)))) = [0]).
Proof. vm_compute. repeat split; reflexivity. Qed.

End Deframer.

(** * The isochronous transfer pump ([CamDevice::DataPumpThread]) *)

Module Pump.

(** [usb_iso_packet_descriptor] as filled in by the transport. *)
Record usb_iso_packet_descriptor := mkDesc {
  request_length : Z;
  actual_length : Z;
  status : Z
}.

(** The members of [CamDevice] the isochronous branch uses.  The two
    counters are [uint32]. *)
Record CamDevice := mkDev {
  fIsoMaxPacketSize : Z;
  fBuffer : mem;
  fBufferLen : Z;
  fPacketSuccessCount : Z;
  fPacketErrorCount : Z
}.

Definition kMaxPacketDescriptors : Z := 32.
Definition kMinPacketDescriptors : Z := 2.

(** Lines 887-895. *)
Definition packetSize (dev : CamDevice) : Z :=
  if 0 <? fIsoMaxPacketSize dev then fIsoMaxPacketSize dev else 256.

Definition numPacketDescriptors (dev : CamDevice) : Z :=
  let n := fBufferLen dev / packetSize dev in
  let n := if kMaxPacketDescriptors <? n then kMaxPacketDescriptors else n in
  if n <? kMinPacketDescriptors then kMinPacketDescriptors else n.

(** Line 1033. *)
Definition slotSize (dev : CamDevice) : Z :=
  fBufferLen dev / numPacketDescriptors dev.

Section Sink.

(** [fDataInput]: whatever receives the packets; the value its [Write]
    returns is not looked at by the pump. *)
Variable Sink : Type.
Variable sink_Write : list Z -> Sink -> Sink.

(** The body of the loop over the descriptors (lines 1055-1074) for
    descriptor [i]. *)
Definition process_packet (i : Z) (d : usb_iso_packet_descriptor)
    (st : CamDevice * Sink) : CamDevice * Sink :=
  let '(dev, sink) := st in
  let packetOffset := i * slotSize dev in
  if negb (status d =? B_OK) then
    (mkDev (fIsoMaxPacketSize dev) (fBuffer dev) (fBufferLen dev)
       (fPacketSuccessCount dev) (to_uint32 (fPacketErrorCount dev + 1)),
     sink)
  else
    if (0 <? actual_length d) && (packetOffset + actual_length d <=? fBufferLen dev)
    then
      (mkDev (fIsoMaxPacketSize dev) (fBuffer dev) (fBufferLen dev)
         (to_uint32 (fPacketSuccessCount dev + 1)) (fPacketErrorCount dev),
       sink_Write (mem_read (fBuffer dev) packetOffset (actual_length d)) sink)
    else (dev, sink).

(** [for (int i = 0; i < numPacketDescriptors; i++)], started at [i] with
    the descriptors from [i] on. *)
Fixpoint process_packets (i : Z) (ds : list usb_iso_packet_descriptor)
    (st : CamDevice * Sink) : CamDevice * Sink :=
  match ds with
  | [] => st
  | d :: rest => process_packets (i + 1) rest (process_packet i d st)
  end.

(** One completed transfer: the first [numPacketDescriptors] entries of the
    descriptor array are processed in order. *)
Definition process_transfer (descs : list usb_iso_packet_descriptor)
    (st : CamDevice * Sink) : CamDevice * Sink :=
  process_packets 0 (firstn (Z.to_nat (numPacketDescriptors (fst st))) descs) st.

(** Following the specification's words: the slices forwarded from a
    transfer are those of the descriptors with status OK and a positive
    length, descriptor [i] at offset [i * packet_size]. *)
Fixpoint spec_forwarded (packet_size : Z) (buffer : mem) (i : Z)
    (ds : list usb_iso_packet_descriptor) : list (list Z) :=
  match ds with
  | [] => []
  | d :: rest =>
      if (status d =? B_OK) && (0 <? actual_length d)
      then mem_read buffer (i * packet_size) (actual_length d)
           :: spec_forwarded packet_size buffer (i + 1) rest
      else spec_forwarded packet_size buffer (i + 1) rest
  end.

Definition count_ok (ds : list usb_iso_packet_descriptor) : Z :=
  Z.of_nat (length (filter (fun d => (status d =? B_OK) && (0 <? actual_length d)) ds)).
Definition count_failed (ds : list usb_iso_packet_descriptor) : Z :=
  Z.of_nat (length (filter (fun d => negb (status d =? B_OK)) ds)).

Definition write_each (pkts : list (list Z)) (sink : Sink) : Sink :=
  fold_left (fun s p => sink_Write p s) pkts sink.

Lemma to_uint32_succ c k : to_uint32 (to_uint32 (c + k) + 1) = to_uint32 (c + (k + 1)).
Proof.
  unfold to_uint32, uint32_mod.
  rewrite Zplus_mod_idemp_l. f_equal. lia.
Qed.

Lemma sized_buffer dev :
  0 < fIsoMaxPacketSize dev ->
  fBufferLen dev = fIsoMaxPacketSize dev * 32 ->
  packetSize dev = fIsoMaxPacketSize dev /\
  numPacketDescriptors dev = 32 /\
  slotSize dev = fIsoMaxPacketSize dev.
Proof.
  intros Hp Hlen.
  assert (H1 : packetSize dev = fIsoMaxPacketSize dev).
  { unfold packetSize. apply Z.ltb_lt in Hp. now rewrite Hp. }
  assert (H2 : numPacketDescriptors dev = 32).
  { unfold numPacketDescriptors. rewrite H1, Hlen.
    rewrite (Z.mul_comm (fIsoMaxPacketSize dev) 32), Z.div_mul by lia. reflexivity. }
  split; [exact H1|]. split; [exact H2|].
  unfold slotSize. rewrite H2, Hlen. apply Z.div_mul. lia.
Qed.

Lemma process_packets_spec p buffer len ds : forall i succ err sink k1 k2,
  0 < p -> len = p * 32 ->
  0 <= i -> i + Z.of_nat (length ds) <= 32 ->
  Forall (fun d => actual_length d <= p) ds ->
  process_packets i ds
    (mkDev p buffer len (to_uint32 (succ + k1)) (to_uint32 (err + k2)), sink)
  = (mkDev p buffer len (to_uint32 (succ + (k1 + count_ok ds)))
       (to_uint32 (err + (k2 + count_failed ds))),
     write_each (spec_forwarded p buffer i ds) sink).
Proof.
  induction ds as [|d rest IH]; intros i succ err sink k1 k2 Hp Hlen Hi Hn Hall.
  - cbn. now rewrite !Z.add_0_r.
  - inversion Hall as [|? ? Hd Hrest]; subst.
    cbn [length] in Hn.
    cbn [process_packets process_packet].
    assert (Hslot : slotSize (mkDev p buffer (p * 32) (to_uint32 (succ + k1))
                                (to_uint32 (err + k2))) = p).
    { apply sized_buffer; cbn; lia. }
    rewrite Hslot. cbn [fBufferLen fIsoMaxPacketSize fBuffer fPacketSuccessCount
                        fPacketErrorCount].
    unfold count_ok, count_failed. cbn [filter spec_forwarded].
    destruct (status d =? B_OK) eqn:Hs; cbn [negb andb].
    + destruct (0 <? actual_length d) eqn:Ha.
      * apply Z.ltb_lt in Ha.
        replace (i * p + actual_length d <=? p * 32) with true
          by (symmetry; apply Z.leb_le; nia).
        cbn [andb]. rewrite to_uint32_succ.
        rewrite IH by (auto; lia). cbn [length write_each fold_left].
        unfold count_ok, count_failed.
        f_equal. f_equal; apply (f_equal to_uint32); lia.
      * cbn [andb]. rewrite IH by (auto; lia).
        unfold count_ok, count_failed. reflexivity.
    + rewrite to_uint32_succ. rewrite IH by (auto; lia).
      cbn [length]. unfold count_ok, count_failed.
      f_equal. f_equal; apply (f_equal to_uint32); lia.
Qed.

(** C4.  With the pump buffer sized as [_SelectBestAlternate] leaves it
    (32 slots of [fIsoMaxPacketSize] bytes) and every descriptor's
    [actual_length] within the requested packet size, one completed
    transfer processes descriptors 0..31; descriptor [i] with status OK and
    a positive length is forwarded as one write of the bytes at offset
    [i * packet_size], in order, and counted in [fPacketSuccessCount];
    every descriptor with another status is counted in
    [fPacketErrorCount] and not forwarded.  (Counters wrap as [uint32].) *)
Theorem process_transfer_fixed_slots dev sink descs :
  0 < fIsoMaxPacketSize dev ->
  fBufferLen dev = fIsoMaxPacketSize dev * 32 ->
  length descs = 32%nat ->
  Forall (fun d => actual_length d <= packetSize dev) descs ->
  0 <= fPacketSuccessCount dev < uint32_mod ->
  0 <= fPacketErrorCount dev < uint32_mod ->
  numPacketDescriptors dev = 32 /\
  slotSize dev = packetSize dev /\
  snd (process_transfer descs (dev, sink))
  = write_each (spec_forwarded (packetSize dev) (fBuffer dev) 0 descs) sink /\
  fPacketSuccessCount (fst (process_transfer descs (dev, sink)))
  = to_uint32 (fPacketSuccessCount dev + count_ok descs) /\
  fPacketErrorCount (fst (process_transfer descs (dev, sink)))
  = to_uint32 (fPacketErrorCount dev + count_failed descs).
Proof.
  intros Hp Hlen Hd Hall Hs He.
  destruct (sized_buffer dev Hp Hlen) as (H1 & H2 & H3).
  rewrite H1 in *. split; [exact H2|]. split; [exact H3|].
  unfold process_transfer. cbn [fst]. rewrite H2.
  rewrite firstn_all2 by (rewrite Hd; cbn; lia).
  destruct dev as [p buffer len succ err]. cbn [fIsoMaxPacketSize fBufferLen
    fBuffer fPacketSuccessCount fPacketErrorCount] in *.
  pose proof (process_packets_spec p buffer len descs 0 succ err sink 0 0) as HP.
  rewrite !Z.add_0_r, !Z.add_0_l in HP.
  unfold to_uint32 in HP at 1 2. rewrite !Z.mod_small in HP by assumption.
  rewrite HP; [| lia | lia | lia | rewrite Hd; cbn; lia | exact Hall].
  cbn [fst snd fPacketSuccessCount fPacketErrorCount]. auto.
Qed.

End Sink.

(** A transfer into a 32 x 4 byte buffer; the sink records what it is
    handed.  Descriptor 0 carries 2 bytes, descriptor 1 failed, descriptor 2
    carries 4 bytes, the rest are empty. *)
Definition demo_buffer : mem := fun i => i.
Definition demo_dev : CamDevice := mkDev 4 demo_buffer 128 0 0.
Definition demo_descs : list usb_iso_packet_descriptor :=
  mkDesc 4 2 B_OK :: mkDesc 4 0 B_ERROR :: mkDesc 4 4 B_OK
  :: repeat (mkDesc 4 0 B_OK) 29.
Definition record_Write (p : list Z) (log : list (list Z)) : list (list Z) :=
  log ++ [p].

Lemma process_transfer_fixed_slots_witness :
  snd (process_transfer _ record_Write demo_descs (demo_dev, []))
  = write_each _ record_Write
      (spec_forwarded (packetSize demo_dev) (fBuffer demo_dev) 0 demo_descs) [] /\
  fPacketSuccessCount (fst (process_transfer _ record_Write demo_descs (demo_dev, [])))
  = to_uint32 (0 + count_ok demo_descs) /\
  fPacketErrorCount (fst (process_transfer _ record_Write demo_descs (demo_dev, [])))
  = to_uint32 (0 + count_failed demo_descs).
Proof.
  assert (Hall : Forall (fun d => actual_length d <= packetSize demo_dev) demo_descs).
  { apply Forall_forall. intros d Hd.
    repeat (destruct Hd as [<- | Hd]; [vm_compute; discriminate|]).
    contradiction. }
  pose proof (process_transfer_fixed_slots _ record_Write demo_dev [] demo_descs) as H.
  destruct H as (_ & _ & H3 & H4 & H5);
    [reflexivity | reflexivity | reflexivity | exact Hall
     | vm_compute; split; [discriminate | reflexivity]
     | vm_compute; split; [discriminate | reflexivity] |].
  split; [exact H3 | split; [exact H4 | exact H5]].
Defined.

End Pump.

(** * Format negotiation and alternate selection ([UVCCamDevice]) *)

Module Negotiator.

(** Modelled from the spec: the probe/commit control block
    [usb_video_probe_and_commit_controls], whose declaration lives in the
    platform's USB video header; the fields are those of the UVC 1.0/1.1
    layout the specification lists, with [hint_frame_interval] the
    [_hint.frame_interval] bit. *)
Record usb_video_probe_and_commit_controls := mkProbe {
  hint_frame_interval : Z;
  format_index : Z;
  frame_index : Z;
  frame_interval : Z;
  key_frame_rate : Z;
  p_frame_rate : Z;
  comp_quality : Z;
  comp_window_size : Z;
  delay : Z;
  max_video_frame_size : Z;
  max_payload_transfer_size : Z;
  clock_frequency : Z;
  framing_info : Z;
  prefered_version : Z;
  min_version : Z;
  max_version : Z
}.

(** [memset(&block, 0, sizeof(block))]. *)
Definition zero_block : usb_video_probe_and_commit_controls :=
  mkProbe 0 0 0 0 0 0 0 0 0 0 0 0 0 0 0 0.

(** Request constants (USB and UVC class definitions). *)
Definition USB_REQTYPE_CLASS : Z := 32.
Definition USB_REQTYPE_INTERFACE_OUT : Z := 1.
Definition USB_REQTYPE_INTERFACE_IN : Z := 129.
Definition USB_VIDEO_RC_SET_CUR : Z := 1.
Definition USB_VIDEO_RC_GET_CUR : Z := 129.
Definition USB_VIDEO_VS_PROBE_CONTROL : Z := 1.
Definition USB_VIDEO_VS_COMMIT_CONTROL : Z := 2.

(** The arguments of one [BUSBDevice::ControlTransfer] call. *)
Record control_request := mkReq {
  bmRequestType : Z;
  bRequest : Z;
  wValue : Z;
  wIndex : Z;
  wLength : Z
}.

(** The members of [UVCCamDevice] that negotiation reads and writes.
    [header_version] is [fHeaderDescriptor->version]; [fIsoIn] is the
    selected endpoint's raw [wMaxPacketSize] when one is selected;
    [fBuffer] is [None] for [NULL]. *)
Record UVCCamDevice := mkCam {
  fIsMJPEG : bool;
  fMJPEGFormatIndex : Z;
  fMJPEGFrameIndex : Z;
  fUncompressedFormatIndex : Z;
  fUncompressedFrameIndex : Z;
  fStreamingIndex : Z;
  header_version : Z;
  fMaxVideoFrameSize : Z;
  fMaxPayloadTransferSize : Z;
  fCurrentVideoAlternate : Z;
  fIsoIn : option Z;
  fIsoMaxPacketSize : Z;
  fBuffer : option mem;
  fBufferLen : Z;
  fHighBandwidthTested : bool;
  fHighBandwidthWorks : bool;
  fUsingHighBandwidth : bool
}.

Definition set_negotiated (vfs pts : Z) (c : UVCCamDevice) : UVCCamDevice :=
  mkCam (fIsMJPEG c) (fMJPEGFormatIndex c) (fMJPEGFrameIndex c)
    (fUncompressedFormatIndex c) (fUncompressedFrameIndex c) (fStreamingIndex c)
    (header_version c) vfs pts (fCurrentVideoAlternate c) (fIsoIn c)
    (fIsoMaxPacketSize c) (fBuffer c) (fBufferLen c) (fHighBandwidthTested c)
    (fHighBandwidthWorks c) (fUsingHighBandwidth c).

Section ProbeCommit.

(** The device behind [fDevice]: host-to-device transfers return the number
    of bytes moved (or a negative error) and change the device; device-to-
    host transfers also fill the caller's block. *)
Variable Device : Type.
Variable ControlTransfer_out :
  control_request -> usb_video_probe_and_commit_controls -> Device -> Z * Device.
Variable ControlTransfer_in :
  control_request -> usb_video_probe_and_commit_controls -> Device ->
  Z * usb_video_probe_and_commit_controls * Device.

(** Lines 1295-1358: the request block and the control-block length.
    [frameInterval] is the interval lines 1299-1347 arrive at (their
    bandwidth adaptation computes in [float] and is not modelled). *)
Definition probe_request (frameInterval : Z) (c : UVCCamDevice)
  : usb_video_probe_and_commit_controls :=
  mkProbe 1
    (if fIsMJPEG c then fMJPEGFormatIndex c else fUncompressedFormatIndex c)
    (if fIsMJPEG c then fMJPEGFrameIndex c else fUncompressedFrameIndex c)
    frameInterval 0 0 0 0 0 0 0 0 0 0 0 0.

Definition control_length (c : UVCCamDevice) : Z :=
  if 256 <? header_version c then 34 else 26.

Definition probe_set_cur (c : UVCCamDevice) : control_request :=
  mkReq (Z.lor USB_REQTYPE_CLASS USB_REQTYPE_INTERFACE_OUT) USB_VIDEO_RC_SET_CUR
    (Z.shiftl USB_VIDEO_VS_PROBE_CONTROL 8) (fStreamingIndex c) (control_length c).
Definition probe_get_cur (c : UVCCamDevice) : control_request :=
  mkReq (Z.lor USB_REQTYPE_CLASS USB_REQTYPE_INTERFACE_IN) USB_VIDEO_RC_GET_CUR
    (Z.shiftl USB_VIDEO_VS_PROBE_CONTROL 8) (fStreamingIndex c) (control_length c).
Definition commit_set_cur (c : UVCCamDevice) : control_request :=
  mkReq (Z.lor USB_REQTYPE_CLASS USB_REQTYPE_INTERFACE_OUT) USB_VIDEO_RC_SET_CUR
    (Z.shiftl USB_VIDEO_VS_COMMIT_CONTROL 8) (fStreamingIndex c) (control_length c).

(** [UVCCamDevice::_ProbeCommitFormat], lines 1366-1420.  The result of each
    transfer lands in a [size_t] before it is compared with the length. *)
Definition _ProbeCommitFormat (frameInterval : Z) (c : UVCCamDevice)
    (fDevice : option Device) : Z * UVCCamDevice * option Device :=
  match fDevice with
  | None => (B_ERROR, c, None)
  | Some d =>
      let request := probe_request frameInterval c in
      let length := control_length c in
      let '(r1, d) := ControlTransfer_out (probe_set_cur c) request d in
      if negb (to_size_t r1 =? length) then (B_ERROR, c, Some d)
      else
        let '(r2, response, d) := ControlTransfer_in (probe_get_cur c) zero_block d in
        let '(r3, d) := ControlTransfer_out (commit_set_cur c) response d in
        if negb (to_size_t r3 =? length) then (B_ERROR, c, Some d)
        else
          (B_OK,
           set_negotiated (max_video_frame_size response)
             (max_payload_transfer_size response) c,
           Some d)
  end.

(** C3 (as amended).  With [d1] the device after the probe SET_CUR,
    [response] the block the device's GET_CUR fills in and [d2] the device
    after it:
    - a probe SET_CUR that does not transfer exactly the control-block
      length gives [B_ERROR] and nothing more is sent;
    - otherwise the last thing sent is the commit SET_CUR on
      VS_COMMIT_CONTROL carrying [response] (not the request), and the
      result is [B_ERROR] when that transfer does not move exactly the
      control-block length and [B_OK] when it does, whatever
      [max_video_frame_size] and [max_payload_transfer_size] the response
      holds, zero included; on [B_OK] both are stored. *)
Theorem probe_commit_uses_response frameInterval c d :
  let len := control_length c in
  let out1 := ControlTransfer_out (probe_set_cur c) (probe_request frameInterval c) d in
  let in2 := ControlTransfer_in (probe_get_cur c) zero_block (snd out1) in
  let response := snd (fst in2) in
  let out3 := ControlTransfer_out (commit_set_cur c) response (snd in2) in
  let res := _ProbeCommitFormat frameInterval c (Some d) in
  wValue (commit_set_cur c) = 512 /\
  (to_size_t (fst out1) <> len ->
   res = (B_ERROR, c, Some (snd out1))) /\
  (to_size_t (fst out1) = len ->
   snd res = Some (snd out3) /\
   (to_size_t (fst out3) <> len -> fst res = (B_ERROR, c)) /\
   (to_size_t (fst out3) = len ->
    fst (fst res) = B_OK /\
    fMaxVideoFrameSize (snd (fst res)) = max_video_frame_size response /\
    fMaxPayloadTransferSize (snd (fst res)) = max_payload_transfer_size response)).
Proof.
  cbv zeta. unfold _ProbeCommitFormat.
  destruct (ControlTransfer_out (probe_set_cur c) (probe_request frameInterval c) d)
    as [r1 d1] eqn:E1. cbn [fst snd].
  destruct (ControlTransfer_in (probe_get_cur c) zero_block d1)
    as [[r2 response] d2] eqn:E2. cbn [fst snd].
  destruct (ControlTransfer_out (commit_set_cur c) response d2) as [r3 d3] eqn:E3.
  cbn [fst snd].
  split; [reflexivity|]. split.
  - intros H. apply Z.eqb_neq in H. now rewrite H.
  - intros H. apply Z.eqb_eq in H. rewrite H. cbn [negb].
    split; [destruct (to_size_t r3 =? control_length c); reflexivity|]. split.
    + intros H3. apply Z.eqb_neq in H3. now rewrite H3.
    + intros H3. apply Z.eqb_eq in H3. rewrite H3. cbn. auto.
Qed.

End ProbeCommit.

(** A device that accepts every transfer in full, records what it is sent,
    and answers the probe with the request's indices but both maximum sizes
    zero. *)
Definition log_device := list (control_request * usb_video_probe_and_commit_controls).
Definition log_out (r : control_request) (b : usb_video_probe_and_commit_controls)
    (d : log_device) : Z * log_device := (wLength r, d ++ [(r, b)]).
Definition zero_size_answer : usb_video_probe_and_commit_controls :=
  mkProbe 1 1 3 333333 0 0 0 0 0 0 0 0 0 0 0 0.
Definition log_in (r : control_request) (b : usb_video_probe_and_commit_controls)
    (d : log_device) : Z * usb_video_probe_and_commit_controls * log_device :=
  (wLength r, zero_size_answer, d).
Definition demo_cam : UVCCamDevice :=
  mkCam false 2 1 1 1 1 256 0 0 0 None 0 None 0 false true false.

Lemma probe_commit_uses_response_witness :
  snd (_ProbeCommitFormat _ log_out log_in 333333 demo_cam (Some []))
  = Some [(probe_set_cur demo_cam, probe_request 333333 demo_cam);
          (commit_set_cur demo_cam, zero_size_answer)] /\
  fst (fst (_ProbeCommitFormat _ log_out log_in 333333 demo_cam (Some []))) = B_OK.
Proof.
  pose proof (probe_commit_uses_response _ log_out log_in 333333 demo_cam [])
    as (_ & _ & H).
  destruct (H eq_refl) as (H1 & _ & H2).
  split; [exact H1 | exact (proj1 (H2 eq_refl))].
Defined.

(** C3, the claim as stated fails: the device above zeroes both maximum
    sizes in its probe response, every transfer is complete, and
    [_ProbeCommitFormat] returns [B_OK] with the zeros stored. *)
Lemma probe_commit_zero_sizes_accepted :
  max_video_frame_size zero_size_answer = 0 /\
  max_payload_transfer_size zero_size_answer = 0 /\
  fst (_ProbeCommitFormat _ log_out log_in 333333 demo_cam (Some []))
  = (B_OK, set_negotiated 0 0 demo_cam).
Proof. vm_compute. repeat split; reflexivity. Qed.

(** *** Alternate selection *)

(** What the USB stack reports for one endpoint. *)
Record BUSBEndpoint := mkEp {
  IsIsochronous : bool;
  IsInput : bool;
  MaxPacketSize : Z
}.

(** The decoding of [wMaxPacketSize] at lines 1518-1521. *)
Definition basePacketSize (ep : BUSBEndpoint) : Z := Z.land (MaxPacketSize ep) 2047.
Definition transactions (ep : BUSBEndpoint) : Z :=
  Z.land (Z.shiftr (MaxPacketSize ep) 11) 3 + 1.
Definition maxPacketSize (ep : BUSBEndpoint) : Z :=
  to_uint32 (basePacketSize ep * transactions ep).

Import Stdlib.Strings.String.

(** [strcmp(v, "1") == 0 || strcmp(v, "yes") == 0] on a [getenv] result. *)
Definition env_set (v : option string) : bool :=
  match v with
  | Some x => String.eqb x "1"%string || String.eqb x "yes"%string
  | None => false
  end.

(** [UVCCamDevice::_ShouldUseHighBandwidth]; the two arguments are
    [getenv("WEBCAM_DISABLE_HIGH_BANDWIDTH")] and
    [getenv("WEBCAM_FORCE_HIGH_BANDWIDTH")]. *)
Definition _ShouldUseHighBandwidth (disableHighBW forceHighBW : option string)
    (c : UVCCamDevice) : bool :=
  if env_set disableHighBW then false
  else if env_set forceHighBW then true
  else if fHighBandwidthTested c && negb (fHighBandwidthWorks c) then false
  else true.

(** The loop state: [bestBandwidth], [alternateIndex], [endpointIndex]. *)
Definition best := (Z * nat * nat)%type.

(** The body of the inner loop (lines 1512-1563) for endpoint [j] of
    alternate [i]. *)
Definition scan_endpoint (allowHighBandwidth : bool) (i j : nat)
    (ep : BUSBEndpoint) (acc : best) : best :=
  let '(bestBandwidth, _, _) := acc in
  if negb (IsIsochronous ep) || negb (IsInput ep) then acc
  else if (1 <? transactions ep) && negb allowHighBandwidth then acc
  else
    let effectiveBandwidth :=
      if (1 <? transactions ep) && allowHighBandwidth
      then maxPacketSize ep else basePacketSize ep in
    if bestBandwidth <? effectiveBandwidth
    then (effectiveBandwidth, i, j)
    else acc.

Fixpoint scan_endpoints (allow : bool) (i j : nat) (eps : list BUSBEndpoint)
    (acc : best) : best :=
  match eps with
  | [] => acc
  | ep :: rest => scan_endpoints allow i (S j) rest (scan_endpoint allow i j ep acc)
  end.

Fixpoint scan_alternates (allow : bool) (i : nat)
    (alts : list (list BUSBEndpoint)) (acc : best) : best :=
  match alts with
  | [] => acc
  | a :: rest => scan_alternates allow (S i) rest (scan_endpoints allow i 0 a acc)
  end.

Definition B_BAD_INDEX : Z := - 2147483648 + 3.

Definition set_selected (alt : Z) (iso : option Z) (size : Z) (buf : option mem)
    (len : Z) (hb : bool) (c : UVCCamDevice) : UVCCamDevice :=
  mkCam (fIsMJPEG c) (fMJPEGFormatIndex c) (fMJPEGFrameIndex c)
    (fUncompressedFormatIndex c) (fUncompressedFrameIndex c) (fStreamingIndex c)
    (header_version c) (fMaxVideoFrameSize c) (fMaxPayloadTransferSize c)
    alt iso size buf len (fHighBandwidthTested c) (fHighBandwidthWorks c) hb.

(** [UVCCamDevice::_SelectBestAlternate] for a non-NULL [fDevice].
    [streaming] is the list of alternates of the streaming interface, each
    with its endpoints ([None]: [InterfaceAt] returned NULL); [setAlternate]
    is what [SetAlternate] returns when it is called; [malloc_result] is
    what [malloc] returns when the buffer is reallocated.  After the
    alternate is set the stack is taken to expose that alternate's
    endpoints.  [requiredBandwidth] (lines 1491-1497) is computed and
    logged only. *)
Definition _SelectBestAlternate (disableHighBW forceHighBW : option string)
    (streaming : option (list (list BUSBEndpoint))) (setAlternate : Z)
    (malloc_result : option mem) (c : UVCCamDevice) : Z * UVCCamDevice :=
  match streaming with
  | None => (B_BAD_INDEX, c)
  | Some alternates =>
      let requiredBandwidth :=
        if 0 <? fMaxPayloadTransferSize c then fMaxPayloadTransferSize c else 0 in
      let allow := _ShouldUseHighBandwidth disableHighBW forceHighBW c in
      let '(bestBandwidth, alternateIndex, endpointIndex) :=
        scan_alternates allow 0 alternates (0, 0%nat, 0%nat) in
      if bestBandwidth =? 0 then (B_ERROR, c)
      else
        let change := negb (fCurrentVideoAlternate c =? Z.of_nat alternateIndex) in
        if change && negb (setAlternate =? B_OK) then (B_ERROR, c)
        else
          let iso :=
            option_map MaxPacketSize
              (nth_error (nth alternateIndex alternates []) endpointIndex) in
          let requiredBufferSize := to_uint32 (bestBandwidth * 32) in
          let realloc :=
            negb (requiredBufferSize =? fBufferLen c)
            || match fBuffer c with None => true | Some _ => false end in
          let hb :=
            match iso with
            | Some raw => 1 <? Z.land (Z.shiftr raw 11) 3 + 1
            | None => fUsingHighBandwidth c
            end in
          if realloc then
            match malloc_result with
            | None =>
                (B_NO_MEMORY,
                 set_selected (Z.of_nat alternateIndex) iso bestBandwidth None
                   (fBufferLen c) (fUsingHighBandwidth c) c)
            | Some m =>
                (B_OK,
                 set_selected (Z.of_nat alternateIndex) iso bestBandwidth (Some m)
                   requiredBufferSize hb c)
            end
          else
            (B_OK,
             set_selected (Z.of_nat alternateIndex) iso bestBandwidth (fBuffer c)
               (fBufferLen c) hb c)
  end.

(** An endpoint the scan considers: isochronous, input, and not a
    high-bandwidth endpoint while high bandwidth is not allowed. *)
Definition usable (allow : bool) (ep : BUSBEndpoint) : bool :=
  IsIsochronous ep && IsInput ep && (negb (1 <? transactions ep) || allow).

(** Its bandwidth per microframe. *)
Definition effective (ep : BUSBEndpoint) : Z := basePacketSize ep * transactions ep.

Lemma decode_wMaxPacketSize ep :
  basePacketSize ep = MaxPacketSize ep mod 2 ^ 11 /\
  transactions ep = (MaxPacketSize ep / 2 ^ 11) mod 2 ^ 2 + 1 /\
  0 <= basePacketSize ep < 2048 /\ 1 <= transactions ep <= 4.
Proof.
  assert (H1 : basePacketSize ep = MaxPacketSize ep mod 2 ^ 11).
  { unfold basePacketSize. change 2047 with (Z.ones 11). apply Z.land_ones. lia. }
  assert (H2 : transactions ep = (MaxPacketSize ep / 2 ^ 11) mod 2 ^ 2 + 1).
  { unfold transactions. change 3 with (Z.ones 2).
    rewrite Z.land_ones by lia. now rewrite Z.shiftr_div_pow2 by lia. }
  split; [exact H1|]. split; [exact H2|]. rewrite H1, H2.
  pose proof (Z.mod_pos_bound (MaxPacketSize ep) (2 ^ 11) eq_refl).
  pose proof (Z.mod_pos_bound (MaxPacketSize ep / 2 ^ 11) (2 ^ 2) eq_refl).
  change (2 ^ 11) with 2048 in *. change (2 ^ 2) with 4 in *. lia.
Qed.

Lemma maxPacketSize_exact ep : maxPacketSize ep = effective ep.
Proof.
  destruct (decode_wMaxPacketSize ep) as (_ & _ & Hb & Ht).
  unfold maxPacketSize, effective, to_uint32, uint32_mod.
  apply Z.mod_small. change (2 ^ 32) with 4294967296. nia.
Qed.

Lemma scan_endpoint_eq allow i j ep acc :
  scan_endpoint allow i j ep acc =
  if usable allow ep && (fst (fst acc) <? effective ep)
  then (effective ep, i, j) else acc.
Proof.
  destruct acc as [[b ai] ei]. unfold scan_endpoint, usable. cbn [fst].
  destruct (decode_wMaxPacketSize ep) as (_ & _ & Hb & Ht).
  rewrite maxPacketSize_exact.
  destruct (IsIsochronous ep), (IsInput ep); cbn [negb orb andb]; try reflexivity.
  destruct (1 <? transactions ep) eqn:T, allow; cbn [negb orb andb]; try reflexivity.
  apply Z.ltb_ge in T. assert (transactions ep = 1) by lia.
  unfold effective. replace (basePacketSize ep * transactions ep)
    with (basePacketSize ep) by nia. reflexivity.
  apply Z.ltb_ge in T. assert (transactions ep = 1) by lia.
  unfold effective. replace (basePacketSize ep * transactions ep)
    with (basePacketSize ep) by nia. reflexivity.
Qed.

Lemma scan_endpoints_spec allow i eps : forall j acc,
  let res := scan_endpoints allow i j eps acc in
  fst (fst acc) <= fst (fst res) /\
  (forall k ep, nth_error eps k = Some ep -> usable allow ep = true ->
     effective ep <= fst (fst res)) /\
  (res = acc \/
   exists k ep, nth_error eps k = Some ep /\ usable allow ep = true /\
     res = (effective ep, i, (j + k)%nat) /\ fst (fst acc) < effective ep).
Proof.
  induction eps as [|e rest IH]; intros j acc; cbn [scan_endpoints].
  - split; [lia|]. split; [|now left]. intros [|k] ep H; discriminate H.
  - destruct (IH (S j) (scan_endpoint allow i j e acc)) as (U & V & W).
    rewrite scan_endpoint_eq in U, V, W |- *.
    set (res := scan_endpoints allow i (S j) rest _) in *.
    destruct (usable allow e) eqn:Hu; cbn [andb] in *.
    + destruct (fst (fst acc) <? effective e) eqn:Hlt;
        [apply Z.ltb_lt in Hlt | apply Z.ltb_ge in Hlt]; cbn [fst] in U.
      * split; [lia|]. split.
        -- intros [|k] ep H Hep; [injection H as <-; lia | now apply (V k)].
        -- right. destruct W as [W | (k & ep & W1 & W2 & W3 & W4)].
           ++ exists 0%nat, e. rewrite W, Nat.add_0_r. auto.
           ++ exists (S k), ep. cbn [fst] in W4.
              rewrite W3, <- plus_n_Sm. repeat split; auto. lia.
      * split; [lia|]. split.
        -- intros [|k] ep H Hep; [injection H as <-; lia | now apply (V k)].
        -- destruct W as [W | (k & ep & W1 & W2 & W3 & W4)]; [now left|].
           right. exists (S k), ep. rewrite W3, <- plus_n_Sm. auto.
    + split; [lia|]. split.
      * intros [|k] ep H Hep; [injection H as <-; congruence | now apply (V k)].
      * destruct W as [W | (k & ep & W1 & W2 & W3 & W4)]; [now left|].
        right. exists (S k), ep. rewrite W3, <- plus_n_Sm. auto.
Qed.

Lemma scan_alternates_spec allow alts : forall i acc,
  let res := scan_alternates allow i alts acc in
  fst (fst acc) <= fst (fst res) /\
  (forall ia a k ep, nth_error alts ia = Some a -> nth_error a k = Some ep ->
     usable allow ep = true -> effective ep <= fst (fst res)) /\
  (res = acc \/
   exists ia a k ep, nth_error alts ia = Some a /\ nth_error a k = Some ep /\
     usable allow ep = true /\ res = (effective ep, (i + ia)%nat, k) /\
     fst (fst acc) < effective ep).
Proof.
  induction alts as [|a rest IH]; intros i acc; cbn [scan_alternates].
  - split; [lia|]. split; [|now left]. intros [|ia] ? ? ? H; discriminate H.
  - destruct (scan_endpoints_spec allow i a 0 acc) as (U1 & V1 & W1).
    destruct (IH (S i) (scan_endpoints allow i 0 a acc)) as (U & V & W).
    set (mid := scan_endpoints allow i 0 a acc) in *.
    set (res := scan_alternates allow (S i) rest mid) in *.
    split; [lia|]. split.
    + intros [|ia] a' k ep Ha Hk Hu.
      * injection Ha as <-. specialize (V1 k ep Hk Hu). lia.
      * now apply (V ia a' k ep).
    + destruct W as [W | (ia & a' & k & ep & Wa & Wk & Wu & Wr & Wl)].
      * rewrite W. destruct W1 as [W1 | (k & ep & Wk & Wu & Wr & Wl)]; [now left|].
        right. exists 0%nat, a, k, ep. rewrite Wr, Nat.add_0_r. auto.
      * right. exists (S ia), a', k, ep. rewrite Wr, <- plus_n_Sm.
        repeat split; auto. lia.
Qed.

Definition set_fMaxPayloadTransferSize (v : Z) (c : UVCCamDevice) : UVCCamDevice :=
  set_negotiated (fMaxVideoFrameSize c) v c.

(** C7 (as amended).  When [_SelectBestAlternate] succeeds it has selected
    an isochronous input endpoint [ep] of some alternate, high-bandwidth
    only if high bandwidth is allowed, decoded as base size = bits 0-10 and
    transactions = bits 11-12 plus 1, whose bandwidth base x transactions is
    positive and is the maximum over all isochronous input endpoints that
    are not high-bandwidth endpoints skipped because high bandwidth is not
    allowed; that bandwidth is stored in [fIsoMaxPacketSize] and the pump
    buffer holds exactly 32 times as many bytes.  The required packet size
    from commit ([fMaxPayloadTransferSize]) plays no part in the choice. *)
Theorem select_best_alternate disableHighBW forceHighBW alternates setAlternate
    malloc_result c c' :
  _SelectBestAlternate disableHighBW forceHighBW (Some alternates) setAlternate
    malloc_result c = (B_OK, c') ->
  let allow := _ShouldUseHighBandwidth disableHighBW forceHighBW c in
  (exists i a j ep,
     nth_error alternates i = Some a /\ nth_error a j = Some ep /\
     IsIsochronous ep = true /\ IsInput ep = true /\
     (transactions ep = 1 \/ allow = true) /\
     basePacketSize ep = MaxPacketSize ep mod 2 ^ 11 /\
     transactions ep = (MaxPacketSize ep / 2 ^ 11) mod 2 ^ 2 + 1 /\
     fCurrentVideoAlternate c' = Z.of_nat i /\
     fIsoIn c' = Some (MaxPacketSize ep) /\
     fIsoMaxPacketSize c' = basePacketSize ep * transactions ep) /\
  0 < fIsoMaxPacketSize c' /\
  (forall i a j ep,
     nth_error alternates i = Some a -> nth_error a j = Some ep ->
     usable allow ep = true ->
     basePacketSize ep * transactions ep <= fIsoMaxPacketSize c') /\
  fBufferLen c' = fIsoMaxPacketSize c' * 32 /\
  fBuffer c' <> None /\
  (forall required,
     _SelectBestAlternate disableHighBW forceHighBW (Some alternates) setAlternate
       malloc_result (set_fMaxPayloadTransferSize required c)
     = (B_OK, set_fMaxPayloadTransferSize required c')).
Proof.
  intros Hsel allow.
  assert (Hreq : forall required,
     _SelectBestAlternate disableHighBW forceHighBW (Some alternates) setAlternate
       malloc_result (set_fMaxPayloadTransferSize required c)
     = (B_OK, set_fMaxPayloadTransferSize required c')).
  { intros required. revert Hsel. unfold _SelectBestAlternate.
    change (_ShouldUseHighBandwidth disableHighBW forceHighBW
              (set_fMaxPayloadTransferSize required c)) with allow.
    fold allow.
    destruct (scan_alternates allow 0 alternates (0, 0%nat, 0%nat)) as [[b ai] ei].
    cbn [set_fMaxPayloadTransferSize set_negotiated fCurrentVideoAlternate
         fBufferLen fBuffer fUsingHighBandwidth fMaxPayloadTransferSize].
    repeat match goal with
           | |- context [if ?x then _ else _] => destruct x
           | |- context [match ?x with _ => _ end] => destruct x
           end; intros H; try discriminate H; injection H as <-; reflexivity. }
  unfold _SelectBestAlternate in Hsel. fold allow in Hsel.
  destruct (scan_alternates_spec allow alternates 0 (0, 0%nat, 0%nat)) as (U & V & W).
  destruct (scan_alternates allow 0 alternates (0, 0%nat, 0%nat)) as [[b ai] ei] eqn:Hscan.
  cbn [fst] in U, V, W.
  destruct (b =? 0) eqn:Hb0; [discriminate Hsel|]. apply Z.eqb_neq in Hb0.
  destruct W as [W | (ia & a & k & ep & Wa & Wk & Wu & Wr & Wl)];
    [injection W as -> _ _; now destruct Hb0|].
  injection Wr as -> -> ->. cbn [Nat.add] in *.
  destruct (decode_wMaxPacketSize ep) as (D1 & D2 & D3 & D4).
  assert (Hfit : to_uint32 (effective ep * 32) = effective ep * 32).
  { unfold to_uint32, uint32_mod, effective. apply Z.mod_small.
    change (2 ^ 32) with 4294967296. nia. }
  assert (Hiso : option_map MaxPacketSize (nth_error (nth ia alternates []) k)
                 = Some (MaxPacketSize ep)).
  { erewrite nth_error_nth by exact Wa. now rewrite Wk. }
  rewrite Hiso, Hfit in Hsel.
  assert (Hus : IsIsochronous ep = true /\ IsInput ep = true /\
                (transactions ep = 1 \/ allow = true)).
  { unfold usable in Wu. rewrite !andb_true_iff, orb_true_iff in Wu.
    destruct Wu as [[? ?] [T | ?]]; auto.
    rewrite negb_true_iff in T. apply Z.ltb_ge in T. repeat split; auto. left. lia. }
  destruct Hus as (I1 & I2 & I3).
  destruct (negb (fCurrentVideoAlternate c =? Z.of_nat ia) && negb (setAlternate =? B_OK));
    [discriminate Hsel|].
  assert (Hres : fCurrentVideoAlternate c' = Z.of_nat ia /\
                 fIsoIn c' = Some (MaxPacketSize ep) /\
                 fIsoMaxPacketSize c' = effective ep /\
                 fBufferLen c' = effective ep * 32 /\ fBuffer c' <> None).
  { destruct (negb (effective ep * 32 =? fBufferLen c)) eqn:Hne; cbn [orb] in Hsel.
    - destruct malloc_result; [|discriminate Hsel].
      injection Hsel as <-. cbn. repeat split; auto. discriminate.
    - rewrite negb_false_iff in Hne. apply Z.eqb_eq in Hne.
      destruct (fBuffer c) eqn:Hbuf.
      + injection Hsel as <-. cbn. repeat split; auto. discriminate.
      + destruct malloc_result; [|discriminate Hsel].
        injection Hsel as <-. cbn. repeat split; auto. discriminate. }
  destruct Hres as (R1 & R2 & R3 & R4 & R5).
  split; [exists ia, a, k, ep; repeat split; auto|].
  rewrite R3. unfold effective in *.
  split; [lia|]. split; [exact V|]. split; [exact R4|]. split; [exact R5 | exact Hreq].
Qed.

(** Three alternates: none, one endpoint of 512 bytes, one high-bandwidth
    endpoint of 3 x 1024 bytes. *)
Definition demo_alternates : list (list BUSBEndpoint) :=
  [ []; [mkEp true true 512]; [mkEp false true 64; mkEp true true 5120] ].

Lemma select_best_alternate_witness :
  exists c',
    _SelectBestAlternate None None (Some demo_alternates) B_OK
      (Some (fun _ => 0)) demo_cam = (B_OK, c') /\
    fCurrentVideoAlternate c' = 2 /\
    fIsoMaxPacketSize c' = 3072 /\
    fBufferLen c' = fIsoMaxPacketSize c' * 32.
Proof.
  eexists. split; [vm_compute; reflexivity|].
  pose proof (select_best_alternate None None demo_alternates B_OK
                (Some (fun _ => 0)) demo_cam _ eq_refl) as (_ & _ & _ & H & _).
  split; [reflexivity|]. split; [reflexivity | exact H].
Defined.

(** C7, the claim as stated fails.  Commit asked for 1024 bytes per packet,
    the only endpoint offers 512, and the selection still succeeds with
    that endpoint.  With high bandwidth switched off by the environment, the
    endpoint of 3 x 1024 bytes is passed over, not counted with its base
    size of 1024: the endpoint of 512 bytes is selected.  And with no
    isochronous input endpoint at all nothing is selected and no buffer is
    allocated. *)
Lemma select_best_alternate_claim_fails :
  (let c := set_fMaxPayloadTransferSize 1024 demo_cam in
   let r := _SelectBestAlternate None None (Some [ []; [mkEp true true 512] ]) B_OK
              (Some (fun _ => 0)) c in
   fMaxPayloadTransferSize c = 1024 /\
   fst r = B_OK /\
   fCurrentVideoAlternate (snd r) = 1 /\
   fIsoMaxPacketSize (snd r) = 512 /\
   fIsoMaxPacketSize (snd r) < fMaxPayloadTransferSize c) /\
  (let r := _SelectBestAlternate (Some "1"%string) None (Some demo_alternates) B_OK
              (Some (fun _ => 0)) demo_cam in
   _ShouldUseHighBandwidth (Some "1"%string) None demo_cam = false /\
   basePacketSize (mkEp true true 5120) = 1024 /\
   transactions (mkEp true true 5120) = 3 /\
   fst r = B_OK /\
   fCurrentVideoAlternate (snd r) = 1 /\
   fIsoMaxPacketSize (snd r) = 512 /\
   fBufferLen (snd r) = 512 * 32) /\
  (let r := _SelectBestAlternate None None (Some [ []; [mkEp false true 512] ]) B_OK
              (Some (fun _ => 0)) demo_cam in
   fst r = B_ERROR /\ snd r = demo_cam /\ fBuffer (snd r) = None).
Proof. vm_compute. repeat split; reflexivity. Qed.

End Negotiator.

(** * YUY2 to BGRA conversion ([UVCCamDevice::_ConvertYUY2toRGB32]) *)

Module Convert.

(** [struct yuv_rgb_lookup_tables]: five arrays of 256 [int32] and the
    [initialized] flag. *)
Record yuv_rgb_lookup_tables := mkTables {
  y_table : list Z;
  u_b_table : list Z;
  u_g_table : list Z;
  v_r_table : list Z;
  v_g_table : list Z;
  initialized : bool
}.

(** The indices [0 .. 255] of [for (int i = 0; i < 256; i++)]. *)
Definition indices : list Z := map Z.of_nat (seq 0 256).

(** [yuv_rgb_lookup_tables::Initialize]. *)
Definition Initialize (t : yuv_rgb_lookup_tables) : yuv_rgb_lookup_tables :=
  if initialized t then t
  else
    mkTables (map (fun i => 298 * (i - 16)) indices)
             (map (fun i => 516 * (i - 128)) indices)
             (map (fun i => -100 * (i - 128)) indices)
             (map (fun i => 409 * (i - 128)) indices)
             (map (fun i => -208 * (i - 128)) indices)
             true.

(** The global [gYuvRgbTables] before its first initialisation (static
    storage, all zero). *)
Definition gYuvRgbTables_start : yuv_rgb_lookup_tables :=
  mkTables (repeat 0 256) (repeat 0 256) (repeat 0 256) (repeat 0 256)
           (repeat 0 256) false.

(** Array lookup [table[b]]. *)
Definition lookup (table : list Z) (b : Z) : Z := nth (Z.to_nat b) table 0.

(** [clamp255]. *)
Definition clamp255 (v : Z) : Z :=
  let v := if v <? 0 then 0 else v in
  if 255 <? v then 255 else v.

(** The destination as it stands, with the source offsets read and the
    destination offsets written so far, in program order. *)
Record conversion := mkConv {
  c_dst : mem;
  c_reads : list Z;
  c_writes : list Z
}.

(** The two BGRA pixels of one macro-pixel (lines 3249-3258). *)
Definition bgra_pair (t : yuv_rgb_lookup_tables) (y0 u y1 v : Z) : list Z :=
  let yVal0 := lookup (y_table t) y0 in
  let yVal1 := lookup (y_table t) y1 in
  let uB := lookup (u_b_table t) u in
  let uG := lookup (u_g_table t) u in
  let vR := lookup (v_r_table t) v in
  let vG := lookup (v_g_table t) v in
  [ clamp255 (Z.shiftr (yVal0 + uB + 128) 8);
    clamp255 (Z.shiftr (yVal0 + uG + vG + 128) 8);
    clamp255 (Z.shiftr (yVal0 + vR + 128) 8);
    255;
    clamp255 (Z.shiftr (yVal1 + uB + 128) 8);
    clamp255 (Z.shiftr (yVal1 + uG + vG + 128) 8);
    clamp255 (Z.shiftr (yVal1 + vR + 128) 8);
    255 ].

(** The body of the inner loop (lines 3233-3259): four source bytes at [s],
    eight destination bytes at [d]. *)
Definition convert_macropixel (t : yuv_rgb_lookup_tables) (src : mem) (s d : Z)
    (c : conversion) : conversion :=
  mkConv (memcpy (c_dst c) d (bgra_pair t (src s) (src (s + 1)) (src (s + 2)) (src (s + 3))) 8)
         (c_reads c ++ [s; s + 1; s + 2; s + 3])
         (c_writes c ++ [d; d + 1; d + 2; d + 3; d + 4; d + 5; d + 6; d + 7]).

(** [for (int32 x = 0; x < width; x += 2)], entered at [x] with the row
    pointers at [s] and [d]; [fuel] bounds the iterations. *)
Fixpoint convert_row (fuel : nat) (t : yuv_rgb_lookup_tables) (src : mem)
    (width x s d : Z) (c : conversion) : conversion :=
  match fuel with
  | O => c
  | S fuel' =>
      if x <? width
      then convert_row fuel' t src width (x + 2) (s + 4) (d + 8)
             (convert_macropixel t src s d c)
      else c
  end.

(** [for (int32 row = 0; row < height; row++)] with the bounds test of
    lines 3227-3229, entered at [row] with [rows] rows to go. *)
Fixpoint convert_rows (rows : nat) (t : yuv_rgb_lookup_tables) (src : mem)
    (srcSize width row : Z) (c : conversion) : conversion :=
  match rows with
  | O => c
  | S rows' =>
      let srcStride := width * 2 in
      let dstStride := width * 4 in
      if srcSize <? row * srcStride + srcStride then c
      else
        convert_rows rows' t src srcSize width (row + 1)
          (convert_row (Z.to_nat width) t src width 0
             (row * srcStride) (row * dstStride) c)
  end.

(** The reads of the stride test (lines 3176-3188): for each test offset,
    while [srcSize > offset + 8], bytes 0, 2, 4, 6 and their counterparts. *)
Fixpoint stride_test_reads (srcSize : Z) (testOffsets : list Z) : list Z :=
  match testOffsets with
  | [] => []
  | off :: rest =>
      if off + 8 <? srcSize
      then [0; off; 2; off + 2; 4; off + 4; 6; off + 6]
           ++ stride_test_reads srcSize rest
      else []
  end.

(** The reads of the diagnostics block (lines 3141-3189), run while the
    static call counter is at most 5. *)
Definition diagnostic_reads (sYUY2Diag srcSize width : Z) : list Z :=
  if sYUY2Diag + 1 <=? 5 then
    [0; 1; 2; 3; 4; 5; 6; 7]
    ++ (if width * 4 <=? srcSize
        then stride_test_reads srcSize [512; 1024; 2048; width * 2]
        else [])
  else [].

(** [_ConvertYUY2toRGB32(dst, src, srcSize, width, height)] with the
    global tables [g] and the static counter [sYUY2Diag]; a [NULL] pointer
    is [None].  The result is the destination (with the access record), the
    tables and the counter afterwards. *)
Definition _ConvertYUY2toRGB32 (g : yuv_rgb_lookup_tables) (sYUY2Diag : Z)
    (dst src : option mem) (srcSize width height : Z)
  : option conversion * yuv_rgb_lookup_tables * Z :=
  match dst, src with
  | Some d, Some s =>
      if (width <=? 0) || (height <=? 0)
      then (Some (mkConv d [] []), g, sYUY2Diag)
      else
        let g := Initialize g in
        let c := mkConv d (diagnostic_reads sYUY2Diag srcSize width) [] in
        (Some (convert_rows (Z.to_nat height) g s srcSize width 0 c),
         g, sYUY2Diag + 1)
  | Some d, None => (Some (mkConv d [] []), g, sYUY2Diag)
  | None, _ => (None, g, sYUY2Diag)
  end.

(** *** What the loops compute *)

Lemma convert_macropixel_spec t src s d c :
  let c' := convert_macropixel t src s d c in
  (forall b, 0 <= b < 8 ->
     c_dst c' (d + b) =
     nth (Z.to_nat b) (bgra_pair t (src s) (src (s + 1)) (src (s + 2)) (src (s + 3))) 0) /\
  (forall i, i < d \/ d + 8 <= i -> c_dst c' i = c_dst c i) /\
  (forall o, In o (c_reads c') -> In o (c_reads c) \/ s <= o < s + 4) /\
  (forall o, In o (c_writes c') -> In o (c_writes c) \/ d <= o < d + 8).
Proof.
  cbv zeta. unfold convert_macropixel. cbn [c_dst c_reads c_writes].
  split; [|split; [|split]].
  - intros b Hb. rewrite memcpy_inside by lia. f_equal. f_equal. lia.
  - intros i Hi. apply memcpy_outside. lia.
  - intros o Ho. apply in_app_or in Ho. destruct Ho as [Ho | Ho]; [now left|].
    right. cbn in Ho. intuition lia.
  - intros o Ho. apply in_app_or in Ho. destruct Ho as [Ho | Ho]; [now left|].
    right. cbn in Ho. intuition lia.
Qed.

(** A row of [2 * n] pixels still to go: macro-pixel [k] of the remainder
    comes from source bytes [s + 4k ..] and lands at [d + 8k ..]. *)
Lemma convert_row_spec t src width : forall fuel n x s d c,
  0 <= n -> width - x = 2 * n -> (Z.to_nat n <= fuel)%nat ->
  let c' := convert_row fuel t src width x s d c in
  (forall k b, 0 <= k < n -> 0 <= b < 8 ->
     c_dst c' (d + 8 * k + b) =
     nth (Z.to_nat b)
       (bgra_pair t (src (s + 4 * k)) (src (s + 4 * k + 1))
          (src (s + 4 * k + 2)) (src (s + 4 * k + 3))) 0) /\
  (forall i, i < d \/ d + 8 * n <= i -> c_dst c' i = c_dst c i) /\
  (forall o, In o (c_reads c') -> In o (c_reads c) \/ s <= o < s + 4 * n) /\
  (forall o, In o (c_writes c') -> In o (c_writes c) \/ d <= o < d + 8 * n).
Proof.
  induction fuel as [|fuel IH]; intros n x s d c Hn Hw Hfuel; cbn [convert_row].
  - assert (n = 0) by lia. subst n.
    split; [intros; lia|]. split; [reflexivity|]. split; intros o Ho; now left.
  - destruct (x <? width) eqn:Hx; [apply Z.ltb_lt in Hx | apply Z.ltb_ge in Hx].
    + destruct (convert_macropixel_spec t src s d c) as (M1 & M2 & M3 & M4).
      destruct (IH (n - 1) (x + 2) (s + 4) (d + 8) (convert_macropixel t src s d c))
        as (H1 & H2 & H3 & H4); [lia | lia | lia |].
      cbv zeta in *. split; [|split; [|split]].
      * intros k b Hk Hb. destruct (Z.eq_dec k 0) as [-> | Hk0].
        -- rewrite H2 by lia. replace (d + 8 * 0 + b) with (d + b) by lia.
           rewrite M1 by lia. replace (s + 4 * 0) with s by lia. reflexivity.
        -- replace (d + 8 * k + b) with (d + 8 + 8 * (k - 1) + b) by lia.
           rewrite H1 by lia.
           replace (s + 4 + 4 * (k - 1)) with (s + 4 * k) by lia. reflexivity.
      * intros i Hi. rewrite H2 by lia. apply M2. lia.
      * intros o Ho. destruct (H3 o Ho) as [Ho' | Ho']; [|right; lia].
        destruct (M3 o Ho') as [? | ?]; [now left | right; lia].
      * intros o Ho. destruct (H4 o Ho) as [Ho' | Ho']; [|right; lia].
        destruct (M4 o Ho') as [? | ?]; [now left | right; lia].
    + assert (n = 0) by lia. subst n.
      split; [intros; lia|]. split; [reflexivity|]. split; intros o Ho; now left.
Qed.

(** The number of rows the row loop converts before it ends or breaks. *)
Fixpoint rows_converted (rows : nat) (srcSize width row : Z) : Z :=
  match rows with
  | O => 0
  | S rows' =>
      if srcSize <? row * (width * 2) + width * 2 then 0
      else 1 + rows_converted rows' srcSize width (row + 1)
  end.

Lemma rows_converted_bounds rows srcSize width : forall row,
  0 <= rows_converted rows srcSize width row <= Z.of_nat rows.
Proof.
  induction rows as [|rows IH]; intros row; cbn [rows_converted]; [lia|].
  destruct (_ <? _); [lia|]. specialize (IH (row + 1)). lia.
Qed.

Lemma rows_converted_full rows width : forall row srcSize,
  0 <= width -> (row + Z.of_nat rows) * (width * 2) <= srcSize ->
  0 <= row ->
  rows_converted rows srcSize width row = Z.of_nat rows.
Proof.
  induction rows as [|rows IH]; intros row srcSize Hw Hs Hr; cbn [rows_converted];
    [reflexivity|].
  replace (srcSize <? row * (width * 2) + width * 2) with false
    by (symmetry; apply Z.ltb_ge; nia).
  rewrite IH by (try nia; lia). lia.
Qed.

(** The row loop for an even width [2 * n]: the rows it converts are
    written in full from their own source rows, nothing else is written,
    and only those source rows are read. *)
Lemma convert_rows_spec t src srcSize width n : forall rows row c,
  0 <= n -> width = 2 * n -> 0 <= row ->
  let R := rows_converted rows srcSize width row in
  let c' := convert_rows rows t src srcSize width row c in
  (forall r k b, row <= r < row + R -> 0 <= k < n -> 0 <= b < 8 ->
     c_dst c' (r * (width * 4) + 8 * k + b) =
     nth (Z.to_nat b)
       (bgra_pair t (src (r * (width * 2) + 4 * k))
          (src (r * (width * 2) + 4 * k + 1))
          (src (r * (width * 2) + 4 * k + 2))
          (src (r * (width * 2) + 4 * k + 3))) 0) /\
  (forall i, i < row * (width * 4) \/ (row + R) * (width * 4) <= i ->
     c_dst c' i = c_dst c i) /\
  (forall o, In o (c_reads c') ->
     In o (c_reads c) \/ row * (width * 2) <= o < (row + R) * (width * 2)) /\
  (forall o, In o (c_writes c') ->
     In o (c_writes c) \/ row * (width * 4) <= o < (row + R) * (width * 4)) /\
  ((row + R) * (width * 2) <= srcSize \/ R = 0).
Proof.
  induction rows as [|rows IH]; intros row c Hn Hw Hrow;
    cbn [convert_rows rows_converted].
  - cbv zeta. split; [intros; lia|]. split; [reflexivity|].
    split; [intros o Ho; now left|]. split; [intros o Ho; now left | now right].
  - cbv zeta. destruct (srcSize <? row * (width * 2) + width * 2) eqn:Hb;
      [apply Z.ltb_lt in Hb | apply Z.ltb_ge in Hb].
    + split; [intros; lia|]. split; [reflexivity|].
      split; [intros o Ho; now left|]. split; [intros o Ho; now left | now right].
    + set (c1 := convert_row (Z.to_nat width) t src width 0 (row * (width * 2))
                   (row * (width * 4)) c).
      destruct (convert_row_spec t src width (Z.to_nat width) n 0
                  (row * (width * 2)) (row * (width * 4)) c)
        as (P1 & P2 & P3 & P4); [lia | lia | lia |].
      fold c1 in P1, P2, P3, P4.
      destruct (IH (row + 1) c1 Hn Hw) as (H1 & H2 & H3 & H4 & H5); [lia|].
      pose proof (rows_converted_bounds rows srcSize width (row + 1)) as HR.
      set (R := rows_converted rows srcSize width (row + 1)) in *.
      cbv zeta in *.
      split; [|split; [|split; [|split]]].
      * intros r k b Hr Hk Hb8. destruct (Z.eq_dec r row) as [-> | Hne].
        -- rewrite H2 by nia. apply P1; lia.
        -- apply H1; lia.
      * intros i Hi. rewrite H2 by nia. apply P2. nia.
      * intros o Ho. destruct (H3 o Ho) as [Ho' | Ho']; [|right; nia].
        destruct (P3 o Ho') as [? | ?]; [now left | right; nia].
      * intros o Ho. destruct (H4 o Ho) as [Ho' | Ho']; [|right; nia].
        destruct (P4 o Ho') as [? | ?]; [now left | right; nia].
      * left. destruct H5 as [H5 | H5]; [|rewrite H5]; nia.
Qed.

(** Tables as the driver can have them: not yet initialised, or filled by
    [Initialize]. *)
Definition valid_tables (g : yuv_rgb_lookup_tables) : Prop :=
  Initialize g = Initialize gYuvRgbTables_start.

Lemma black_pair :
  bgra_pair (Initialize gYuvRgbTables_start) 0 128 0 128
  = [0; 0; 0; 255; 0; 0; 0; 255].
Proof. vm_compute. reflexivity. Qed.

Lemma white_pair :
  bgra_pair (Initialize gYuvRgbTables_start) 235 128 235 128
  = [255; 255; 255; 255; 255; 255; 255; 255].
Proof. vm_compute. reflexivity. Qed.

(** Every pair of pixels carries alpha 255, whatever the tables and bytes. *)
Lemma bgra_pair_alpha t y0 u y1 v :
  nth 3 (bgra_pair t y0 u y1 v) 0 = 255 /\ nth 7 (bgra_pair t y0 u y1 v) 0 = 255.
Proof. split; reflexivity. Qed.

(** Pixel [p] of a [width] x [height] image, [width = 2 * n], lies in row
    [r], macro-pixel [k], half [e]. *)
Lemma pixel_position width height n p :
  0 < width -> width = 2 * n -> 0 <= p < width * height ->
  exists r k e,
    0 <= r < height /\ 0 <= k < n /\ 0 <= e <= 1 /\
    4 * p = r * (width * 4) + 8 * k + 4 * e.
Proof.
  intros Hw Hn Hp.
  pose proof (Z.div_mod p width ltac:(lia)) as Hdm.
  pose proof (Z.mod_pos_bound p width Hw) as Hm.
  pose proof (Z.div_mod (p mod width) 2 ltac:(lia)) as Hdm2.
  pose proof (Z.mod_pos_bound (p mod width) 2 ltac:(lia)) as Hm2.
  exists (p / width), (p mod width / 2), ((p mod width) mod 2).
  set (r := p / width) in *. set (x := p mod width) in *.
  set (k := x / 2) in *. set (e := x mod 2) in *.
  assert (0 <= r) by (subst r; apply Z.div_pos; lia).
  assert (r < height) by nia.
  repeat split; try lia.
Qed.

(** A 4 x 2 frame of the black pattern. *)
Definition black_frame : mem := fun i => if Z.even i then 0 else 128.

(** A 3 x 1 frame of the black pattern 00 80 00 80 00 80, followed in
    memory by bytes FF. *)
Definition black_3x1 : mem :=
  fun i => if i <? 6 then (if Z.even i then 0 else 128) else 255.

(** C8, the code at an odd width.  A full 3 x 1 frame of the black pattern
    has 6 bytes.  The row passes the bounds test and the inner loop runs for
    x = 0 and x = 2; the second macro-pixel takes Y1 and V from source
    offsets 6 and 7, behind the frame, so pixel 2 of the image is decoded
    with V = FF: its bytes are B = 0, G = 0, R = 184, A = 255, where a black
    frame should give R <= 5.  (Pixels 0 and 1 are black.) *)
Theorem odd_width_black_decodes_red :
  (forall i, 0 <= i < 3 * 1 * 2 -> black_3x1 i = if Z.even i then 0 else 128) /\
  exists c,
    fst (fst (_ConvertYUY2toRGB32 gYuvRgbTables_start 5 (Some (fun _ => 9))
                (Some black_3x1) (3 * 1 * 2) 3 1)) = Some c /\
    map (c_dst c) [0; 1; 2; 3; 4; 5; 6; 7; 8; 9; 10; 11]
    = [0; 0; 0; 255; 0; 0; 0; 255; 0; 0; 184; 255] /\
    5 < c_dst c (4 * 2 + 2).
Proof.
  split.
  - intros i Hi.
    assert (H : i = 0 \/ i = 1 \/ i = 2 \/ i = 3 \/ i = 4 \/ i = 5) by lia.
    destruct H as [-> | [-> | [-> | [-> | [-> | ->]]]]]; reflexivity.
  - eexists. split; [reflexivity|]. split; vm_compute; reflexivity.
Qed.

(** C10, the code at an odd width.  A full 3 x 1 frame has 6 source bytes
    and 12 destination bytes.  With the diagnostics of the first five calls
    already over ([sYUY2Diag] = 5), the row passes the bounds test
    (0 + 6 <= 6) and the inner loop runs for x = 0 and x = 2, so the second
    macro-pixel reads source offsets 6 and 7, outside [0, 6), and writes
    destination offsets 12 to 15, outside the 12-byte image.  On the first
    call for a full 2 x 1 frame (4 bytes) the diagnostics read offsets 4 to
    7 before any conversion. *)
Theorem odd_width_reads_past_source g dst src :
  (exists c,
     fst (fst (_ConvertYUY2toRGB32 g 5 (Some dst) (Some src) (3 * 1 * 2) 3 1)) = Some c /\
     c_reads c = [0; 1; 2; 3; 4; 5; 6; 7] /\
     c_writes c = [0; 1; 2; 3; 4; 5; 6; 7; 8; 9; 10; 11; 12; 13; 14; 15]) /\
  (exists c,
     fst (fst (_ConvertYUY2toRGB32 g 0 (Some dst) (Some src) (2 * 1 * 2) 2 1)) = Some c /\
     c_reads c = [0; 1; 2; 3; 4; 5; 6; 7; 0; 1; 2; 3]).
Proof.
  split; eexists; (split; [reflexivity|]); repeat split; reflexivity.
Qed.

End Convert.

(** * The audio pump and its ring buffer ([UVCCamDevice], audio part) *)

Module Audio.

Import Pump.

(** The ring-buffer members of [UVCCamDevice] and the counters local to
    [AudioPumpThread]. *)
Record audio_pump := mkAudio {
  fAudioRingBuffer : mem;
  fAudioRingSize : Z;
  fAudioRingHead : Z;
  fAudioRingTail : Z;
  transferCount : Z;
  errorCount : Z;
  consecutiveErrors : Z
}.

(** Lines 2199-2206: the room left, one slot being kept free. *)
Definition ring_space (a : audio_pump) : Z :=
  if fAudioRingTail a <=? fAudioRingHead a
  then to_size_t (fAudioRingSize a - fAudioRingHead a + fAudioRingTail a - 1)
  else to_size_t (fAudioRingTail a - fAudioRingHead a - 1).

(** The body of the copy loop (lines 2192-2223) for descriptor [i];
    [fAudioBuffer] is the transfer buffer. *)
Definition pump_packet (fAudioBuffer : mem) (bytesPerPacket : Z) (i : Z)
    (d : usb_iso_packet_descriptor) (a : audio_pump) : audio_pump :=
  if negb (status d =? B_OK) || (actual_length d =? 0) then a
  else
    let packetLen := to_size_t (actual_length d) in
    let packetData := mem_read fAudioBuffer (i * bytesPerPacket) packetLen in
    let head := fAudioRingHead a in
    if ring_space a <? packetLen then a
    else
      let firstChunk := to_size_t (fAudioRingSize a - head) in
      let ring :=
        if packetLen <=? firstChunk
        then memcpy (fAudioRingBuffer a) head packetData packetLen
        else memcpy (memcpy (fAudioRingBuffer a) head packetData firstChunk)
               0 (skipn (Z.to_nat firstChunk) packetData) (packetLen - firstChunk) in
      mkAudio ring (fAudioRingSize a) ((head + packetLen) mod fAudioRingSize a)
        (fAudioRingTail a) (transferCount a) (errorCount a) (consecutiveErrors a).

(** [for (uint32 i = 0; i < kPacketsPerTransfer; i++)]. *)
Fixpoint pump_packets (fAudioBuffer : mem) (bytesPerPacket : Z) (i : Z)
    (ds : list usb_iso_packet_descriptor) (a : audio_pump) : audio_pump :=
  match ds with
  | [] => a
  | d :: rest =>
      pump_packets fAudioBuffer bytesPerPacket (i + 1) rest
        (pump_packet fAudioBuffer bytesPerPacket i d a)
  end.

(** [UVCCamDevice::ReadAudioData] for a non-NULL destination and a positive
    [size], once its wait for data is over: the bytes handed out and the
    pump afterwards. *)
Definition ReadAudioData (size : Z) (a : audio_pump) : list Z * audio_pump :=
  let head := fAudioRingHead a in
  let tail := fAudioRingTail a in
  let available :=
    if tail <=? head then to_size_t (head - tail)
    else to_size_t (fAudioRingSize a - tail + head) in
  if available =? 0 then ([], a)
  else
    let toRead := if available <? size then available else size in
    let firstChunk := to_size_t (fAudioRingSize a - tail) in
    let out :=
      if toRead <=? firstChunk
      then mem_read (fAudioRingBuffer a) tail toRead
      else mem_read (fAudioRingBuffer a) tail firstChunk
           ++ mem_read (fAudioRingBuffer a) 0 (toRead - firstChunk) in
    (out,
     mkAudio (fAudioRingBuffer a) (fAudioRingSize a) head
       ((tail + toRead) mod fAudioRingSize a)
       (transferCount a) (errorCount a) (consecutiveErrors a)).

(** Head and tail are indices into the ring. *)
Definition ring_ok (a : audio_pump) : Prop :=
  0 < fAudioRingSize a < 2 ^ 31 /\
  0 <= fAudioRingHead a < fAudioRingSize a /\
  0 <= fAudioRingTail a < fAudioRingSize a.

Definition available (a : audio_pump) : Z :=
  (fAudioRingHead a - fAudioRingTail a) mod fAudioRingSize a.

Lemma to_size_t_small v : 0 <= v < 2 ^ 63 -> to_size_t v = v.
Proof.
  intros H. unfold to_size_t, size_t_mod. apply Z.mod_small.
  change (2 ^ 64) with 18446744073709551616. change (2 ^ 63) with 9223372036854775808 in H.
  lia.
Qed.

Lemma available_cases a :
  ring_ok a ->
  available a =
  if fAudioRingTail a <=? fAudioRingHead a
  then fAudioRingHead a - fAudioRingTail a
  else fAudioRingSize a - fAudioRingTail a + fAudioRingHead a.
Proof.
  intros (Hs & Hh & Ht). unfold available.
  destruct (fAudioRingTail a <=? fAudioRingHead a) eqn:E;
    [apply Z.leb_le in E | apply Z.leb_gt in E].
  - apply Z.mod_small. lia.
  - replace (fAudioRingHead a - fAudioRingTail a)
      with (fAudioRingSize a - fAudioRingTail a + fAudioRingHead a
            + (-1) * fAudioRingSize a) by lia.
    rewrite Z.mod_add by lia. apply Z.mod_small. lia.
Qed.

Lemma ring_space_free a :
  ring_ok a -> ring_space a = fAudioRingSize a - available a - 1.
Proof.
  intros Hok. rewrite (available_cases a Hok). destruct Hok as (Hs & Hh & Ht).
  unfold ring_space. change (2 ^ 31) with 2147483648 in Hs.
  destruct (fAudioRingTail a <=? fAudioRingHead a) eqn:E;
    [apply Z.leb_le in E | apply Z.leb_gt in E];
    rewrite to_size_t_small; change (2 ^ 63) with 9223372036854775808; lia.
Qed.

(** C9 (as amended).  For a packet with status OK and a positive length, the
    pump computes the free space as capacity - available - 1.  When the
    packet fits it is copied behind the head, wrapping at the end of the
    ring, and the head advances by its length modulo the capacity; when it
    does not fit the whole packet is dropped and the pump is exactly as
    before: ring contents, head, tail and every counter it keeps. *)
Theorem ring_write_or_drop fAudioBuffer bytesPerPacket i d a :
  ring_ok a ->
  status d = B_OK ->
  0 < actual_length d < 2 ^ 15 ->
  let len := actual_length d in
  let size := fAudioRingSize a in
  let free := size - available a - 1 in
  let a' := pump_packet fAudioBuffer bytesPerPacket i d a in
  ring_space a = free /\
  (len <= free ->
     ring_ok a' /\
     fAudioRingHead a' = (fAudioRingHead a + len) mod size /\
     fAudioRingTail a' = fAudioRingTail a /\
     available a' = available a + len /\
     forall k, 0 <= k < len ->
       fAudioRingBuffer a' ((fAudioRingHead a + k) mod size)
       = fAudioBuffer (i * bytesPerPacket + k)) /\
  (free < len -> a' = a).
Proof.
  intros Hok Hst Hlen len size free a'.
  pose proof (ring_space_free a Hok) as Hsp. fold size free in Hsp.
  assert (Hfree : free = size - available a - 1) by reflexivity.
  assert (Hlen' : len = actual_length d) by reflexivity.
  split; [exact Hsp|].
  assert (Hpl : to_size_t (actual_length d) = len).
  { apply to_size_t_small. change (2 ^ 15) with 32768 in Hlen.
    change (2 ^ 63) with 9223372036854775808. lia. }
  subst a'. unfold pump_packet. rewrite Hst, Z.eqb_refl. cbn [negb orb].
  replace (actual_length d =? 0) with false by (symmetry; apply Z.eqb_neq; lia).
  rewrite Hpl, Hsp. fold size.
  split.
  - intros Hfit.
    replace (free <? len) with false by (symmetry; apply Z.ltb_ge; lia).
    pose proof (available_cases a Hok) as Hav.
    destruct Hok as (Hs & Hh & Ht). fold size in Hs, Hh, Ht, Hav.
    assert (Hav0 : 0 <= available a < size) by (apply Z.mod_pos_bound; lia).
    assert (Hfc : to_size_t (size - fAudioRingHead a) = size - fAudioRingHead a).
    { apply to_size_t_small. change (2 ^ 31) with 2147483648 in Hs.
      change (2 ^ 63) with 9223372036854775808. lia. }
    rewrite Hfc.
    assert (Hhead : 0 <= (fAudioRingHead a + len) mod size < size)
      by (apply Z.mod_pos_bound; lia).
    split; [|split; [|split; [|split]]].
    + unfold ring_ok. cbn [fAudioRingSize fAudioRingHead fAudioRingTail]. fold size.
      split; [exact Hs | split; [exact Hhead | exact Ht]].
    + reflexivity.
    + reflexivity.
    + unfold available at 1. cbn [fAudioRingHead fAudioRingTail fAudioRingSize].
      fold size. rewrite Zminus_mod_idemp_l.
      replace (fAudioRingHead a + len - fAudioRingTail a)
        with (len + (fAudioRingHead a - fAudioRingTail a)) by lia.
      rewrite <- Zplus_mod_idemp_r.
      change ((fAudioRingHead a - fAudioRingTail a) mod size) with (available a).
      rewrite Z.mod_small; lia.
    + intros k Hk. cbn [fAudioRingBuffer].
      set (data := mem_read fAudioBuffer (i * bytesPerPacket) len).
      assert (Hd : forall j, 0 <= j < len ->
                nth (Z.to_nat j) data 0 = fAudioBuffer (i * bytesPerPacket + j)).
      { intros j Hj. subst data. rewrite mem_read_nth by lia. f_equal. lia. }
      destruct (len <=? size - fAudioRingHead a) eqn:Hw;
        [apply Z.leb_le in Hw | apply Z.leb_gt in Hw].
      * rewrite Z.mod_small by lia. rewrite memcpy_inside by lia.
        replace (fAudioRingHead a + k - fAudioRingHead a) with k by lia.
        now apply Hd.
      * destruct (Z_lt_le_dec (fAudioRingHead a + k) size) as [Hlo | Hhi].
        -- rewrite Z.mod_small by lia.
           rewrite memcpy_outside by lia. rewrite memcpy_inside by lia.
           replace (fAudioRingHead a + k - fAudioRingHead a) with k by lia.
           now apply Hd.
        -- replace ((fAudioRingHead a + k) mod size)
             with (fAudioRingHead a + k - size).
           2:{ apply (Z.mod_unique _ _ 1); [left; lia | lia]. }
           rewrite memcpy_inside by lia.
           rewrite nth_skipn. rewrite <- (Hd k Hk). f_equal. lia.
  - intros Hno.
    replace (free <? len) with true by (symmetry; apply Z.ltb_lt; lia).
    reflexivity.
Qed.

(** Scenario S6 of the specification: capacity 8, seven bytes written. *)
Definition S6_buffer : mem := fun i => 100 + i.
Definition S6_empty : audio_pump := mkAudio (fun _ => 0) 8 0 0 0 0 0.
Definition S6_full : audio_pump :=
  pump_packet S6_buffer 7 0 (mkDesc 7 7 B_OK) S6_empty.
Definition S6_after_read : audio_pump := snd (ReadAudioData 4 S6_full).

Lemma ring_write_or_drop_witness :
  (fAudioRingHead S6_full = 7 /\ fAudioRingTail S6_full = 0) /\
  pump_packet S6_buffer 7 0 (mkDesc 7 1 B_OK) S6_full = S6_full /\
  fAudioRingTail S6_after_read = 4 /\
  fAudioRingHead (pump_packet S6_buffer 7 0 (mkDesc 7 3 B_OK) S6_after_read) = 2.
Proof.
  assert (Hok1 : ring_ok S6_full) by (vm_compute; repeat split; discriminate).
  assert (Hok2 : ring_ok S6_after_read) by (vm_compute; repeat split; discriminate).
  split; [split; reflexivity|]. split.
  - apply (ring_write_or_drop S6_buffer 7 0 (mkDesc 7 1 B_OK) S6_full Hok1 eq_refl).
    + vm_compute. split; reflexivity.
    + vm_compute. reflexivity.
  - split; [reflexivity|].
    destruct (ring_write_or_drop S6_buffer 7 0 (mkDesc 7 3 B_OK) S6_after_read
                Hok2 eq_refl) as (_ & Hfit & _).
    + vm_compute. split; reflexivity.
    + destruct Hfit as (_ & Hh & _); [vm_compute; discriminate|].
      rewrite Hh. reflexivity.
Defined.

(** C9, the claim as stated fails: in scenario S6 the one-byte packet that
    does not fit is dropped without any counter moving; the pump keeps no
    overflow counter, and the three counters it has are as before. *)
Lemma ring_overflow_not_counted :
  let a' := pump_packet S6_buffer 7 0 (mkDesc 7 1 B_OK) S6_full in
  ring_space S6_full = 0 /\
  fAudioRingHead a' = fAudioRingHead S6_full /\
  transferCount a' = transferCount S6_full /\
  errorCount a' = errorCount S6_full /\
  consecutiveErrors a' = consecutiveErrors S6_full /\
  a' = S6_full.
Proof. cbv zeta. repeat split; reflexivity. Qed.

End Audio.


(** * More on the deframer: pool, queue discipline, buffer bounds *)

Module DeframerFacts.

Import Deframer.

(** [UVCDeframer::ResetStats] (the report time is not modelled). *)
Definition ResetStats (s : UVCDeframer) : UVCDeframer :=
  set_fQueueOverflows 0
    (set_fFIDChanges 0
       (set_fFramesIncomplete 0 (set_fFramesCompleted 0 s))).

(** The states of a deframer in use: constructed, then driven by the pump
    thread ([Write]), the consumer ([GetFrame], [DropFrame],
    [RecycleFrame]) and the device ([Flush], [SetExpectedFrameSize],
    [ResetStats]) in any order. *)
Inductive in_use : UVCDeframer -> Prop :=
| in_use_new buffer : in_use (UVCDeframer_new buffer)
| in_use_op o s : in_use s -> in_use (apply_op o s)
| in_use_ResetStats s : in_use s -> in_use (ResetStats s).

Lemma in_use_inv s : in_use s -> inv s.
Proof.
  induction 1 as [buffer | o s _ IH | s _ IH].
  - apply inv_new.
  - now apply inv_apply_op.
  - exact IH.
Qed.

(** *** The frame pool *)

(** [p'] is what is left of [p] after frames were taken from its end. *)
Definition taken_from (p' p : list CamFrame) : Prop :=
  exists rest, p = p' ++ rest.

Lemma taken_from_refl p : taken_from p p.
Proof. exists []. now rewrite app_nil_r. Qed.

Lemma taken_from_trans p1 p2 p3 :
  taken_from p1 p2 -> taken_from p2 p3 -> taken_from p1 p3.
Proof.
  intros [r1 H1] [r2 H2]. exists (r1 ++ r2). now rewrite H2, H1, app_assoc.
Qed.

Lemma AllocFrame_pool b : taken_from (fFramePool (snd (AllocFrame b))) (fFramePool b).
Proof.
  unfold AllocFrame. destruct (rev (fFramePool b)) as [|f rest] eqn:E.
  - apply taken_from_refl.
  - exists [f]. cbn [snd fFramePool set_fPoolHits set_fFramePool].
    rewrite <- (rev_involutive (fFramePool b)), E. reflexivity.
Qed.

Lemma queue_current_pool d b : fFramePool (queue_current d b) = fFramePool b.
Proof. unfold queue_current. destruct (fCurrentFrame b); reflexivity. Qed.

Lemma on_fid_change_pool buf s :
  taken_from (fFramePool (base (on_fid_change buf s))) (fFramePool (base s)).
Proof.
  unfold on_fid_change. dsimpl.
  repeat break_match; dsimpl; try rewrite queue_current_pool; dsimpl;
    try apply taken_from_refl; try discriminate.
  all: match goal with
       | H : AllocFrame ?b = (_, ?b') |- _ =>
           pose proof (AllocFrame_pool b) as Hp; rewrite H in Hp; exact Hp
       end.
Qed.

Lemma ensure_frame_pool s s2 :
  ensure_frame s = Some s2 ->
  taken_from (fFramePool (base s2)) (fFramePool (base s)).
Proof.
  unfold ensure_frame. destruct (fCurrentFrame (base s)).
  - intros E. injection E as <-. apply taken_from_refl.
  - destruct (_ <? _); [|discriminate].
    pose proof (AllocFrame_pool (base s)) as Hp.
    destruct (AllocFrame (base s)) as [f b]. intros E. injection E as <-.
    exact Hp.
Qed.

Lemma complete_frame_pool s : fFramePool (base (complete_frame s)) = fFramePool (base s).
Proof.
  unfold complete_frame. cbn -[queue_current].
  repeat break_match; now rewrite queue_current_pool.
Qed.

Lemma assemble_pool buf n eof fc s :
  fFramePool (base (assemble buf n eof fc s)) = fFramePool (base s).
Proof.
  unfold assemble, frame_complete.
  set (s1 := append_payload buf n _).
  assert (H1 : base s1 = base s) by (subst s1; now rewrite append_payload_base).
  clearbody s1.
  destruct (0 <? fExpectedFrameSize s1).
  - destruct eof.
    + now rewrite complete_frame_pool, pad_on_eof_base, H1.
    + destruct (_ <=? _); [rewrite complete_frame_pool|]; now rewrite H1.
  - destruct (eof && negb fc); [rewrite complete_frame_pool|]; now rewrite H1.
Qed.

Lemma Write_pool buf s :
  taken_from (fFramePool (base (snd (Write buf s)))) (fFramePool (base s)).
Proof.
  unfold Write.
  destruct (header_invalid buf); [apply taken_from_refl|].
  destruct (_ =? 0); [apply taken_from_refl|].
  set (s0 := set_fPacketsThisFrame (fPacketsThisFrame s + 1) s).
  set (s1 := if negb (fid_bit buf =? fID s0) then on_fid_change buf s0 else s0).
  assert (H1 : taken_from (fFramePool (base s1)) (fFramePool (base s))).
  { subst s1. destruct (negb _);
      [exact (on_fid_change_pool buf s0) | apply taken_from_refl]. }
  clearbody s1.
  destruct (ensure_frame s1) as [s2|] eqn:E; cbn [snd]; [|exact H1].
  rewrite assemble_pool.
  exact (taken_from_trans _ _ _ (ensure_frame_pool _ _ E) H1).
Qed.

(** The pool holds at most [CAMDEFRAMER_FRAME_POOL_SIZE] frames, all of
    them reset. *)
Definition pool_ok (b : CamDeframer) : Prop :=
  Z.of_nat (length (fFramePool b)) <= CAMDEFRAMER_FRAME_POOL_SIZE /\
  Forall (fun f => f = io_empty) (fFramePool b).

Lemma pool_ok_taken b b' :
  taken_from (fFramePool b') (fFramePool b) -> pool_ok b -> pool_ok b'.
Proof.
  intros [rest E] [Hl Ha]. rewrite E in Hl, Ha. rewrite length_app in Hl.
  apply Forall_app in Ha. split; [lia | apply Ha].
Qed.

Lemma pool_ok_apply_op o s : pool_ok (base s) -> pool_ok (base (apply_op o s)).
Proof.
  intros Hp. destruct o; cbn [apply_op].
  - exact (pool_ok_taken _ _ (Write_pool buf s) Hp).
  - cbn [base set_base]. unfold GetFrame. destruct (fFrames (base s)); exact Hp.
  - cbn [base set_base]. unfold DropFrame. destruct (fFrames (base s)); exact Hp.
  - exact Hp.
  - cbn [base set_base]. unfold RecycleFrame.
    destruct (_ <? _) eqn:L; [|exact Hp]. apply Z.ltb_lt in L.
    destruct Hp as [Hl Ha]. split; cbn [fFramePool set_fFramePool].
    + rewrite length_app. cbn [length]. lia.
    + apply Forall_app. split; [exact Ha | now constructor].
  - exact Hp.
Qed.

(** X1: the frame pool.  In every state of a deframer in use the pool holds
    at most [CAMDEFRAMER_FRAME_POOL_SIZE] = 12 frames and every pooled
    frame is empty with its cursor at 0, however many frames the consumer
    recycles. *)
Theorem frame_pool_bounded s :
  in_use s ->
  CAMDEFRAMER_FRAME_POOL_SIZE = 12 /\
  Z.of_nat (length (fFramePool (base s))) <= CAMDEFRAMER_FRAME_POOL_SIZE /\
  Forall (fun f => f = io_empty) (fFramePool (base s)).
Proof.
  intros H. split; [reflexivity|].
  change (pool_ok (base s)).
  induction H as [buffer | o s _ IH | s _ IH].
  - split; cbn; [unfold CAMDEFRAMER_FRAME_POOL_SIZE; lia | constructor].
  - now apply pool_ok_apply_op.
  - exact IH.
Qed.

(** Thirteen frames recycled into a new deframer. *)
Definition recycle_many (n : nat) (s : UVCDeframer) : UVCDeframer :=
  Nat.iter n (apply_op (OpRecycleFrame (mkIO [7; 7] 2))) s.

Lemma recycle_many_in_use n s : in_use s -> in_use (recycle_many n s).
Proof.
  intros H. induction n as [|n IH]; [exact H|].
  exact (in_use_op _ _ IH).
Qed.

Lemma frame_pool_bounded_witness :
  Z.of_nat (length (fFramePool (base (recycle_many 13 (UVCDeframer_new None))))) <= 12.
Proof.
  exact (proj1 (proj2 (frame_pool_bounded _
           (recycle_many_in_use 13 _ (in_use_new None))))).
Defined.




(** *** Queue discipline *)

Lemma queue_current_some d b f :
  fCurrentFrame b = Some f ->
  fFrames (queue_current d b)
  = fFrames b ++ [if 0 <? Z.of_nat (length d) then io_write f d else f] /\
  fFrameSem (queue_current d b) = fFrameSem b + 1.
Proof. intros Hc. unfold queue_current. rewrite Hc. split; reflexivity. Qed.

Lemma complete_frame_queue s f :
  fCurrentFrame (base s) = Some f ->
  exists f',
    fFrames (base (complete_frame s)) = fFrames (base s) ++ [f'] /\
    fFrameSem (base (complete_frame s)) = fFrameSem (base s) + 1.
Proof.
  intros Hc. unfold complete_frame. cbn -[queue_current].
  repeat break_match;
    match goal with
    | |- context [queue_current ?d ?b] =>
        destruct (queue_current_some d b f Hc) as [H1 H2]; rewrite H1, H2
    end; eauto.
Qed.

Lemma assemble_queue buf n eof fc s f :
  fCurrentFrame (base s) = Some f ->
  exists new,
    fFrames (base (assemble buf n eof fc s)) = fFrames (base s) ++ new /\
    (length new <= 1)%nat /\
    fFrameSem (base (assemble buf n eof fc s))
    = fFrameSem (base s) + Z.of_nat (length new).
Proof.
  intros Hc. unfold assemble, frame_complete.
  set (s1 := append_payload buf n _).
  assert (H1 : base s1 = base s) by (subst s1; now rewrite append_payload_base).
  clearbody s1.
  assert (Hno : exists new,
            fFrames (base s1) = fFrames (base s) ++ new /\ (length new <= 1)%nat /\
            fFrameSem (base s1) = fFrameSem (base s) + Z.of_nat (length new)).
  { exists []. rewrite H1, app_nil_r. cbn. split; [reflexivity | split; lia]. }
  assert (Hyes : forall s2, base s2 = base s -> exists new,
            fFrames (base (complete_frame s2)) = fFrames (base s) ++ new /\
            (length new <= 1)%nat /\
            fFrameSem (base (complete_frame s2))
            = fFrameSem (base s) + Z.of_nat (length new)).
  { intros s2 H2.
    destruct (complete_frame_queue s2 f) as (f' & F1 & F2); [now rewrite H2|].
    exists [f']. rewrite F1, F2, H2. cbn. split; [reflexivity | split; lia]. }
  destruct (0 <? fExpectedFrameSize s1).
  - destruct eof.
    + apply Hyes. now rewrite pad_on_eof_base.
    + destruct (_ <=? _); [now apply Hyes | exact Hno].
  - destruct (eof && negb fc); [now apply Hyes | exact Hno].
Qed.

(** X3: one packet, at most one frame.  In every state of a deframer in use,
    [Write] leaves the frames already queued where they are, in order, adds
    at most one frame behind them, and releases the frame semaphore exactly
    once per frame it adds. *)
Theorem Write_appends_at_most_one_frame buf s :
  in_use s ->
  exists new,
    fFrames (base (snd (Write buf s))) = fFrames (base s) ++ new /\
    (length new <= 1)%nat /\
    fFrameSem (base (snd (Write buf s)))
    = fFrameSem (base s) + Z.of_nat (length new).
Proof.
  intros Hu. pose proof (in_use_inv s Hu) as Hinv.
  assert (Hno : exists new : list CamFrame,
            fFrames (base s) = fFrames (base s) ++ new /\ (length new <= 1)%nat /\
            fFrameSem (base s) = fFrameSem (base s) + Z.of_nat (length new)).
  { exists []. rewrite app_nil_r. cbn. split; [reflexivity | split; lia]. }
  unfold Write.
  destruct (header_invalid buf); [exact Hno|].
  destruct (_ =? 0); [exact Hno|].
  set (s0 := set_fPacketsThisFrame (fPacketsThisFrame s + 1) s).
  set (s1 := if negb (fid_bit buf =? fID s0) then on_fid_change buf s0 else s0).
  assert (H1 : inv s1 /\ base s1 = base s).
  { subst s1. destruct (negb _); [|split; [exact Hinv | reflexivity]].
    rewrite on_fid_change_idle by apply Hinv.
    split; [split; [apply Hinv | reflexivity] | reflexivity]. }
  destruct H1 as [I1 B1]. clearbody s1.
  destruct (ensure_frame s1) as [s2|] eqn:E; cbn [snd].
  - destruct (ensure_frame_spec _ _ I1 E) as (Hc & Hf & Hsem & _).
    destruct (assemble_queue buf (Z.of_nat (length buf) - nth 0 buf 0) (eof_bit buf)
                (negb (fid_bit buf =? fID s0)) s2 io_empty Hc)
      as (new & N1 & N2 & N3).
    exists new. rewrite N1, N3, Hf, Hsem, B1. auto.
  - cbn [base set_fQueueOverflows]. rewrite B1. exact Hno.
Qed.

Lemma Write_appends_at_most_one_frame_witness :
  exists new,
    fFrames (base (snd (Write [2; 2; 9] (UVCDeframer_new None)))) = [] ++ new /\
    (length new <= 1)%nat.
Proof.
  destruct (Write_appends_at_most_one_frame [2; 2; 9] (UVCDeframer_new None)
              (in_use_new None)) as (new & H1 & H2 & _).
  exists new. split; [exact H1 | exact H2].
Defined.

(** *** Marker-delimited (MJPEG) mode *)

(** The condition under which [Write] queues a frame while no expected
    size is set. *)
Definition mjpeg_publishes (buf : list Z) (s : UVCDeframer) : bool :=
  negb (header_invalid buf) && (0 <? payload_size buf) && frame_available s
  && eof_bit buf && (fid_bit buf =? fID s).

Lemma complete_frame_mjpeg s :
  fExpectedFrameSize s = 0 -> fInputBuffer s = io_empty ->
  fCurrentFrame (base s) = Some io_empty ->
  fFrames (base (complete_frame s)) = fFrames (base s) ++ [io_empty].
Proof.
  intros HE Hi Hc. unfold complete_frame. cbn -[queue_current].
  rewrite HE, Hi. cbn -[queue_current].
  destruct (fFixedBuffer s); unfold queue_current; proj_simpl; rewrite Hc; reflexivity.
Qed.

(** X4: frames in marker-delimited mode.  In every state of a deframer in
    use with no expected frame size set, [Write] queues a frame exactly when
    the packet is well-formed, carries payload, has EOF set and the same FID
    as before, and a frame is held or the queue has room; the frame it
    queues is empty, whatever payload the packets of that frame carried
    (they went to the fixed buffer, while the frame is filled from
    [fInputBuffer]). *)
Theorem mjpeg_queues_empty_frames buf s :
  in_use s -> fExpectedFrameSize s = 0 ->
  fFrames (base (snd (Write buf s)))
  = if mjpeg_publishes buf s then fFrames (base s) ++ [io_empty]
    else fFrames (base s).
Proof.
  intros Hu HE. pose proof (in_use_inv s Hu) as Hinv.
  unfold mjpeg_publishes, Write, payload_size.
  destruct (header_invalid buf) eqn:Hh; [reflexivity|].
  assert (Hn0 : 0 <= Z.of_nat (length buf) - nth 0 buf 0).
  { unfold header_invalid in Hh. cbv zeta in Hh.
    rewrite !orb_false_iff in Hh. destruct Hh as [[_ _] Hh]. zb. lia. }
  destruct (Z.of_nat (length buf) - nth 0 buf 0 =? 0) eqn:Hp0; zb.
  { replace (0 <? Z.of_nat (length buf) - nth 0 buf 0) with false
      by (symmetry; apply Z.ltb_ge; lia). reflexivity. }
  replace (0 <? Z.of_nat (length buf) - nth 0 buf 0) with true
    by (symmetry; apply Z.ltb_lt; lia).
  cbn [negb andb].
  set (s0 := set_fPacketsThisFrame (fPacketsThisFrame s + 1) s).
  change (fID s0) with (fID s).
  set (s1 := if negb (fid_bit buf =? fID s) then on_fid_change buf s0 else s0).
  assert (H1 : inv s1 /\ base s1 = base s /\ fExpectedFrameSize s1 = 0).
  { subst s1. destruct (negb _);
      [|split; [exact Hinv | split; [reflexivity | exact HE]]].
    rewrite on_fid_change_idle by apply Hinv.
    split; [split; [apply Hinv | reflexivity] | split; [reflexivity | exact HE]]. }
  destruct H1 as (I1 & B1 & E1). clearbody s1. clear s0.
  unfold frame_available. rewrite <- B1.
  destruct (ensure_frame s1) as [s2|] eqn:E; cbn [snd].
  - destruct (ensure_frame_spec _ _ I1 E) as (Hc & Hf & _ & Hs2).
    assert (Hav : match fCurrentFrame (base s1) with
                  | Some _ => true
                  | None => Z.of_nat (length (fFrames (base s1))) <? MAXFRAMEBUF
                  end = true).
    { unfold ensure_frame in E. destruct (fCurrentFrame (base s1)); [reflexivity|].
      destruct (_ <? _); [reflexivity | discriminate E]. }
    rewrite Hav. cbn [andb].
    assert (I2 : fInputBuffer s2 = io_empty /\ fExpectedFrameSize s2 = 0).
    { rewrite Hs2. proj_simpl. split; [apply I1 | exact E1]. }
    destruct I2 as [I2 E2].
    unfold assemble, frame_complete.
    set (s3 := append_payload buf _ _).
    assert (H3 : fExpectedFrameSize s3 = 0 /\ base s3 = base s2 /\
                 fInputBuffer s3 = io_empty).
    { subst s3. rewrite append_payload_expected, append_payload_base,
        append_payload_input. proj_simpl. auto. }
    destruct H3 as (E3 & B3 & I3). clearbody s3.
    rewrite E3. cbn [Z.ltb Z.compare].
    destruct (eof_bit buf); cbn [andb]; [|now rewrite B3, Hf].
    destruct (fid_bit buf =? fID s); cbn [negb]; [|now rewrite B3, Hf].
    rewrite complete_frame_mjpeg by (auto; now rewrite B3).
    now rewrite B3, Hf.
  - assert (Hav : match fCurrentFrame (base s1) with
                  | Some _ => true
                  | None => Z.of_nat (length (fFrames (base s1))) <? MAXFRAMEBUF
                  end = false).
    { unfold ensure_frame in E. destruct (fCurrentFrame (base s1)); [discriminate E|].
      destruct (_ <? _); [|reflexivity].
      destruct (AllocFrame (base s1)); discriminate E. }
    rewrite Hav. cbn [andb base set_fQueueOverflows]. reflexivity.
Qed.

(** A frame of six payload bytes in two packets, the second with EOF. *)
Lemma mjpeg_queues_empty_frames_witness :
  fFrames (base (snd (Write [2; 2; 3; 4; 255; 217]
                        (apply_op (OpWrite [2; 0; 255; 216; 1; 2])
                           (UVCDeframer_new (Some (fun _ => 0)))))))
  = [io_empty].
Proof.
  rewrite (mjpeg_queues_empty_frames [2; 2; 3; 4; 255; 217]
             (apply_op (OpWrite [2; 0; 255; 216; 1; 2])
                (UVCDeframer_new (Some (fun _ => 0))))
             (in_use_op _ _ (in_use_new _))).
  - vm_compute. reflexivity.
  - vm_compute. reflexivity.
Defined.


(** *** The fixed buffer *)

Lemma in_use_fill_ok s :
  in_use s -> fFixedBufferSize s = 4 * 1024 * 1024 /\ fill_ok s.
Proof.
  induction 1 as [buffer | o s _ [IH1 IH2] | s _ IH].
  - unfold fill_ok. cbn. split; [reflexivity | lia].
  - destruct o; cbn [apply_op]; try (split; assumption).
    + destruct (Write_fixed buf s IH2) as (W1 & W2 & _).
      split; [congruence | exact W2].
    + unfold fill_ok. cbn. split; [exact IH1 | lia].
  - exact IH.
Qed.

(** X5: the fixed buffer is never overrun while the expected size fits.  In
    every state of a deframer in use the fixed buffer has 4 MiB and the fill
    position lies within it.  When the expected frame size is at most the
    buffer size (in particular in marker-delimited mode, where it is 0),
    [Write] changes no byte outside the buffer: a payload that does not fit
    is not copied, and padding stops at the expected size. *)
Theorem Write_stays_inside_fixed_buffer buf s m :
  in_use s ->
  fFixedBuffer s = Some m ->
  fExpectedFrameSize s <= fFixedBufferSize s ->
  fFixedBufferSize s = 4194304 /\
  0 <= fFixedBufferPos s <= fFixedBufferSize s /\
  exists m',
    fFixedBuffer (snd (Write buf s)) = Some m' /\
    forall i, i < 0 \/ fFixedBufferSize s <= i -> m' i = m i.
Proof.
  intros Hu Hm HE. destruct (in_use_fill_ok s Hu) as [Hs Hf].
  split; [exact Hs|]. split; [exact Hf|].
  destruct (Write_fixed buf s Hf) as (_ & _ & W).
  apply (W HE m). exists m. auto.
Qed.

Lemma Write_stays_inside_fixed_buffer_witness :
  exists m',
    fFixedBuffer (snd (Write [2; 2; 1; 2; 3]
                         (apply_op (OpSetExpectedFrameSize 16)
                            (UVCDeframer_new (Some (fun _ => 7)))))) = Some m' /\
    forall i, i < 0 \/ 4194304 <= i -> m' i = 7.
Proof.
  destruct (Write_stays_inside_fixed_buffer [2; 2; 1; 2; 3]
              (apply_op (OpSetExpectedFrameSize 16) (UVCDeframer_new (Some (fun _ => 7))))
              (fun _ => 7) (in_use_op _ _ (in_use_new _)) eq_refl)
    as (_ & _ & m' & H1 & H2).
  - vm_compute. discriminate.
  - exists m'. split; [exact H1 | exact H2].
Defined.


(** X6: padding does not look at the buffer size.  When the expected frame
    size exceeds the 4 MiB fixed buffer (a frame of more than 2 097 152
    pixels), a well-formed packet with payload and EOF that finds a frame
    to fill makes [Write] pad from the fill position [p] up to the expected
    size: every offset from the end of the buffer up to the expected size is
    written with the padding pattern, and the frame queued has the expected
    size, its tail read from beyond the buffer. *)
Theorem eof_padding_ignores_buffer_size buf s m :
  in_use s ->
  fFixedBuffer s = Some m ->
  fFixedBufferSize s < fExpectedFrameSize s ->
  header_invalid buf = false -> 0 < payload_size buf -> eof_bit buf = true ->
  frame_available s = true ->
  exists m' p f,
    fFixedBuffer (snd (Write buf s)) = Some m' /\
    0 <= p <= fFixedBufferSize s /\
    (forall i, fFixedBufferSize s <= i < fExpectedFrameSize s ->
       m' i = nth (Z.to_nat ((i - p) mod 4)) padPattern 0) /\
    fFrames (base (snd (Write buf s))) = fFrames (base s) ++ [f] /\
    BufferLength f = fExpectedFrameSize s.
Proof.
  intros Hu Hm HE Hh Hp Heof Hav.
  pose proof (in_use_inv s Hu) as Hinv.
  destruct (in_use_fill_ok s Hu) as [Hs Hf].
  unfold Write. rewrite Hh. unfold payload_size in Hp.
  replace (Z.of_nat (length buf) - nth 0 buf 0 =? 0) with false
    by (symmetry; apply Z.eqb_neq; lia).
  rewrite Heof.
  set (s0 := set_fPacketsThisFrame (fPacketsThisFrame s + 1) s).
  set (s1 := if negb (fid_bit buf =? fID s0) then on_fid_change buf s0 else s0).
  assert (H1 : inv s1 /\ base s1 = base s /\
               fFixedBufferSize s1 = fFixedBufferSize s /\
               fExpectedFrameSize s1 = fExpectedFrameSize s /\
               fFixedBuffer s1 = Some m /\ fill_ok s1).
  { subst s1. destruct (negb _);
      [|split; [exact Hinv|]; split; [reflexivity|]; split; [reflexivity|];
        split; [reflexivity|]; split; [exact Hm | exact Hf]].
    destruct (on_fid_change_fixed buf s0) as (F1 & F2 & F3 & F4).
    split; [split; [apply base_inv_on_fid_change; apply Hinv | reflexivity]|].
    split; [rewrite on_fid_change_idle by apply Hinv; reflexivity|].
    split; [exact F1|]. split; [exact F2|]. split; [now rewrite F3|].
    unfold fill_ok. rewrite F4, F1. destruct Hf. cbn. lia. }
  destruct H1 as (I1 & B1 & S1 & E1 & M1 & F1). clearbody s1.
  destruct (ensure_frame_some s1) as [s2 E].
  { unfold frame_available in Hav. rewrite B1.
    destruct (fCurrentFrame (base s)); [left; discriminate | right; now zb]. }
  rewrite E. cbn [snd].
  destruct (ensure_frame_spec _ _ I1 E) as (Hc & Hfr & _ & _).
  destruct (ensure_frame_fixed _ _ E) as (S2 & E2 & M2 & P2).
  assert (F2 : fill_ok s2) by (unfold fill_ok; rewrite P2, S2; exact F1).
  unfold assemble, frame_complete.
  set (s2' := set_fTotalBytesThisFrame _ s2).
  destruct (append_payload_fixed buf (Z.of_nat (length buf) - nth 0 buf 0) s2' F2)
    as (A1 & A2 & _ & A4).
  destruct (A4 m) as (m3 & M3 & _).
  { exists m. split; [cbn; now rewrite M2, M1 | auto]. }
  assert (AE : fExpectedFrameSize (append_payload buf
                 (Z.of_nat (length buf) - nth 0 buf 0) s2') = fExpectedFrameSize s)
    by (rewrite append_payload_expected; cbn; congruence).
  assert (AB : base (append_payload buf
                 (Z.of_nat (length buf) - nth 0 buf 0) s2') = base s2)
    by now rewrite append_payload_base.
  change (fFixedBufferSize s2') with (fFixedBufferSize s2) in A1.
  set (s3 := append_payload buf _ s2') in *. clearbody s3. clear s2' A4.
  rewrite AE.
  replace (0 <? fExpectedFrameSize s) with true
    by (symmetry; apply Z.ltb_lt; destruct Hf; lia).
  assert (P3 : 0 <= fFixedBufferPos s3 <= fFixedBufferSize s)
    by (destruct A2; split; [assumption | congruence]).
  destruct (pad_on_eof_yuy2 s3 m3 M3) as (_ & Bb & Bp & m4 & M4 & M4');
    [rewrite AE; lia|].
  destruct (pad_on_eof_fixed s3 A2) as (_ & BE & _).
  destruct (complete_frame_yuy2 (pad_on_eof s3) m4 M4)
    as (_ & _ & _ & C4 & _ & _ & _ & C8);
    [rewrite BE, AE; destruct Hf; lia | now rewrite BE | now rewrite Bb, AB |].
  rewrite BE, AE, Bb, AB, Hfr, B1 in C8.
  exists m4, (fFixedBufferPos s3), (io_write io_empty (mem_read m4 0 (fExpectedFrameSize s))).
  split; [exact C4|]. split; [exact P3|]. split.
  - intros i Hi. rewrite M4', AE.
    replace (fFixedBufferPos s3 <=? i) with true by (symmetry; apply Z.leb_le; lia).
    replace (i <? fExpectedFrameSize s) with true by (symmetry; apply Z.ltb_lt; lia).
    reflexivity.
  - split; [exact C8|]. apply published_frame_length. destruct Hf. lia.
Qed.

(** Expected size 4 MiB + 8 on a new deframer, one packet with EOF. *)
Definition oversized : UVCDeframer :=
  apply_op (OpSetExpectedFrameSize 4194312) (UVCDeframer_new (Some (fun _ => 7))).

Lemma eof_padding_ignores_buffer_size_witness :
  exists m' p f,
    fFixedBuffer (snd (Write [2; 2; 1; 2] oversized)) = Some m' /\
    0 <= p <= fFixedBufferSize oversized /\
    (forall i, fFixedBufferSize oversized <= i < fExpectedFrameSize oversized ->
       m' i = nth (Z.to_nat ((i - p) mod 4)) padPattern 0) /\
    fFrames (base (snd (Write [2; 2; 1; 2] oversized)))
    = fFrames (base oversized) ++ [f] /\
    BufferLength f = fExpectedFrameSize oversized.
Proof.
  apply (eof_padding_ignores_buffer_size [2; 2; 1; 2] oversized (fun _ => 7)
           (in_use_op _ _ (in_use_new _)) eq_refl).
  - vm_compute. reflexivity.
  - vm_compute. reflexivity.
  - vm_compute. reflexivity.
  - vm_compute. reflexivity.
  - vm_compute. reflexivity.
Defined.


(** *** [CamDeframer::FindTags] *)

(** Conversion to [int]. *)
Definition to_int32 (v : Z) : Z := (v + 2 ^ 31) mod 2 ^ 32 - 2 ^ 31.

(** [memcmp(a + off, b, n) == 0]. *)
Definition memcmp_eq (a : mem) (off : Z) (b : mem) (n : Z) : bool :=
  forallb (fun k => a (off + Z.of_nat k) =? b (Z.of_nat k)) (seq 0 (Z.to_nat n)).

(** The inner loop [for (t = 0; t < tagcount; t++)] at position [i],
    entered at tag number [t] with the tags from there on: the number of
    the first tag found at [buf + i]. *)
Fixpoint match_tag (buf : mem) (i : Z) (tags : list mem) (taglen t : Z) : option Z :=
  match tags with
  | [] => None
  | tag :: rest =>
      if memcmp_eq buf i tag taglen then Some t
      else match_tag buf i rest taglen (t + 1)
  end.

(** The outer loop, entered at [i] with [n] positions to go: the returned
    position and what is stored through [which]. *)
Fixpoint find_from (n : nat) (buf : mem) (i : Z) (tags : list mem) (taglen : Z)
  : Z * option Z :=
  match n with
  | O => (-1, None)
  | S n' =>
      match match_tag buf i tags taglen 0 with
      | Some t => (i, Some t)
      | None => find_from n' buf (i + 1) tags taglen
      end
  end.

(** [CamDeframer::FindTags(buf, buflen, tags, tagcount, taglen, skiplen,
    which)] with [tagcount = length tags] and a non-NULL [which]. *)
Definition FindTags (buf : mem) (buflen : Z) (tags : list mem) (taglen skiplen : Z)
  : Z * option Z :=
  if buflen <? skiplen then (-1, None)
  else find_from (Z.to_nat (to_int32 (to_size_t (buflen - skiplen + 1)))) buf 0 tags taglen.

Lemma match_tag_spec buf i taglen tags : forall t0,
  match match_tag buf i tags taglen t0 with
  | Some t =>
      exists k tag, t = t0 + Z.of_nat k /\ nth_error tags k = Some tag /\
        memcmp_eq buf i tag taglen = true /\
        forall k' tag', (k' < k)%nat -> nth_error tags k' = Some tag' ->
          memcmp_eq buf i tag' taglen = false
  | None => forall tag, In tag tags -> memcmp_eq buf i tag taglen = false
  end.
Proof.
  induction tags as [|tag rest IH]; intros t0; cbn [match_tag].
  - intros tag [].
  - destruct (memcmp_eq buf i tag taglen) eqn:M.
    + exists 0%nat, tag. rewrite Z.add_0_r. repeat split; auto.
      intros k' tag' Hk. lia.
    + specialize (IH (t0 + 1)). destruct (match_tag buf i rest taglen (t0 + 1)).
      * destruct IH as (k & tg & H1 & H2 & H3 & H4).
        exists (S k), tg. repeat split; auto; [lia|].
        intros [|k'] tag' Hk Hn; [injection Hn as <-; exact M|].
        apply (H4 k'); [lia | exact Hn].
      * intros tg [<- | Hin]; [exact M | now apply IH].
Qed.

Lemma find_from_spec buf tags taglen n : forall i,
  match find_from n buf i tags taglen with
  | (p, Some t) =>
      i <= p < i + Z.of_nat n /\
      (exists k tag, t = Z.of_nat k /\ nth_error tags k = Some tag /\
         memcmp_eq buf p tag taglen = true /\
         forall k' tag', (k' < k)%nat -> nth_error tags k' = Some tag' ->
           memcmp_eq buf p tag' taglen = false) /\
      forall p' tag', i <= p' < p -> In tag' tags ->
        memcmp_eq buf p' tag' taglen = false
  | (r, None) =>
      r = -1 /\
      forall p' tag', i <= p' < i + Z.of_nat n -> In tag' tags ->
        memcmp_eq buf p' tag' taglen = false
  end.
Proof.
  induction n as [|n IH]; intros i; cbn [find_from].
  - split; [reflexivity|]. intros; lia.
  - pose proof (match_tag_spec buf i taglen tags 0) as M.
    destruct (match_tag buf i tags taglen 0) as [t|].
    + split; [lia|]. split; [exact M|]. intros; lia.
    + specialize (IH (i + 1)).
      destruct (find_from n buf (i + 1) tags taglen) as [p [t|]].
      * destruct IH as (H1 & H2 & H3). split; [lia|]. split; [exact H2|].
        intros p' tag' Hp Hin. destruct (Z.eq_dec p' i) as [-> | Hne];
          [now apply M | apply H3; [lia | exact Hin]].
      * destruct IH as (H1 & H2). split; [exact H1|].
        intros p' tag' Hp Hin. destruct (Z.eq_dec p' i) as [-> | Hne];
          [now apply M | apply H2; [lia | exact Hin]].
Qed.

(** X7: [FindTags] finds the first tag.  For a buffer shorter than the skip
    length the result is -1 and [which] is left alone.  Otherwise the search
    covers the positions 0 <= p < [n], where [n] is [buflen - skiplen + 1]
    converted to [int]: when some tag occurs at one of them the result is
    the first such position and [which] receives the lowest-numbered tag
    found there; when none does the result is -1.  For [buflen] below
    2^31 - 1 the conversion changes nothing, so the positions are 0 to
    [buflen - skiplen]; for [buflen - skiplen + 1] from 2^31 up to 2^32 it
    gives a negative [n], and the result is -1 without any comparison. *)
Theorem FindTags_first_match buf buflen tags taglen skiplen :
  let n := to_int32 (to_size_t (buflen - skiplen + 1)) in
  (buflen < skiplen -> FindTags buf buflen tags taglen skiplen = (-1, None)) /\
  (skiplen <= buflen ->
   match FindTags buf buflen tags taglen skiplen with
   | (p, Some t) =>
       0 <= p < n /\
       (exists k tag, t = Z.of_nat k /\ nth_error tags k = Some tag /\
          memcmp_eq buf p tag taglen = true /\
          forall k' tag', (k' < k)%nat -> nth_error tags k' = Some tag' ->
            memcmp_eq buf p tag' taglen = false) /\
       forall p' tag', 0 <= p' < p -> In tag' tags ->
         memcmp_eq buf p' tag' taglen = false
   | (r, None) =>
       r = -1 /\
       forall p' tag', 0 <= p' < n -> In tag' tags ->
         memcmp_eq buf p' tag' taglen = false
   end) /\
  (0 <= skiplen <= buflen -> buflen < 2 ^ 31 - 1 -> n = buflen - skiplen + 1) /\
  (2 ^ 31 <= buflen - skiplen + 1 < 2 ^ 32 ->
   n < 0 /\ FindTags buf buflen tags taglen skiplen = (-1, None)).
Proof.
  intros n. unfold FindTags. fold n.
  split; [|split; [|split]].
  - intros Hlt. apply Z.ltb_lt in Hlt. now rewrite Hlt.
  - intros Hle. replace (buflen <? skiplen) with false
      by (symmetry; apply Z.ltb_ge; lia).
    pose proof (find_from_spec buf tags taglen (Z.to_nat n) 0) as F.
    destruct (find_from _ buf 0 tags taglen) as [p [t|]].
    + destruct F as (F1 & F2 & F3). split; [lia|]. split; [exact F2 | exact F3].
    + destruct F as (F1 & F2). split; [exact F1|].
      intros p' tag' Hp Hin. apply F2; [lia | exact Hin].
  - intros Hs Hb. subst n. change (2 ^ 31) with 2147483648 in Hb.
    unfold to_int32, to_size_t, size_t_mod.
    change (2 ^ 64) with 18446744073709551616.
    change (2 ^ 32) with 4294967296. change (2 ^ 31) with 2147483648.
    rewrite (Z.mod_small (buflen - skiplen + 1)) by lia.
    rewrite Z.mod_small by lia. lia.
  - intros Hb. change (2 ^ 31) with 2147483648 in Hb.
    change (2 ^ 32) with 4294967296 in Hb.
    assert (Hn : n = buflen - skiplen + 1 - 4294967296).
    { subst n. unfold to_int32, to_size_t, size_t_mod.
      change (2 ^ 64) with 18446744073709551616.
      change (2 ^ 32) with 4294967296. change (2 ^ 31) with 2147483648.
      rewrite (Z.mod_small (buflen - skiplen + 1)) by lia.
      replace (buflen - skiplen + 1 + 2147483648)
        with (buflen - skiplen + 1 - 2147483648 + 1 * 4294967296) by lia.
      rewrite Z.mod_add by lia. rewrite Z.mod_small by lia. lia. }
    split; [lia|].
    replace (buflen <? skiplen) with false by (symmetry; apply Z.ltb_ge; lia).
    replace (Z.to_nat n) with 0%nat by lia. reflexivity.
Qed.

(** The JPEG start marker FF D8 sought in 01 02 FF D8 03. *)
Definition bytes_at (l : list Z) : mem := fun i => nth (Z.to_nat i) l 0.

Lemma FindTags_first_match_witness :
  FindTags (bytes_at [1; 2; 255; 216; 3]) 1 [bytes_at [255; 216]] 2 2 = (-1, None) /\
  FindTags (bytes_at [1; 2; 255; 216; 3]) 5 [bytes_at [255; 216]] 2 2 = (2, Some 0).
Proof.
  split.
  - apply (proj1 (FindTags_first_match (bytes_at [1; 2; 255; 216; 3]) 1
                    [bytes_at [255; 216]] 2 2)).
    lia.
  - pose proof (FindTags_first_match (bytes_at [1; 2; 255; 216; 3]) 5
                  [bytes_at [255; 216]] 2 2) as (_ & H & _).
    specialize (H ltac:(lia)).
    destruct (FindTags (bytes_at [1; 2; 255; 216; 3]) 5 [bytes_at [255; 216]] 2 2)
      as [p [t|]].
    + destruct H as (Hp & (k & tag & Ht & Hk & Hm & _) & Hfirst).
      change (to_int32 (to_size_t (5 - 2 + 1))) with 4 in Hp.
      destruct k as [|k]; [|destruct k; discriminate Hk].
      injection Hk as <-. subst t.
      assert (Hc : p = 0 \/ p = 1 \/ p = 2 \/ p = 3) by lia.
      destruct Hc as [-> | [-> | [-> | ->]]]; try discriminate Hm. reflexivity.
    + destruct H as (_ & H).
      specialize (H 2 (bytes_at [255; 216]) ltac:(vm_compute; split; [discriminate | reflexivity])
                    (or_introl eq_refl)).
      discriminate H.
Defined.

End DeframerFacts.


(** * More on the transfer pump: any buffer, any descriptors *)

Module PumpFacts.

Import Pump.

(** The slices the descriptor loop hands on, as (offset, length): those of
    the descriptors that pass the status test and the bounds check of lines
    1058-1070, started at descriptor [i]. *)
Fixpoint forwarded_slices (slot len i : Z) (ds : list usb_iso_packet_descriptor)
  : list (Z * Z) :=
  match ds with
  | [] => []
  | d :: rest =>
      if (status d =? B_OK) && (0 <? actual_length d)
         && (i * slot + actual_length d <=? len)
      then (i * slot, actual_length d) :: forwarded_slices slot len (i + 1) rest
      else forwarded_slices slot len (i + 1) rest
  end.

Definition read_slice (buffer : mem) (sl : Z * Z) : list Z :=
  mem_read buffer (fst sl) (snd sl).

Definition slice_inside (len : Z) (sl : Z * Z) : Prop :=
  0 <= fst sl /\ 0 < snd sl /\ fst sl + snd sl <= len.

Lemma numPacketDescriptors_range dev : 2 <= numPacketDescriptors dev <= 32.
Proof.
  unfold numPacketDescriptors, kMaxPacketDescriptors, kMinPacketDescriptors.
  destruct (32 <? fBufferLen dev / packetSize dev) eqn:A.
  - cbn. lia.
  - apply Z.ltb_ge in A.
    destruct (fBufferLen dev / packetSize dev <? 2) eqn:B;
      [lia | apply Z.ltb_ge in B; lia].
Qed.

Lemma slotSize_nonneg dev : 0 <= fBufferLen dev -> 0 <= slotSize dev.
Proof.
  intros Hlen. pose proof (numPacketDescriptors_range dev) as Hn.
  unfold slotSize. apply Z.div_pos; lia.
Qed.

(** X8: the descriptor slots tile the buffer.  Whatever the packet size, and
    for any buffer length below 2^31 (where the quotient converts to [int]
    unchanged), the pump uses between 2 and 32 descriptors (the array has
    32), and the slots of [slotSize] bytes it assigns to them lie one after
    the other within the transfer buffer. *)
Theorem descriptor_slots_fit dev :
  0 <= fBufferLen dev < 2 ^ 31 ->
  kMinPacketDescriptors <= numPacketDescriptors dev <= kMaxPacketDescriptors /\
  0 < packetSize dev /\
  0 <= slotSize dev /\
  numPacketDescriptors dev * slotSize dev <= fBufferLen dev.
Proof.
  intros [Hlen _]. pose proof (numPacketDescriptors_range dev) as Hn.
  split; [exact Hn|]. split.
  - unfold packetSize. destruct (0 <? fIsoMaxPacketSize dev) eqn:A;
      [apply Z.ltb_lt in A; exact A | lia].
  - split; [now apply slotSize_nonneg|].
    unfold slotSize. apply Z.mul_div_le. lia.
Qed.

Lemma descriptor_slots_fit_witness :
  numPacketDescriptors (mkDev 0 (fun _ => 0) 100 0 0) = 2 /\
  numPacketDescriptors (mkDev 0 (fun _ => 0) 100 0 0)
  * slotSize (mkDev 0 (fun _ => 0) 100 0 0) <= 100.
Proof.
  split; [reflexivity|].
  apply (descriptor_slots_fit (mkDev 0 (fun _ => 0) 100 0 0)). cbn. lia.
Defined.

Lemma forwarded_slices_inside slot len ds : forall i,
  0 <= slot -> 0 <= i ->
  Forall (slice_inside len) (forwarded_slices slot len i ds).
Proof.
  induction ds as [|d rest IH]; intros i Hs Hi; cbn [forwarded_slices];
    [constructor|].
  destruct ((status d =? B_OK) && (0 <? actual_length d)
            && (i * slot + actual_length d <=? len)) eqn:G.
  - rewrite !andb_true_iff in G. destruct G as [[_ G1] G2].
    apply Z.ltb_lt in G1. apply Z.leb_le in G2.
    constructor; [|apply IH; lia].
    unfold slice_inside. cbn [fst snd]. repeat split; [nia | lia | lia].
  - apply IH; lia.
Qed.

Lemma forwarded_slices_length slot len ds : forall i,
  (length (forwarded_slices slot len i ds) <= length ds)%nat.
Proof.
  induction ds as [|d rest IH]; intros i; cbn [forwarded_slices length]; [lia|].
  destruct (_ && _); cbn [length]; specialize (IH (i + 1)); lia.
Qed.

Section AnySink.

Variable Sink : Type.
Variable sink_Write : list Z -> Sink -> Sink.

Lemma process_packets_any p buffer len ds : forall i succ err sink k1 k2,
  let slot := slotSize (mkDev p buffer len 0 0) in
  process_packets Sink sink_Write i ds
    (mkDev p buffer len (to_uint32 (succ + k1)) (to_uint32 (err + k2)), sink)
  = (mkDev p buffer len
       (to_uint32 (succ + (k1 + Z.of_nat (length (forwarded_slices slot len i ds)))))
       (to_uint32 (err + (k2 + count_failed ds))),
     write_each Sink sink_Write
       (map (read_slice buffer) (forwarded_slices slot len i ds)) sink).
Proof.
  induction ds as [|d rest IH]; intros i succ err sink k1 k2 slot.
  - cbn. now rewrite !Z.add_0_r.
  - cbn [process_packets process_packet forwarded_slices].
    change (slotSize (mkDev p buffer len (to_uint32 (succ + k1)) (to_uint32 (err + k2))))
      with slot.
    cbn [fBufferLen fIsoMaxPacketSize fBuffer fPacketSuccessCount fPacketErrorCount].
    unfold count_failed. cbn [filter].
    destruct (status d =? B_OK) eqn:Hs; cbn [negb andb].
    + destruct ((0 <? actual_length d) && (i * slot + actual_length d <=? len)) eqn:G.
      * rewrite to_uint32_succ. rewrite IH. fold slot.
        cbn [length map write_each fold_left]. unfold count_failed, read_slice.
        cbn [fst snd].
        f_equal. f_equal; apply (f_equal to_uint32); lia.
      * rewrite IH. fold slot. unfold count_failed. reflexivity.
    + rewrite to_uint32_succ. rewrite IH. fold slot.
      cbn [length]. unfold count_failed.
      f_equal. f_equal; apply (f_equal to_uint32); lia.
Qed.

(** X9: the pump never reads outside the transfer buffer.  For any buffer
    length below 2^31, any packet size and any descriptor contents (lengths the transport
    reports are not trusted), one completed transfer hands the sink, in
    order, exactly the slices of the descriptors with status OK whose
    length is positive and whose slot offset plus length stays within the
    buffer; every such slice lies inside the buffer, there are at most 32,
    [fPacketSuccessCount] goes up by their number and [fPacketErrorCount] by
    the number of descriptors with another status. *)
Theorem pump_reads_inside_buffer dev sink descs :
  0 <= fBufferLen dev < 2 ^ 31 ->
  0 <= fPacketSuccessCount dev < uint32_mod ->
  0 <= fPacketErrorCount dev < uint32_mod ->
  let ds := firstn (Z.to_nat (numPacketDescriptors dev)) descs in
  let slices := forwarded_slices (slotSize dev) (fBufferLen dev) 0 ds in
  let res := process_transfer Sink sink_Write descs (dev, sink) in
  Forall (slice_inside (fBufferLen dev)) slices /\
  (length slices <= 32)%nat /\
  snd res = write_each Sink sink_Write (map (read_slice (fBuffer dev)) slices) sink /\
  fPacketSuccessCount (fst res)
  = to_uint32 (fPacketSuccessCount dev + Z.of_nat (length slices)) /\
  fPacketErrorCount (fst res) = to_uint32 (fPacketErrorCount dev + count_failed ds).
Proof.
  intros [Hlen _] Hs He ds slices res.
  pose proof (numPacketDescriptors_range dev) as Hn.
  pose proof (slotSize_nonneg dev Hlen) as Hslot.
  split; [apply forwarded_slices_inside; [exact Hslot | lia]|].
  split.
  { pose proof (forwarded_slices_length (slotSize dev) (fBufferLen dev) ds 0) as H1.
    fold slices in H1. assert (length ds <= 32)%nat; [|lia].
    subst ds. rewrite length_firstn. lia. }
  subst res. unfold process_transfer. cbn [fst]. fold ds.
  destruct dev as [p buffer len succ err].
  cbn [fIsoMaxPacketSize fBufferLen fBuffer fPacketSuccessCount fPacketErrorCount] in *.
  pose proof (process_packets_any p buffer len ds 0 succ err sink 0 0) as HP.
  cbv zeta in HP. rewrite !Z.add_0_r, !Z.add_0_l in HP.
  unfold to_uint32 in HP at 1 2. rewrite !Z.mod_small in HP by assumption.
  change (slotSize (mkDev p buffer len 0 0)) with (slotSize (mkDev p buffer len succ err)) in HP.
  fold slices in HP. rewrite HP.
  cbn [fst snd fPacketSuccessCount fPacketErrorCount]. auto.
Qed.

End AnySink.

(** A 16-byte buffer with 4-byte packets gives 4 slots; descriptor 0
    reports 4 bytes, descriptor 1 reports 9 (more than is left of the
    buffer), descriptor 2 failed, descriptor 3 reports 2. *)
Definition odd_dev : CamDevice := mkDev 4 demo_buffer 16 0 0.
Definition odd_descs : list usb_iso_packet_descriptor :=
  [mkDesc 4 4 B_OK; mkDesc 4 13 B_OK; mkDesc 4 1 B_ERROR; mkDesc 4 2 B_OK].

Lemma pump_reads_inside_buffer_witness :
  snd (process_transfer _ record_Write odd_descs (odd_dev, []))
  = [[0; 1; 2; 3]; [12; 13]] /\
  fPacketSuccessCount (fst (process_transfer _ record_Write odd_descs (odd_dev, []))) = 2.
Proof.
  destruct (pump_reads_inside_buffer _ record_Write odd_dev [] odd_descs)
    as (_ & _ & H3 & H4 & _).
  - cbn. lia.
  - vm_compute. split; [discriminate | reflexivity].
  - vm_compute. split; [discriminate | reflexivity].
  - split; [rewrite H3 | rewrite H4]; vm_compute; reflexivity.
Defined.

End PumpFacts.


(** * More on alternate selection: available bandwidth, repeated selection,
      high-bandwidth demotion *)

Module NegotiatorFacts.

Import Negotiator.

(** The body of the inner loop of [_GetMaxAvailableBandwidth] (lines
    1452-1471) for one endpoint. *)
Definition max_endpoint (allowHighBandwidth : bool) (ep : BUSBEndpoint)
    (maxBandwidth : Z) : Z :=
  if negb (IsIsochronous ep) || negb (IsInput ep) then maxBandwidth
  else
    let totalBandwidth := to_uint32 (basePacketSize ep * transactions ep) in
    if (1 <? transactions ep) && negb allowHighBandwidth then maxBandwidth
    else
      let effectiveBandwidth :=
        if (1 <? transactions ep) && allowHighBandwidth
        then totalBandwidth else basePacketSize ep in
      if maxBandwidth <? effectiveBandwidth then effectiveBandwidth
      else maxBandwidth.

(** [UVCCamDevice::_GetMaxAvailableBandwidth] for a non-NULL [fDevice] with
    an active configuration; [streaming] is as for [_SelectBestAlternate]. *)
Definition _GetMaxAvailableBandwidth (disableHighBW forceHighBW : option String.string)
    (streaming : option (list (list BUSBEndpoint))) (c : UVCCamDevice) : Z :=
  match streaming with
  | None => 0
  | Some alternates =>
      fold_left
        (fun maxBandwidth alternate =>
           fold_left
             (fun maxBandwidth ep =>
                max_endpoint (_ShouldUseHighBandwidth disableHighBW forceHighBW c)
                  ep maxBandwidth)
             alternate maxBandwidth)
        alternates 0
  end.

Lemma scan_endpoint_bw allow i j ep acc :
  fst (fst (scan_endpoint allow i j ep acc)) = max_endpoint allow ep (fst (fst acc)).
Proof.
  destruct acc as [[b ai] ei]. unfold scan_endpoint, max_endpoint, maxPacketSize.
  cbn [fst].
  destruct (negb (IsIsochronous ep) || negb (IsInput ep)); [reflexivity|].
  destruct ((1 <? transactions ep) && negb allow); [reflexivity|].
  destruct (b <? _); reflexivity.
Qed.

Lemma scan_endpoints_bw allow i eps : forall j acc,
  fst (fst (scan_endpoints allow i j eps acc))
  = fold_left (fun m ep => max_endpoint allow ep m) eps (fst (fst acc)).
Proof.
  induction eps as [|ep rest IH]; intros j acc; cbn [scan_endpoints fold_left];
    [reflexivity|].
  now rewrite IH, scan_endpoint_bw.
Qed.

Lemma scan_alternates_bw allow alts : forall i acc,
  fst (fst (scan_alternates allow i alts acc))
  = fold_left
      (fun m a => fold_left (fun m ep => max_endpoint allow ep m) a m)
      alts (fst (fst acc)).
Proof.
  induction alts as [|a rest IH]; intros i acc; cbn [scan_alternates fold_left];
    [reflexivity|].
  now rewrite IH, scan_endpoints_bw.
Qed.

(** X10: selection and [_GetMaxAvailableBandwidth] agree.  On the same
    alternates and environment, [_GetMaxAvailableBandwidth] returns the
    bandwidth that [_SelectBestAlternate] stores in [fIsoMaxPacketSize]
    whenever it gets as far as choosing an endpoint (results [B_OK] and
    [B_NO_MEMORY]); when it returns 0 the selection fails and leaves the
    device as it was. *)
Theorem selection_takes_max_available_bandwidth disableHighBW forceHighBW
    streaming setAlternate malloc_result c :
  let bw := _GetMaxAvailableBandwidth disableHighBW forceHighBW streaming c in
  let r := _SelectBestAlternate disableHighBW forceHighBW streaming setAlternate
             malloc_result c in
  0 <= bw /\
  (bw = 0 -> (fst r = B_ERROR \/ fst r = B_BAD_INDEX) /\ snd r = c) /\
  (fst r = B_OK \/ fst r = B_NO_MEMORY -> 0 < bw /\ fIsoMaxPacketSize (snd r) = bw).
Proof.
  cbv zeta. unfold _GetMaxAvailableBandwidth, _SelectBestAlternate.
  destruct streaming as [alternates|].
  2:{ split; [lia|]. split; [auto|]. cbn. intros [H | H]; discriminate H. }
  set (allow := _ShouldUseHighBandwidth disableHighBW forceHighBW c).
  pose proof (scan_alternates_bw allow alternates 0 (0, 0%nat, 0%nat)) as Hbw.
  destruct (scan_alternates_spec allow alternates 0 (0, 0%nat, 0%nat)) as (U & _).
  cbn [fst] in Hbw, U. rewrite <- Hbw.
  destruct (scan_alternates allow 0 alternates (0, 0%nat, 0%nat)) as [[b ai] ei].
  cbn [fst] in *. split; [exact U|].
  destruct (b =? 0) eqn:Hb0; [apply Z.eqb_eq in Hb0 | apply Z.eqb_neq in Hb0].
  - split; [auto|]. cbn. intros [H | H]; discriminate H.
  - split; [intros H; now destruct Hb0|].
    destruct (negb (fCurrentVideoAlternate c =? Z.of_nat ai) && negb (setAlternate =? B_OK)).
    + cbn. intros [H | H]; discriminate H.
    + intros _. split; [lia|].
      destruct (_ || _); [destruct malloc_result|]; reflexivity.
Qed.

Lemma selection_takes_max_available_bandwidth_witness :
  _GetMaxAvailableBandwidth None None (Some demo_alternates) demo_cam = 3072 /\
  fIsoMaxPacketSize
    (snd (_SelectBestAlternate None None (Some demo_alternates) B_OK
            (Some (fun _ => 0)) demo_cam)) = 3072.
Proof.
  split; [reflexivity|].
  destruct (selection_takes_max_available_bandwidth None None (Some demo_alternates)
              B_OK (Some (fun _ => 0)) demo_cam) as (_ & _ & H).
  destruct H as [_ H]; [left; reflexivity|].
  rewrite H. reflexivity.
Defined.

(** X11: no usable endpoint, no selection.  When no alternate has an
    isochronous input endpoint of positive bandwidth that the scan may use
    (high-bandwidth endpoints count only while high bandwidth is allowed),
    [_SelectBestAlternate] returns [B_ERROR] without calling
    [SetAlternate] or touching the buffer: the device is exactly as
    before. *)
Theorem select_without_usable_endpoint disableHighBW forceHighBW alternates
    setAlternate malloc_result c :
  (forall i a j ep,
     nth_error alternates i = Some a -> nth_error a j = Some ep ->
     usable (_ShouldUseHighBandwidth disableHighBW forceHighBW c) ep = true ->
     effective ep = 0) ->
  _SelectBestAlternate disableHighBW forceHighBW (Some alternates) setAlternate
    malloc_result c = (B_ERROR, c).
Proof.
  intros Hnone. unfold _SelectBestAlternate.
  set (allow := _ShouldUseHighBandwidth disableHighBW forceHighBW c) in *.
  destruct (scan_alternates_spec allow alternates 0 (0, 0%nat, 0%nat)) as (_ & _ & W).
  destruct (scan_alternates allow 0 alternates (0, 0%nat, 0%nat)) as [[b ai] ei].
  destruct W as [W | (ia & a & k & ep & Wa & Wk & Wu & Wr & Wl)].
  - injection W as -> _ _. reflexivity.
  - cbn [fst] in Wl. rewrite (Hnone ia a k ep Wa Wk Wu) in Wl. lia.
Qed.

(** Only a bulk endpoint and an isochronous output endpoint. *)
Lemma select_without_usable_endpoint_witness :
  _SelectBestAlternate None None
    (Some [ []; [mkEp false true 512; mkEp true false 1024] ]) B_OK
    (Some (fun _ => 0)) demo_cam = (B_ERROR, demo_cam).
Proof.
  apply select_without_usable_endpoint.
  intros [|[|i]] a j ep Ha Hj Hu; cbn in Ha.
  - injection Ha as <-. destruct j; discriminate Hj.
  - injection Ha as <-.
    destruct j as [|[|j]]; cbn in Hj;
      [injection Hj as <-; discriminate Hu | injection Hj as <-; discriminate Hu |].
    destruct j; discriminate Hj.
  - destruct i; discriminate Ha.
Defined.

(** X12: selecting again is a no-op.  After a successful
    [_SelectBestAlternate], running it again on the same alternates
    succeeds with the device unchanged, whatever [SetAlternate] and
    [malloc] would return: the alternate is already current, so
    [SetAlternate] is not called, and the buffer already has the required
    size, so nothing is allocated. *)
Theorem select_again_changes_nothing disableHighBW forceHighBW alternates
    setAlternate malloc_result c c' :
  _SelectBestAlternate disableHighBW forceHighBW (Some alternates) setAlternate
    malloc_result c = (B_OK, c') ->
  forall setAlternate' malloc_result',
    _SelectBestAlternate disableHighBW forceHighBW (Some alternates) setAlternate'
      malloc_result' c' = (B_OK, c').
Proof.
  intros Hsel sa mr. unfold _SelectBestAlternate in *.
  assert (Hallow : forall x,
            (exists a i s b l h, x = set_selected a i s b l h c) ->
            _ShouldUseHighBandwidth disableHighBW forceHighBW x
            = _ShouldUseHighBandwidth disableHighBW forceHighBW c).
  { intros x (a & i & s & b & l & h & ->). reflexivity. }
  set (allow := _ShouldUseHighBandwidth disableHighBW forceHighBW c) in *.
  destruct (scan_alternates allow 0 alternates (0, 0%nat, 0%nat)) as [[b ai] ei] eqn:Hscan.
  destruct (b =? 0) eqn:Hb0; [discriminate Hsel|].
  destruct (negb (fCurrentVideoAlternate c =? Z.of_nat ai) && negb (setAlternate =? B_OK));
    [discriminate Hsel|].
  set (iso := option_map MaxPacketSize (nth_error (nth ai alternates []) ei)) in *.
  set (req := to_uint32 (b * 32)) in *.
  assert (Hc' : exists buf hb,
            c' = set_selected (Z.of_nat ai) iso b (Some buf) req hb c /\
            hb = match iso with
                 | Some raw => 1 <? Z.land (Z.shiftr raw 11) 3 + 1
                 | None => fUsingHighBandwidth c
                 end).
  { destruct (negb (req =? fBufferLen c)) eqn:Hne; cbn [orb] in Hsel.
    - destruct malloc_result as [m|]; [|discriminate Hsel].
      injection Hsel as <-. eauto.
    - rewrite negb_false_iff in Hne. apply Z.eqb_eq in Hne.
      destruct (fBuffer c) as [m0|] eqn:Hbuf.
      + injection Hsel as <-. exists m0. eexists. rewrite Hne. split; reflexivity.
      + destruct malloc_result as [m|]; [|discriminate Hsel].
        injection Hsel as <-. eauto. }
  destruct Hc' as (buf & hb & -> & Hhb).
  rewrite Hallow by eauto 10. rewrite Hscan, Hb0.
  cbn [set_selected fCurrentVideoAlternate fBufferLen fBuffer fUsingHighBandwidth].
  rewrite Z.eqb_refl. cbn [negb andb orb].
  assert (Hhb' : match iso with
                 | Some raw => 1 <? Z.land (Z.shiftr raw 11) 3 + 1
                 | None => hb
                 end = hb).
  { rewrite Hhb. destruct iso; reflexivity. }
  fold iso. fold req. rewrite Z.eqb_refl. cbn [negb orb].
  rewrite Hhb'. reflexivity.
Qed.

Lemma select_again_changes_nothing_witness :
  let c' := snd (_SelectBestAlternate None None (Some demo_alternates) B_OK
                   (Some (fun _ => 0)) demo_cam) in
  _SelectBestAlternate None None (Some demo_alternates) B_ERROR None c' = (B_OK, c').
Proof.
  cbv zeta.
  apply (select_again_changes_nothing None None demo_alternates B_OK
           (Some (fun _ => 0)) demo_cam).
  vm_compute. reflexivity.
Defined.


(** *** High-bandwidth auto-detection *)

(** The [uint32] member [fHighBandwidthFailures] beside the device
    record. *)
Definition hb_state := (Z * UVCCamDevice)%type.

(** [fHighBandwidthTested = true; fHighBandwidthWorks = works]. *)
Definition set_verdict (works : bool) (c : UVCCamDevice) : UVCCamDevice :=
  mkCam (fIsMJPEG c) (fMJPEGFormatIndex c) (fMJPEGFrameIndex c)
    (fUncompressedFormatIndex c) (fUncompressedFrameIndex c) (fStreamingIndex c)
    (header_version c) (fMaxVideoFrameSize c) (fMaxPayloadTransferSize c)
    (fCurrentVideoAlternate c) (fIsoIn c) (fIsoMaxPacketSize c) (fBuffer c)
    (fBufferLen c) true works (fUsingHighBandwidth c).

(** [UVCCamDevice::_OnHighBandwidthFailure]. *)
Definition _OnHighBandwidthFailure (st : hb_state) : hb_state :=
  let '(fHighBandwidthFailures, c) := st in
  let fHighBandwidthFailures := to_uint32 (fHighBandwidthFailures + 1) in
  let kFailureThreshold := 5 in
  if (kFailureThreshold <=? fHighBandwidthFailures) && fUsingHighBandwidth c
  then (fHighBandwidthFailures, set_verdict false c)
  else (fHighBandwidthFailures, c).

(** [UVCCamDevice::_ResetHighBandwidthState]. *)
Definition _ResetHighBandwidthState (st : hb_state) : hb_state :=
  let '(_, c) := st in
  if fUsingHighBandwidth c && negb (fHighBandwidthTested c)
  then (0, set_verdict true c)
  else (0, c).

Lemma failures_run n c :
  fUsingHighBandwidth c = true -> Z.of_nat n < uint32_mod ->
  Nat.iter n _OnHighBandwidthFailure (0, c)
  = (Z.of_nat n, if (n <? 5)%nat then c else set_verdict false c).
Proof.
  intros Hu. induction n as [|n IH]; intros Hn; [reflexivity|].
  rewrite Nat.iter_succ, IH by lia. unfold _OnHighBandwidthFailure.
  assert (Hw : to_uint32 (Z.of_nat n + 1) = Z.of_nat (S n)).
  { unfold to_uint32. rewrite Z.mod_small by lia. lia. }
  rewrite Hw.
  destruct (n <? 5)%nat eqn:A; [apply Nat.ltb_lt in A | apply Nat.ltb_ge in A].
  - rewrite Hu, andb_true_r.
    destruct (5 <=? Z.of_nat (S n)) eqn:B; [apply Z.leb_le in B | apply Z.leb_gt in B].
    + replace (S n <? 5)%nat with false by (symmetry; apply Nat.ltb_ge; lia).
      reflexivity.
    + replace (S n <? 5)%nat with true by (symmetry; apply Nat.ltb_lt; lia).
      reflexivity.
  - replace (S n <? 5)%nat with false by (symmetry; apply Nat.ltb_ge; lia).
    replace (5 <=? Z.of_nat (S n)) with true by (symmetry; apply Z.leb_le; lia).
    cbn [set_verdict fUsingHighBandwidth]. rewrite Hu. reflexivity.
Qed.

(** X13: five failures in a row demote high bandwidth.  While a
    high-bandwidth endpoint is in use, fewer than five consecutive calls of
    [_OnHighBandwidthFailure] (counted from 0) leave the device as it was;
    the fifth marks high bandwidth as tested and not working, further
    failures keep it so, and from then on [_ShouldUseHighBandwidth] answers
    no unless the environment forces it. *)
Theorem five_failures_demote_high_bandwidth n c :
  fUsingHighBandwidth c = true -> Z.of_nat n < uint32_mod ->
  let st := Nat.iter n _OnHighBandwidthFailure (0, c) in
  fst st = Z.of_nat n /\
  ((n < 5)%nat -> snd st = c) /\
  ((5 <= n)%nat ->
   fHighBandwidthTested (snd st) = true /\
   fHighBandwidthWorks (snd st) = false /\
   forall disableHighBW, _ShouldUseHighBandwidth disableHighBW None (snd st) = false).
Proof.
  intros Hu Hn. cbv zeta. rewrite failures_run by assumption. cbn [fst snd].
  split; [reflexivity|]. split.
  - intros H. apply Nat.ltb_lt in H. now rewrite H.
  - intros H. apply Nat.ltb_ge in H. rewrite H.
    split; [reflexivity|]. split; [reflexivity|].
    intros d. unfold _ShouldUseHighBandwidth. destruct (env_set d); reflexivity.
Qed.

Definition demo_cam_hb : UVCCamDevice :=
  mkCam false 2 1 1 1 1 256 0 0 2 (Some 5120) 3072 None 0 false true true.

Lemma five_failures_demote_high_bandwidth_witness :
  snd (Nat.iter 4 _OnHighBandwidthFailure (0, demo_cam_hb)) = demo_cam_hb /\
  _ShouldUseHighBandwidth None None
    (snd (Nat.iter 5 _OnHighBandwidthFailure (0, demo_cam_hb))) = false.
Proof.
  split.
  - apply (five_failures_demote_high_bandwidth 4 demo_cam_hb eq_refl eq_refl). lia.
  - apply (five_failures_demote_high_bandwidth 5 demo_cam_hb eq_refl eq_refl). lia.
Defined.

(** X14: demotion sticks, and the next selection honours it.  Once high
    bandwidth is marked tested and not working, neither a later transfer
    success ([_ResetHighBandwidthState]) nor a failure nor a selection
    changes that verdict; and, unless the environment forces high
    bandwidth, a selection that succeeds has chosen an endpoint with one
    transaction per microframe: [fUsingHighBandwidth] is false and
    [fIsoMaxPacketSize] is the endpoint's base packet size. *)
Theorem demotion_sticks disableHighBW forceHighBW alternates setAlternate
    malloc_result failures c :
  fHighBandwidthTested c = true -> fHighBandwidthWorks c = false ->
  env_set forceHighBW = false ->
  let demoted x := fHighBandwidthTested x = true /\ fHighBandwidthWorks x = false in
  let r := _SelectBestAlternate disableHighBW forceHighBW (Some alternates)
             setAlternate malloc_result c in
  demoted (snd (_OnHighBandwidthFailure (failures, c))) /\
  demoted (snd (_ResetHighBandwidthState (failures, c))) /\
  demoted (snd r) /\
  (fst r = B_OK ->
   fUsingHighBandwidth (snd r) = false /\
   exists i a j ep,
     nth_error alternates i = Some a /\ nth_error a j = Some ep /\
     transactions ep = 1 /\
     fIsoMaxPacketSize (snd r) = basePacketSize ep).
Proof.
  intros Ht Hw Hforce. cbv zeta.
  split; [|split; [|split]].
  - unfold _OnHighBandwidthFailure. destruct (_ && _); cbn; auto.
  - unfold _ResetHighBandwidthState. rewrite Ht. cbn [negb].
    rewrite andb_false_r. cbn. auto.
  - unfold _SelectBestAlternate.
    destruct (scan_alternates _ 0 alternates (0, 0%nat, 0%nat)) as [[b ai] ei].
    repeat match goal with
           | |- context [if ?x then _ else _] => destruct x
           | |- context [match ?x with _ => _ end] => destruct x
           end; cbn; auto.
  - assert (Hallow : _ShouldUseHighBandwidth disableHighBW forceHighBW c = false).
    { unfold _ShouldUseHighBandwidth. rewrite Hforce, Ht, Hw.
      destruct (env_set disableHighBW); reflexivity. }
    unfold _SelectBestAlternate. rewrite Hallow.
    destruct (scan_alternates_spec false alternates 0 (0, 0%nat, 0%nat)) as (_ & _ & W).
    destruct (scan_alternates false 0 alternates (0, 0%nat, 0%nat)) as [[b ai] ei].
    destruct (b =? 0) eqn:Hb0; [intros H; discriminate H|]. apply Z.eqb_neq in Hb0.
    destruct W as [W | (ia & a & k & ep & Wa & Wk & Wu & Wr & Wl)];
      [injection W as -> _ _; now destruct Hb0|].
    injection Wr as -> -> ->. cbn [Nat.add].
    assert (Hiso : option_map MaxPacketSize (nth_error (nth ia alternates []) k)
                   = Some (MaxPacketSize ep)).
    { erewrite nth_error_nth by exact Wa. now rewrite Wk. }
    rewrite Hiso.
    assert (Htr : transactions ep = 1).
    { unfold usable in Wu. rewrite !andb_true_iff, orb_true_iff in Wu.
      destruct Wu as [_ [T | T]]; [|discriminate T].
      rewrite negb_true_iff in T. apply Z.ltb_ge in T.
      destruct (decode_wMaxPacketSize ep) as (_ & _ & _ & D4). lia. }
    assert (Hhb : (1 <? Z.land (Z.shiftr (MaxPacketSize ep) 11) 3 + 1) = false).
    { change (Z.land (Z.shiftr (MaxPacketSize ep) 11) 3 + 1) with (transactions ep).
      rewrite Htr. reflexivity. }
    rewrite Hhb.
    assert (Heff : effective ep = basePacketSize ep).
    { unfold effective. rewrite Htr. lia. }
    destruct (negb (fCurrentVideoAlternate c =? Z.of_nat ia) && negb (setAlternate =? B_OK));
      [intros H; discriminate H|].
    destruct (_ || _); [destruct malloc_result; [|intros H; discriminate H]|];
      intros _; cbn [snd set_selected fUsingHighBandwidth fIsoMaxPacketSize];
      (split; [reflexivity|]); exists ia, a, k, ep; auto.
Qed.

(** [demo_cam_hb] after five failures, offered the alternates of
    [demo_alternates]: the 512-byte endpoint of alternate 1 is chosen, not
    the 3 x 1024 one. *)
Lemma demotion_sticks_witness :
  let c := snd (Nat.iter 5 _OnHighBandwidthFailure (0, demo_cam_hb)) in
  let r := _SelectBestAlternate None None (Some demo_alternates) B_OK
             (Some (fun _ => 0)) c in
  fst r = B_OK /\ fUsingHighBandwidth (snd r) = false /\
  fCurrentVideoAlternate (snd r) = 1 /\ fIsoMaxPacketSize (snd r) = 512.
Proof.
  cbv zeta.
  destruct (demotion_sticks None None demo_alternates B_OK (Some (fun _ => 0)) 5
              (snd (Nat.iter 5 _OnHighBandwidthFailure (0, demo_cam_hb)))
              eq_refl eq_refl eq_refl) as (_ & _ & _ & H).
  split; [reflexivity|]. split; [exact (proj1 (H eq_refl))|].
  split; reflexivity.
Defined.


(** *** [UVCCamDevice::StartTransfer] *)

(** What a successful selection leaves in the device. *)
Lemma select_ok_shape disableHighBW forceHighBW streaming setAlternate
    malloc_result c c' :
  _SelectBestAlternate disableHighBW forceHighBW streaming setAlternate
    malloc_result c = (B_OK, c') ->
  exists buf,
    0 < fIsoMaxPacketSize c' /\
    fBuffer c' = Some buf /\
    fBufferLen c' = fIsoMaxPacketSize c' * 32 /\
    fMaxVideoFrameSize c' = fMaxVideoFrameSize c /\
    fMaxPayloadTransferSize c' = fMaxPayloadTransferSize c.
Proof.
  unfold _SelectBestAlternate.
  destruct streaming as [alternates|]; [|intros H; discriminate H].
  set (allow := _ShouldUseHighBandwidth disableHighBW forceHighBW c).
  destruct (scan_alternates_spec allow alternates 0 (0, 0%nat, 0%nat)) as (_ & _ & W).
  destruct (scan_alternates allow 0 alternates (0, 0%nat, 0%nat)) as [[b ai] ei].
  destruct (b =? 0) eqn:Hb0; [intros H; discriminate H|]. apply Z.eqb_neq in Hb0.
  destruct W as [W | (ia & a & k & ep & Wa & Wk & Wu & Wr & Wl)];
    [injection W as -> _ _; now destruct Hb0|].
  injection Wr as -> -> ->. cbn [fst] in Wl.
  destruct (decode_wMaxPacketSize ep) as (_ & _ & D3 & D4).
  assert (Hfit : to_uint32 (effective ep * 32) = effective ep * 32).
  { unfold to_uint32, uint32_mod, effective. apply Z.mod_small.
    change (2 ^ 32) with 4294967296. nia. }
  rewrite Hfit.
  destruct (negb (fCurrentVideoAlternate c =? Z.of_nat ia) && negb (setAlternate =? B_OK));
    [intros H; discriminate H|].
  destruct (negb (effective ep * 32 =? fBufferLen c)) eqn:Hne; cbn [orb].
  - destruct malloc_result as [m|]; [|intros H; discriminate H].
    intros H. injection H as <-. exists m. cbn. auto.
  - rewrite negb_false_iff in Hne. apply Z.eqb_eq in Hne.
    destruct (fBuffer c) as [m0|] eqn:Hbuf.
    + intros H. injection H as <-. exists m0. cbn. auto.
    + destruct malloc_result as [m|]; [|intros H; discriminate H].
      intros H. injection H as <-. exists m. cbn. auto.
Qed.

Section Start.

Variable Device : Type.
Variable ControlTransfer_out :
  control_request -> usb_video_probe_and_commit_controls -> Device -> Z * Device.
Variable ControlTransfer_in :
  control_request -> usb_video_probe_and_commit_controls -> Device ->
  Z * usb_video_probe_and_commit_controls * Device.

(** [UVCCamDevice::StartTransfer]: probe and commit, select the alternate,
    then the base class's [StartTransfer], whose result is
    [base_StartTransfer] when it is reached.  The other arguments are those
    of [_ProbeCommitFormat] and [_SelectBestAlternate]. *)
Definition StartTransfer (frameInterval : Z)
    (disableHighBW forceHighBW : option String.string)
    (streaming : option (list (list BUSBEndpoint))) (setAlternate : Z)
    (malloc_result : option mem) (base_StartTransfer : Z)
    (c : UVCCamDevice) (fDevice : option Device)
  : Z * UVCCamDevice * option Device :=
  let '(err, c, d) :=
    _ProbeCommitFormat Device ControlTransfer_out ControlTransfer_in
      frameInterval c fDevice in
  if negb (err =? B_OK) then (err, c, d)
  else
    let '(err, c) :=
      _SelectBestAlternate disableHighBW forceHighBW streaming setAlternate
        malloc_result c in
    if negb (err =? B_OK) then (err, c, d)
    else (base_StartTransfer, c, d).

(** The pump's view of the device [StartTransfer] leaves. *)
Definition pump_device (c : UVCCamDevice) (buf : mem) (succ err : Z)
  : Pump.CamDevice :=
  Pump.mkDev (fIsoMaxPacketSize c) buf (fBufferLen c) succ err.

(** X15: [StartTransfer] hands the pump a buffer of exactly 32 slots.
    Whenever [StartTransfer] gets as far as the base class's
    [StartTransfer] (both negotiation steps returned [B_OK]), the device
    holds an allocated pump buffer of 32 times the selected packet size,
    which is positive; the isochronous pump then uses 32 descriptors whose
    slots have exactly the packet size.  When a negotiation step fails,
    [StartTransfer] returns its error and the base class is not
    consulted. *)
Theorem StartTransfer_sizes_pump_buffer frameInterval disableHighBW forceHighBW
    streaming setAlternate malloc_result base_StartTransfer c fDevice :
  let r := StartTransfer frameInterval disableHighBW forceHighBW streaming
             setAlternate malloc_result base_StartTransfer c fDevice in
  let c' := snd (fst r) in
  (exists buf,
     fBuffer c' = Some buf /\ 0 < fIsoMaxPacketSize c' /\
     forall succ err,
       Pump.numPacketDescriptors (pump_device c' buf succ err) = 32 /\
       Pump.packetSize (pump_device c' buf succ err) = fIsoMaxPacketSize c' /\
       Pump.slotSize (pump_device c' buf succ err) = fIsoMaxPacketSize c') \/
  (fst (fst r) <> B_OK /\
   forall other,
     StartTransfer frameInterval disableHighBW forceHighBW streaming
       setAlternate malloc_result other c fDevice = r).
Proof.
  cbv zeta. unfold StartTransfer.
  destruct (_ProbeCommitFormat Device ControlTransfer_out ControlTransfer_in
              frameInterval c fDevice) as [[e1 c1] d1].
  destruct (e1 =? B_OK) eqn:E1; cbn [negb].
  2:{ right. cbn [fst snd]. apply Z.eqb_neq in E1. split; [exact E1 | reflexivity]. }
  destruct (_SelectBestAlternate disableHighBW forceHighBW streaming setAlternate
              malloc_result c1) as [e2 c2] eqn:Hsel.
  destruct (e2 =? B_OK) eqn:E2; cbn [negb].
  2:{ right. cbn [fst snd]. apply Z.eqb_neq in E2. split; [exact E2 | reflexivity]. }
  left. apply Z.eqb_eq in E2. subst e2. cbn [fst snd].
  destruct (select_ok_shape _ _ _ _ _ _ _ Hsel) as (buf & Hpos & Hbuf & Hlen & _).
  exists buf. split; [exact Hbuf|]. split; [exact Hpos|].
  intros succ err.
  destruct (Pump.sized_buffer (pump_device c2 buf succ err)) as (S1 & S2 & S3);
    [exact Hpos | exact Hlen |].
  split; [exact S2|]. split; [exact S1 | exact S3].
Qed.

End Start.

Lemma StartTransfer_sizes_pump_buffer_witness :
  let r := StartTransfer _ log_out log_in 333333 None None (Some demo_alternates)
             B_OK (Some (fun _ => 0)) B_OK demo_cam (Some []) in
  fIsoMaxPacketSize (snd (fst r)) = 3072 /\
  Pump.numPacketDescriptors (pump_device (snd (fst r)) (fun _ => 0) 0 0) = 32.
Proof.
  cbv zeta.
  destruct (StartTransfer_sizes_pump_buffer _ log_out log_in 333333 None None
              (Some demo_alternates) B_OK (Some (fun _ => 0)) B_OK demo_cam (Some []))
    as [(buf & _ & _ & H) | [H _]].
  - split; [reflexivity|]. exact (proj1 (H 0 0)).
  - exfalso. apply H. reflexivity.
Defined.

End NegotiatorFacts.


(** * More on the converter: bounds, short sources, the colour formula *)

Module ConvertFacts.

Import Convert.

(** The row loop converts the rows that lie completely within the source,
    up to the image height. *)
Lemma rows_converted_min rows srcSize width : forall row,
  0 < width -> 0 <= row ->
  rows_converted rows srcSize width row
  = Z.max 0 (Z.min (Z.of_nat rows) (srcSize / (width * 2) - row)).
Proof.
  induction rows as [|rows IH]; intros row Hw Hrow; cbn [rows_converted].
  - cbn [Z.of_nat]. lia.
  - pose proof (Z.div_mod srcSize (width * 2) ltac:(lia)) as Hdm.
    pose proof (Z.mod_pos_bound srcSize (width * 2) ltac:(lia)) as Hm.
    set (q := srcSize / (width * 2)) in *.
    destruct (srcSize <? row * (width * 2) + width * 2) eqn:A;
      [apply Z.ltb_lt in A | apply Z.ltb_ge in A].
    + assert (q < row + 1) by nia. lia.
    + assert (row + 1 <= q) by nia.
      rewrite IH by lia. fold q. lia.
Qed.

Lemma stride_test_reads_inside srcSize offs :
  Forall (fun off => 0 <= off) offs ->
  forall o, In o (stride_test_reads srcSize offs) -> 0 <= o < srcSize.
Proof.
  induction offs as [|off rest IH]; intros Hall o Ho; cbn [stride_test_reads] in Ho;
    [destruct Ho|].
  inversion Hall as [|? ? H0 Hrest]; subst.
  destruct (off + 8 <? srcSize) eqn:A; [apply Z.ltb_lt in A | destruct Ho].
  apply in_app_or in Ho. destruct Ho as [Ho | Ho]; [|now apply IH].
  cbn in Ho. intuition lia.
Qed.

Lemma diagnostic_reads_inside sYUY2Diag srcSize width :
  0 < width -> 5 <= sYUY2Diag \/ 8 <= srcSize ->
  forall o, In o (diagnostic_reads sYUY2Diag srcSize width) -> 0 <= o < srcSize.
Proof.
  intros Hw Hd o Ho. unfold diagnostic_reads in Ho.
  destruct (sYUY2Diag + 1 <=? 5) eqn:A; [apply Z.leb_le in A | destruct Ho].
  destruct Hd as [Hd | Hd]; [lia|].
  apply in_app_or in Ho. destruct Ho as [Ho | Ho].
  - cbn in Ho. intuition lia.
  - destruct (width * 4 <=? srcSize); [|destruct Ho].
    revert o Ho. apply stride_test_reads_inside.
    repeat constructor; lia.
Qed.

Lemma convert_in_bounds g sYUY2Diag dst src srcSize width height :
  0 < width -> Z.even width = true -> 0 < height ->
  5 <= sYUY2Diag \/ 8 <= srcSize ->
  exists c,
    fst (fst (_ConvertYUY2toRGB32 g sYUY2Diag (Some dst) (Some src)
                srcSize width height)) = Some c /\
    (forall o, In o (c_reads c) -> 0 <= o < srcSize) /\
    (forall o, In o (c_writes c) -> 0 <= o < width * height * 4).
Proof.
  intros Hw Hev Hh Hd.
  apply Z.even_spec in Hev. destruct Hev as [n Hn].
  unfold _ConvertYUY2toRGB32.
  replace (width <=? 0) with false by (symmetry; apply Z.leb_gt; lia).
  replace (height <=? 0) with false by (symmetry; apply Z.leb_gt; lia).
  cbn [orb fst]. eexists. split; [reflexivity|].
  set (c0 := mkConv dst _ []).
  destruct (convert_rows_spec (Initialize g) src srcSize width n
              (Z.to_nat height) 0 c0) as (_ & _ & S3 & S4 & S5);
    [lia | exact Hn | lia |].
  pose proof (rows_converted_bounds (Z.to_nat height) srcSize width 0) as HR.
  cbv zeta in S3, S4, S5.
  set (R := rows_converted (Z.to_nat height) srcSize width 0) in *.
  rewrite Z2Nat.id in HR by lia.
  split.
  - intros o Ho. destruct (S3 o Ho) as [Hin | Hin].
    + subst c0. cbn [c_reads] in Hin.
      exact (diagnostic_reads_inside sYUY2Diag srcSize width Hw Hd o Hin).
    + destruct S5 as [S5 | S5]; [nia | rewrite S5 in Hin; lia].
  - intros o Ho. destruct (S4 o Ho) as [Hin | Hin].
    + subst c0. destruct Hin.
    + nia.
Qed.


(** With a source that holds the whole image, every pixel is written. *)
Lemma convert_full_alpha g sYUY2Diag dst src srcSize width height :
  0 < width -> Z.even width = true -> 0 < height ->
  width * height * 2 <= srcSize ->
  exists c,
    fst (fst (_ConvertYUY2toRGB32 g sYUY2Diag (Some dst) (Some src)
                srcSize width height)) = Some c /\
    forall p, 0 <= p < width * height -> c_dst c (4 * p + 3) = 255.
Proof.
  intros Hw Hev Hh Hs.
  apply Z.even_spec in Hev. destruct Hev as [n Hn].
  unfold _ConvertYUY2toRGB32.
  replace (width <=? 0) with false by (symmetry; apply Z.leb_gt; lia).
  replace (height <=? 0) with false by (symmetry; apply Z.leb_gt; lia).
  cbn [orb fst]. eexists. split; [reflexivity|].
  set (c0 := mkConv dst _ []).
  destruct (convert_rows_spec (Initialize g) src srcSize width n
              (Z.to_nat height) 0 c0) as (S1 & _); [lia | exact Hn | lia |].
  rewrite rows_converted_full in S1 by (try lia; nia).
  cbv zeta in S1. rewrite Z2Nat.id in S1 by lia.
  intros p Hp.
  destruct (pixel_position width height n p Hw Hn Hp)
    as (r & k & e & Hr & Hk & He & Hpos).
  replace (4 * p + 3) with (r * (width * 4) + 8 * k + (4 * e + 3)) by lia.
  rewrite S1 by lia.
  assert (He' : e = 0 \/ e = 1) by lia.
  destruct He' as [-> | ->]; reflexivity.
Qed.



(** X17: a short source converts whole rows only.  For an even width and a
    source of [srcSize] bytes the conversion converts the first
    min(height, srcSize / (2 * width)) rows, each macro-pixel from its own
    four source bytes, and leaves every destination byte of the remaining
    rows (and everything outside the image) as it was: a truncated frame
    keeps the previous picture in its lower part. *)
Theorem short_source_converts_whole_rows g sYUY2Diag dst src srcSize width height :
  0 < width -> Z.even width = true -> 0 < height -> 0 <= srcSize ->
  let R := Z.min height (srcSize / (width * 2)) in
  exists c,
    fst (fst (_ConvertYUY2toRGB32 g sYUY2Diag (Some dst) (Some src)
                srcSize width height)) = Some c /\
    (forall r k b, 0 <= r < R -> 0 <= 2 * k < width -> 0 <= b < 8 ->
       c_dst c (r * (width * 4) + 8 * k + b) =
       nth (Z.to_nat b)
         (bgra_pair (Initialize g)
            (src (r * (width * 2) + 4 * k)) (src (r * (width * 2) + 4 * k + 1))
            (src (r * (width * 2) + 4 * k + 2)) (src (r * (width * 2) + 4 * k + 3)))
         0) /\
    (forall i, i < 0 \/ R * (width * 4) <= i -> c_dst c i = dst i).
Proof.
  intros Hw Hev Hh Hs R.
  apply Z.even_spec in Hev. destruct Hev as [n Hn].
  unfold _ConvertYUY2toRGB32.
  replace (width <=? 0) with false by (symmetry; apply Z.leb_gt; lia).
  replace (height <=? 0) with false by (symmetry; apply Z.leb_gt; lia).
  cbn [orb fst]. eexists. split; [reflexivity|].
  set (c0 := mkConv dst _ []).
  destruct (convert_rows_spec (Initialize g) src srcSize width n
              (Z.to_nat height) 0 c0) as (S1 & S2 & _);
    [lia | exact Hn | lia |].
  cbv zeta in S1, S2.
  rewrite rows_converted_min in S1, S2 by lia.
  rewrite Z2Nat.id, Z.sub_0_r in S1, S2 by lia.
  assert (HR : Z.max 0 (Z.min height (srcSize / (width * 2))) = R).
  { subst R. pose proof (Z.div_pos srcSize (width * 2) Hs ltac:(lia)). lia. }
  rewrite HR in S1, S2.
  split.
  - intros r k b Hr Hk Hb. apply S1; lia.
  - intros i Hi. rewrite S2 by lia. reflexivity.
Qed.

(** A 4 x 2 image whose source holds one row and a half. *)
Lemma short_source_converts_whole_rows_witness :
  exists c,
    fst (fst (_ConvertYUY2toRGB32 gYuvRgbTables_start 5 (Some (fun _ => 9))
                (Some black_frame) 12 4 2)) = Some c /\
    c_dst c 0 = 0 /\ c_dst c 3 = 255 /\ c_dst c 16 = 9 /\ c_dst c 31 = 9.
Proof.
  destruct (short_source_converts_whole_rows gYuvRgbTables_start 5 (fun _ => 9)
              black_frame 12 4 2) as (c & Hc & H1 & H2);
    [lia | reflexivity | lia | lia |].
  exists c. split; [exact Hc|].
  split; [exact (H1 0 0 0 ltac:(vm_compute; split; [discriminate | reflexivity])
                   ltac:(lia) ltac:(lia))|].
  split; [exact (H1 0 0 3 ltac:(vm_compute; split; [discriminate | reflexivity])
                   ltac:(lia) ltac:(lia))|].
  split; apply H2; right; vm_compute; discriminate.
Defined.

(** *** The colour formula *)

Lemma lookup_map f b :
  0 <= b < 256 -> lookup (map f indices) b = f b.
Proof.
  intros Hb. unfold lookup, indices.
  rewrite (nth_indep _ 0 (f (Z.of_nat 0)))
    by (rewrite !length_map, length_seq; lia).
  rewrite (map_nth f (map Z.of_nat (seq 0 256)) (Z.of_nat 0) (Z.to_nat b)).
  rewrite (map_nth Z.of_nat (seq 0 256) 0%nat (Z.to_nat b)).
  rewrite seq_nth by lia. f_equal. lia.
Qed.

Lemma clamp255_range v : 0 <= clamp255 v <= 255.
Proof.
  unfold clamp255.
  destruct (v <? 0) eqn:A; [apply Z.ltb_lt in A | apply Z.ltb_ge in A].
  - cbn. lia.
  - destruct (255 <? v) eqn:B; [apply Z.ltb_lt in B | apply Z.ltb_ge in B]; lia.
Qed.

(** X18: the tables compute the BT.601 integer formula.  With the tables as
    the driver has them and source bytes in [0, 256), the two pixels of a
    macro-pixel are B = clamp((298 (Y - 16) + 516 (U - 128) + 128) >> 8),
    G = clamp((298 (Y - 16) - 100 (U - 128) - 208 (V - 128) + 128) >> 8),
    R = clamp((298 (Y - 16) + 409 (V - 128) + 128) >> 8) and A = 255, with
    Y = Y0 for the first and Y1 for the second pixel; every byte written
    lies in [0, 255]. *)
Theorem tables_compute_bt601 g y0 u y1 v :
  valid_tables g ->
  0 <= y0 < 256 -> 0 <= u < 256 -> 0 <= y1 < 256 -> 0 <= v < 256 ->
  let B y := clamp255 (Z.shiftr (298 * (y - 16) + 516 * (u - 128) + 128) 8) in
  let G y := clamp255 (Z.shiftr (298 * (y - 16) + -100 * (u - 128)
                                 + -208 * (v - 128) + 128) 8) in
  let R y := clamp255 (Z.shiftr (298 * (y - 16) + 409 * (v - 128) + 128) 8) in
  bgra_pair (Initialize g) y0 u y1 v
  = [B y0; G y0; R y0; 255; B y1; G y1; R y1; 255] /\
  Forall (fun b => 0 <= b <= 255) (bgra_pair (Initialize g) y0 u y1 v).
Proof.
  intros Hg H0 Hu H1 Hv B G R.
  assert (E : bgra_pair (Initialize g) y0 u y1 v
              = [B y0; G y0; R y0; 255; B y1; G y1; R y1; 255]).
  { rewrite Hg. unfold bgra_pair.
    cbn [Initialize gYuvRgbTables_start initialized y_table u_b_table u_g_table
         v_r_table v_g_table].
    rewrite !lookup_map by assumption. reflexivity. }
  split; [exact E|]. rewrite E.
  repeat constructor; try apply clamp255_range; lia.
Qed.

Lemma tables_compute_bt601_witness :
  bgra_pair (Initialize gYuvRgbTables_start) 81 90 81 240
  = [0; 0; 255; 255; 0; 0; 255; 255].
Proof.
  rewrite (proj1 (tables_compute_bt601 gYuvRgbTables_start 81 90 81 240
                    eq_refl ltac:(lia) ltac:(lia) ltac:(lia) ltac:(lia))).
  vm_compute. reflexivity.
Defined.

(** X26: black and white at an even width.  For a frame of even width
    that holds the whole image, with the tables not yet initialised or as
    [Initialize] fills them, and the source bytes luma [Y] at even offsets
    and 128 at odd offsets: with [Y] = 0 (the pattern 00 80 00 80) every B,
    G and R byte of the BGRA output is 0, with [Y] = 235 every one is 255,
    and the alpha byte of every output pixel is 255. *)
Theorem pattern_decode g sYUY2Diag dst src width height Y :
  valid_tables g ->
  0 < width -> Z.even width = true -> 0 < height ->
  (forall i, 0 <= i < width * height * 2 -> src i = if Z.even i then Y else 128) ->
  exists c,
    fst (fst (_ConvertYUY2toRGB32 g sYUY2Diag (Some dst) (Some src)
                (width * height * 2) width height)) = Some c /\
    forall p, 0 <= p < width * height ->
      c_dst c (4 * p + 3) = 255 /\
      (Y = 0 ->
       c_dst c (4 * p) = 0 /\ c_dst c (4 * p + 1) = 0 /\ c_dst c (4 * p + 2) = 0) /\
      (Y = 235 ->
       c_dst c (4 * p) = 255 /\ c_dst c (4 * p + 1) = 255 /\
       c_dst c (4 * p + 2) = 255).
Proof.
  intros Hg Hw Hev Hh Hsrc.
  apply Z.even_spec in Hev. destruct Hev as [n Hn].
  unfold _ConvertYUY2toRGB32.
  replace (width <=? 0) with false by (symmetry; apply Z.leb_gt; lia).
  replace (height <=? 0) with false by (symmetry; apply Z.leb_gt; lia).
  cbn [orb fst]. rewrite Hg. eexists. split; [reflexivity|].
  set (c0 := mkConv dst _ []).
  destruct (convert_rows_spec (Initialize gYuvRgbTables_start) src
              (width * height * 2) width n (Z.to_nat height) 0 c0)
    as (S1 & _); [lia | exact Hn | lia |].
  rewrite rows_converted_full in S1 by (try lia; nia).
  cbv zeta in S1. rewrite Z2Nat.id in S1 by lia.
  intros p Hp.
  destruct (pixel_position width height n p Hw Hn Hp) as (r & k & e & Hr & Hk & He & Hpos).
  assert (Hpair : bgra_pair (Initialize gYuvRgbTables_start)
                    (src (r * (width * 2) + 4 * k)) (src (r * (width * 2) + 4 * k + 1))
                    (src (r * (width * 2) + 4 * k + 2)) (src (r * (width * 2) + 4 * k + 3))
                  = bgra_pair (Initialize gYuvRgbTables_start) Y 128 Y 128).
  { rewrite !Hsrc by nia.
    replace (r * (width * 2) + 4 * k) with (2 * (r * width + 2 * k)) by lia.
    replace (2 * (r * width + 2 * k) + 1) with (2 * (r * width + 2 * k) + 1) by lia.
    replace (2 * (r * width + 2 * k) + 2) with (2 * (r * width + 2 * k + 1)) by lia.
    replace (2 * (r * width + 2 * k) + 3) with (2 * (r * width + 2 * k + 1) + 1) by lia.
    now rewrite !Z.even_even, !Z.even_odd. }
  assert (Hbyte : forall ch, 0 <= ch < 4 ->
            c_dst (convert_rows (Z.to_nat height) (Initialize gYuvRgbTables_start) src
                     (width * height * 2) width 0 c0) (4 * p + ch)
            = nth (Z.to_nat (4 * e + ch))
                (bgra_pair (Initialize gYuvRgbTables_start) Y 128 Y 128) 0).
  { intros ch Hch.
    replace (4 * p + ch) with (r * (width * 4) + 8 * k + (4 * e + ch)) by lia.
    rewrite S1 by lia. now rewrite Hpair. }
  pose proof (Hbyte 0 ltac:(lia)) as H0. rewrite Z.add_0_r in H0.
  rewrite H0, (Hbyte 1), (Hbyte 2), (Hbyte 3) by lia.
  assert (He' : e = 0 \/ e = 1) by lia.
  split; [|split].
  - destruct He' as [-> | ->]; reflexivity.
  - intros ->. rewrite black_pair.
    destruct He' as [-> | ->]; repeat split; reflexivity.
  - intros ->. rewrite white_pair.
    destruct He' as [-> | ->]; repeat split; reflexivity.
Qed.

Lemma pattern_decode_witness :
  exists c,
    fst (fst (_ConvertYUY2toRGB32 gYuvRgbTables_start 0 (Some (fun _ => 9))
                (Some black_frame) (4 * 2 * 2) 4 2)) = Some c /\
    forall p, 0 <= p < 4 * 2 ->
      c_dst c (4 * p + 3) = 255 /\
      (0 = 0 ->
       c_dst c (4 * p) = 0 /\ c_dst c (4 * p + 1) = 0 /\ c_dst c (4 * p + 2) = 0) /\
      (0 = 235 ->
       c_dst c (4 * p) = 255 /\ c_dst c (4 * p + 1) = 255 /\
       c_dst c (4 * p + 2) = 255).
Proof.
  apply (pattern_decode gYuvRgbTables_start 0 (fun _ => 9) black_frame 4 2 0).
  - reflexivity.
  - lia.
  - reflexivity.
  - lia.
  - intros i _. reflexivity.
Defined.

End ConvertFacts.


(** * From the deframer to the converter *)

Module Pipeline.

Import Deframer.
Import DeframerFacts.
Import Convert.
Import ConvertFacts.

(** [f->Buffer()]: the bytes of a frame as raw memory. *)
Definition frame_bytes (f : BMallocIO) : mem :=
  fun i => nth (Z.to_nat i) (io_data f) 0.

(** X19: a frame assembled in fixed-size mode converts completely.  In every
    state of a deframer in use, with the fixed buffer allocated and the
    expected size set to width x height x 2 as [AcceptVideoFrame] sets it
    (even width, at most the size of the fixed buffer), every frame that
    any run of packets adds to the queue has at least width x height x 2
    bytes, and exactly that many when the fill did not exceed the expected
    size to begin with.  Handed to [_ConvertYUY2toRGB32] with its own length
    as [FillFrameBuffer] does, it is converted in full: every pixel of the
    image is written (alpha 255), all writes stay inside the
    width x height x 4 image, and all reads stay inside the frame, provided
    the image has at least 8 bytes or the diagnostics of the first five
    conversions are over. *)
Theorem fixed_size_frames_convert_completely s m pkts g sYUY2Diag dst width height :
  in_use s -> fFixedBuffer s = Some m ->
  0 < width -> Z.even width = true -> 0 < height ->
  fExpectedFrameSize s = width * height * 2 ->
  width * height * 2 <= fFixedBufferSize s ->
  5 <= sYUY2Diag \/ 8 <= width * height * 2 ->
  exists new,
    fFrames (base (write_all pkts s)) = fFrames (base s) ++ new /\
    (fFixedBufferPos s <= width * height * 2 ->
     Forall (fun f => BufferLength f = width * height * 2) new) /\
    forall f, In f new ->
      width * height * 2 <= BufferLength f /\
      exists c,
        fst (fst (_ConvertYUY2toRGB32 g sYUY2Diag (Some dst) (Some (frame_bytes f))
                    (BufferLength f) width height)) = Some c /\
        (forall o, In o (c_reads c) -> 0 <= o < BufferLength f) /\
        (forall o, In o (c_writes c) -> 0 <= o < width * height * 4) /\
        (forall p, 0 <= p < width * height -> c_dst c (4 * p + 3) = 255).
Proof.
  intros Hu Hm Hw Hev Hh HE Hsz Hd.
  pose proof (in_use_inv s Hu) as Hinv.
  destruct (in_use_fill_ok s Hu) as [_ [Hpos _]].
  assert (Hpx : 0 < width * height * 2) by nia.
  destruct (Write_fixed_run pkts s Hinv) as (new & Hnew & Htl & Hhd);
    [rewrite Hm; discriminate | lia | exact Hpos |].
  rewrite HE in Htl, Hhd.
  assert (Hlen : forall f, In f new -> width * height * 2 <= BufferLength f).
  { intros f Hf. destruct new as [|f0 rest]; [destruct Hf|].
    destruct Hf as [<- | Hf].
    - destruct (Hhd f0 eq_refl) as [H | [H1 H2]]; lia.
    - cbn [tl] in Htl. rewrite Forall_forall in Htl. rewrite (Htl f Hf). lia. }
  exists new. split; [exact Hnew|]. split.
  - intros Hle. destruct new as [|f0 rest]; [constructor|].
    constructor; [|exact Htl].
    destruct (Hhd f0 eq_refl) as [H | [H _]]; [exact H | lia].
  - intros f Hf. specialize (Hlen f Hf). split; [exact Hlen|].
    destruct (convert_in_bounds g sYUY2Diag dst (frame_bytes f) (BufferLength f)
                width height Hw Hev Hh) as (c & Hc & Hrd & Hwr);
      [destruct Hd; [now left | right; lia]|].
    destruct (convert_full_alpha g sYUY2Diag dst (frame_bytes f) (BufferLength f)
                width height Hw Hev Hh Hlen) as (c2 & Hc2 & Halpha).
    rewrite Hc in Hc2. injection Hc2 as <-.
    exists c. split; [exact Hc|]. split; [exact Hrd|]. split; [exact Hwr | exact Halpha].
Qed.

(** Scenario S1 again: a 4 x 2 image, three packets. *)
Lemma fixed_size_frames_convert_completely_witness :
  exists new,
    fFrames (base (write_all [S1_P1; S1_P2; S1_P3] S1_start))
    = fFrames (base S1_start) ++ new /\
    Forall (fun f => BufferLength f = 4 * 2 * 2) new /\
    forall f, In f new ->
      exists c,
        fst (fst (_ConvertYUY2toRGB32 gYuvRgbTables_start 0 (Some (fun _ => 0))
                    (Some (frame_bytes f)) (BufferLength f) 4 2)) = Some c /\
        (forall o, In o (c_reads c) -> 0 <= o < BufferLength f) /\
        (forall o, In o (c_writes c) -> 0 <= o < 4 * 2 * 4) /\
        (forall p, 0 <= p < 4 * 2 -> c_dst c (4 * p + 3) = 255).
Proof.
  destruct (fixed_size_frames_convert_completely S1_start S1_buffer
              [S1_P1; S1_P2; S1_P3] gYuvRgbTables_start 0 (fun _ => 0) 4 2)
    as (new & Hnew & Hall & Hconv).
  - exact (in_use_op (OpSetExpectedFrameSize 16) _ (in_use_new (Some S1_buffer))).
  - reflexivity.
  - lia.
  - reflexivity.
  - lia.
  - reflexivity.
  - vm_compute. discriminate.
  - right. lia.
  - exists new. split; [exact Hnew|]. split; [apply Hall; vm_compute; discriminate|].
    intros f Hf. apply (Hconv f Hf).
Defined.

End Pipeline.


(** * More on the audio ring: it is a byte queue *)

Module AudioFacts.

Import Pump.
Import Audio.

(** The bytes waiting in the ring, oldest first: from the tail up to the
    head, wrapping at the end of the buffer. *)
Definition contents (a : audio_pump) : list Z :=
  map (fun k => fAudioRingBuffer a ((fAudioRingTail a + Z.of_nat k) mod fAudioRingSize a))
      (seq 0 (Z.to_nat (available a))).

(** [actual_length] is an [int16] in the platform's descriptor. *)
Definition int16_length (d : usb_iso_packet_descriptor) : Prop :=
  - 2 ^ 15 <= actual_length d < 2 ^ 15.

(** A packet the copy loop stores: status OK, a length that is not 0 and,
    converted to [size_t], at most the room left. *)
Definition accepted (d : usb_iso_packet_descriptor) (a : audio_pump) : bool :=
  (status d =? B_OK) && negb (actual_length d =? 0)
  && (to_size_t (actual_length d) <=? ring_space a).

Lemma mod_shift x s q : 0 <= x - q * s < s -> x mod s = x - q * s.
Proof.
  intros H. symmetry. apply (Z.mod_unique x s q); [left; exact H | lia].
Qed.

Lemma available_range a : ring_ok a -> 0 <= available a < fAudioRingSize a.
Proof. intros (Hs & _). apply Z.mod_pos_bound. lia. Qed.

Lemma head_from_tail a :
  ring_ok a ->
  fAudioRingHead a = (fAudioRingTail a + available a) mod fAudioRingSize a.
Proof.
  intros Hok. rewrite (available_cases a Hok). destruct Hok as (Hs & Hh & Ht).
  destruct (fAudioRingTail a <=? fAudioRingHead a) eqn:E;
    [apply Z.leb_le in E | apply Z.leb_gt in E].
  - rewrite Z.mod_small; lia.
  - rewrite (mod_shift _ _ 1); lia.
Qed.

Lemma map_seq_shift (f : nat -> Z) n m :
  map f (seq n m) = map (fun k => f (n + k)%nat) (seq 0 m).
Proof.
  revert f n. induction m as [|m IH]; intros f n; [reflexivity|].
  cbn [seq map]. rewrite Nat.add_0_r. f_equal.
  rewrite (IH f (S n)), (IH (fun k => f (n + k)%nat) 1%nat).
  apply map_ext. intros k. f_equal. lia.
Qed.

Lemma firstn_seq_le n : forall start len,
  (n <= len)%nat -> firstn n (seq start len) = seq start n.
Proof.
  induction n as [|n IH]; intros start [|len] H; cbn [firstn seq];
    try reflexivity; try lia.
  f_equal. apply IH. lia.
Qed.

(** What an accepted packet does to the ring. *)
Lemma pump_packet_accepted fAudioBuffer bytesPerPacket i d a :
  ring_ok a -> int16_length d -> accepted d a = true ->
  let len := actual_length d in
  let size := fAudioRingSize a in
  let a' := pump_packet fAudioBuffer bytesPerPacket i d a in
  0 < len <= size - available a - 1 /\
  fAudioRingSize a' = size /\
  fAudioRingTail a' = fAudioRingTail a /\
  fAudioRingHead a' = (fAudioRingHead a + len) mod size /\
  forall j, 0 <= j < size ->
    fAudioRingBuffer a' j =
    if (j - fAudioRingHead a) mod size <? len
    then fAudioBuffer (i * bytesPerPacket + (j - fAudioRingHead a) mod size)
    else fAudioRingBuffer a j.
Proof.
  intros Hok Hrange Hacc len size a'. unfold int16_length in Hrange.
  change (2 ^ 15) with 32768 in Hrange.
  pose proof (ring_space_free a Hok) as Hsp.
  pose proof (available_range a Hok) as Hav.
  unfold accepted in Hacc. rewrite !andb_true_iff in Hacc.
  destruct Hacc as [[Hst Hnz] Hfit].
  rewrite negb_true_iff in Hnz. apply Z.leb_le in Hfit.
  rewrite Hsp in Hfit. fold size in Hfit, Hav, Hsp.
  destruct Hok as (Hs & Hh & Ht). fold size in Hs, Hh, Ht.
  change (2 ^ 31) with 2147483648 in Hs.
  assert (Hlen : len = actual_length d) by reflexivity.
  fold len in Hrange, Hfit.
  assert (Hpos : 0 < len).
  { apply Z.eqb_neq in Hnz. fold len in Hnz.
    destruct (Z_lt_le_dec len 0) as [Hneg | ?]; [|lia].
    exfalso. unfold to_size_t, size_t_mod in Hfit.
    change (2 ^ 64) with 18446744073709551616 in Hfit.
    rewrite (mod_shift len 18446744073709551616 (-1)) in Hfit by lia. lia. }
  assert (Hpl : to_size_t len = len).
  { apply to_size_t_small. change (2 ^ 63) with 9223372036854775808. lia. }
  fold len in Hfit. rewrite Hpl in Hfit.
  split; [lia|].
  subst a'. unfold pump_packet. rewrite Hst, Hnz. cbn [negb orb]. fold len.
  rewrite Hpl, Hsp. fold size.
  replace (size - available a - 1 <? len) with false by (symmetry; apply Z.ltb_ge; lia).
  cbn [fAudioRingSize fAudioRingTail fAudioRingHead fAudioRingBuffer].
  split; [reflexivity|]. split; [reflexivity|]. split; [reflexivity|].
  assert (Hfc : to_size_t (size - fAudioRingHead a) = size - fAudioRingHead a).
  { apply to_size_t_small. change (2 ^ 63) with 9223372036854775808. lia. }
  rewrite Hfc.
  set (data := mem_read fAudioBuffer (i * bytesPerPacket) len).
  assert (Hd : forall k, 0 <= k < len ->
            nth (Z.to_nat k) data 0 = fAudioBuffer (i * bytesPerPacket + k)).
  { intros k Hk. subst data. rewrite mem_read_nth by lia. f_equal. lia. }
  intros j Hj.
  destruct (Z_lt_le_dec j (fAudioRingHead a)) as [Hlo | Hhi].
  - rewrite (mod_shift (j - fAudioRingHead a) size (-1)) by lia.
    destruct (len <=? size - fAudioRingHead a) eqn:Hw;
      [apply Z.leb_le in Hw | apply Z.leb_gt in Hw].
    + replace (j - fAudioRingHead a - -1 * size <? len) with false
        by (symmetry; apply Z.ltb_ge; lia).
      apply memcpy_outside. lia.
    + destruct (j - fAudioRingHead a - -1 * size <? len) eqn:Hin;
        [apply Z.ltb_lt in Hin | apply Z.ltb_ge in Hin].
      * rewrite memcpy_inside by lia. rewrite nth_skipn.
        rewrite <- (Hd (j - fAudioRingHead a - -1 * size)) by lia.
        f_equal. lia.
      * rewrite memcpy_outside by lia. apply memcpy_outside. lia.
  - rewrite (Z.mod_small (j - fAudioRingHead a)) by lia.
    destruct (len <=? size - fAudioRingHead a) eqn:Hw;
      [apply Z.leb_le in Hw | apply Z.leb_gt in Hw].
    + destruct (j - fAudioRingHead a <? len) eqn:Hin;
        [apply Z.ltb_lt in Hin | apply Z.ltb_ge in Hin].
      * rewrite memcpy_inside by lia. apply Hd; lia.
      * apply memcpy_outside. lia.
    + replace (j - fAudioRingHead a <? len) with true
        by (symmetry; apply Z.ltb_lt; lia).
      rewrite memcpy_outside by lia. rewrite memcpy_inside by lia.
      apply Hd. lia.
Qed.

Lemma pump_packet_rejected fAudioBuffer bytesPerPacket i d a :
  accepted d a = false -> pump_packet fAudioBuffer bytesPerPacket i d a = a.
Proof.
  unfold accepted, pump_packet. intros H.
  destruct (status d =? B_OK); cbn [negb orb andb] in *; [|reflexivity].
  destruct (actual_length d =? 0); cbn [negb andb] in *; [reflexivity|].
  apply Z.leb_gt in H. apply Z.ltb_lt in H. now rewrite H.
Qed.

Lemma contents_after_write fAudioBuffer bytesPerPacket i d a :
  ring_ok a -> int16_length d -> accepted d a = true ->
  let a' := pump_packet fAudioBuffer bytesPerPacket i d a in
  ring_ok a' /\
  available a' = available a + actual_length d /\
  contents a' = contents a ++ mem_read fAudioBuffer (i * bytesPerPacket) (actual_length d).
Proof.
  intros Hok Hrange Hacc a'.
  destruct (pump_packet_accepted fAudioBuffer bytesPerPacket i d a Hok Hrange Hacc)
    as (Hlen & Hsz & Htl & Hhd & Hbuf).
  fold a' in Hsz, Htl, Hhd, Hbuf.
  pose proof (available_range a Hok) as Hav.
  pose proof (head_from_tail a Hok) as Hht.
  pose proof Hok as (Hs & Hh & Ht).
  set (size := fAudioRingSize a) in *. set (len := actual_length d) in *.
  set (tail := fAudioRingTail a) in *. set (head := fAudioRingHead a) in *.
  set (av := available a) in *.
  assert (Hok' : ring_ok a').
  { unfold ring_ok. rewrite Hsz, Htl, Hhd.
    split; [exact Hs|]. split; [apply Z.mod_pos_bound; lia | exact Ht]. }
  assert (Hav' : available a' = av + len).
  { unfold available. rewrite Hsz, Htl, Hhd.
    rewrite Zminus_mod_idemp_l.
    replace (head + len - tail) with (len + (head - tail)) by lia.
    rewrite <- Zplus_mod_idemp_r.
    change ((head - tail) mod size) with av.
    rewrite Z.mod_small; lia. }
  split; [exact Hok'|]. split; [exact Hav'|].
  unfold contents. rewrite Hav', Hsz, Htl. fold size tail av.
  rewrite Z2Nat.inj_add by lia. rewrite seq_app, map_app. cbn [Nat.add].
  (* the position of ring index (tail + k) relative to the head *)
  assert (Hrel : forall k, 0 <= k < size ->
            ((tail + k) mod size - head) mod size = (k - av) mod size).
  { intros k Hk. rewrite Hht. rewrite <- Zminus_mod.
    f_equal. lia. }
  f_equal.
  - apply map_ext_in. intros k Hk. apply in_seq in Hk.
    rewrite Hbuf by (apply Z.mod_pos_bound; lia).
    rewrite Hrel by lia.
    rewrite (mod_shift (Z.of_nat k - av) size (-1)) by lia.
    replace (Z.of_nat k - av - -1 * size <? len) with false
      by (symmetry; apply Z.ltb_ge; lia).
    reflexivity.
  - rewrite map_seq_shift. unfold mem_read.
    apply map_ext_in. intros k Hk. apply in_seq in Hk.
    rewrite Hbuf by (apply Z.mod_pos_bound; lia).
    rewrite Hrel by lia.
    rewrite (Z.mod_small (Z.of_nat (Z.to_nat av + k) - av)) by lia.
    replace (Z.of_nat (Z.to_nat av + k) - av <? len) with true
      by (symmetry; apply Z.ltb_lt; lia).
    f_equal. lia.
Qed.

(** X20: the pump appends to the queue or leaves it alone.  With head and
    tail valid ring indices, a packet that is accepted (status OK, non-zero
    length, fits in the room left) adds exactly its bytes, in order, behind
    the bytes already waiting, and the ring stays valid; any other packet,
    also one with a negative length, changes nothing.  (Lengths are
    [int16] values.) *)
Theorem pump_appends_to_queue fAudioBuffer bytesPerPacket i d a :
  ring_ok a -> int16_length d ->
  let a' := pump_packet fAudioBuffer bytesPerPacket i d a in
  ring_ok a' /\
  contents a' =
  if accepted d a
  then contents a ++ mem_read fAudioBuffer (i * bytesPerPacket) (actual_length d)
  else contents a.
Proof.
  intros Hok Hrange a'. destruct (accepted d a) eqn:Hacc.
  - destruct (contents_after_write fAudioBuffer bytesPerPacket i d a Hok Hrange Hacc)
      as (H1 & _ & H3). split; assumption.
  - subst a'. rewrite pump_packet_rejected by exact Hacc. split; [exact Hok | reflexivity].
Qed.

Lemma pump_appends_to_queue_witness :
  contents (pump_packet S6_buffer 7 1 (mkDesc 7 3 B_OK) S6_after_read)
  = [104; 105; 106; 107; 108; 109].
Proof.
  assert (Hok : ring_ok S6_after_read) by (vm_compute; repeat split; discriminate).
  rewrite (proj2 (pump_appends_to_queue S6_buffer 7 1 (mkDesc 7 3 B_OK)
                    S6_after_read Hok ltac:(vm_compute; split; [discriminate | reflexivity]))).
  vm_compute. reflexivity.
Defined.

(** What [ReadAudioData] does to a ring holding data. *)
Lemma read_from_ring size a :
  ring_ok a -> 0 < size ->
  let n := Z.min size (available a) in
  let r := ReadAudioData size a in
  fst r = map (fun k => fAudioRingBuffer a
                 ((fAudioRingTail a + Z.of_nat k) mod fAudioRingSize a))
              (seq 0 (Z.to_nat n)) /\
  fAudioRingBuffer (snd r) = fAudioRingBuffer a /\
  fAudioRingSize (snd r) = fAudioRingSize a /\
  fAudioRingHead (snd r) = fAudioRingHead a /\
  fAudioRingTail (snd r) = (fAudioRingTail a + n) mod fAudioRingSize a.
Proof.
  intros Hok Hsize n r.
  pose proof (available_cases a Hok) as Hcases.
  pose proof (available_range a Hok) as Hav.
  destruct Hok as (Hs & Hh & Ht). change (2 ^ 31) with 2147483648 in Hs.
  subst r. unfold ReadAudioData.
  set (sz := fAudioRingSize a) in *. set (tail := fAudioRingTail a) in *.
  set (head := fAudioRingHead a) in *.
  assert (Ha : (if tail <=? head then to_size_t (head - tail)
                else to_size_t (sz - tail + head)) = available a).
  { rewrite Hcases. destruct (tail <=? head) eqn:E;
      [apply Z.leb_le in E | apply Z.leb_gt in E];
      apply to_size_t_small; change (2 ^ 63) with 9223372036854775808; lia. }
  rewrite Ha.
  destruct (available a =? 0) eqn:E0; [apply Z.eqb_eq in E0 | apply Z.eqb_neq in E0].
  - assert (n = 0) by (subst n; lia).
    cbn [fst snd]. replace (Z.to_nat n) with 0%nat by lia. cbn [seq map].
    repeat split; try reflexivity.
    replace n with 0 by lia. rewrite Z.add_0_r. fold tail sz.
    rewrite Z.mod_small; lia.
  - assert (Hn : (if available a <? size then available a else size) = n).
    { subst n. destruct (available a <? size) eqn:E;
        [apply Z.ltb_lt in E | apply Z.ltb_ge in E]; lia. }
    rewrite Hn. cbn [fst snd fAudioRingBuffer fAudioRingSize fAudioRingHead
                     fAudioRingTail].
    split; [|repeat split; reflexivity].
    assert (Hfc : to_size_t (sz - tail) = sz - tail).
    { apply to_size_t_small. change (2 ^ 63) with 9223372036854775808. lia. }
    rewrite Hfc.
    assert (Hn0 : 0 < n < sz) by (subst n; lia).
    destruct (n <=? sz - tail) eqn:Hw; [apply Z.leb_le in Hw | apply Z.leb_gt in Hw].
    + unfold mem_read. apply map_ext_in. intros k Hk. apply in_seq in Hk.
      rewrite Z.mod_small by lia. reflexivity.
    + replace (Z.to_nat n) with (Z.to_nat (sz - tail) + Z.to_nat (n - (sz - tail)))%nat
        by lia.
      rewrite seq_app, map_app. cbn [Nat.add]. unfold mem_read. f_equal.
      * apply map_ext_in. intros k Hk. apply in_seq in Hk.
        rewrite Z.mod_small by lia. reflexivity.
      * rewrite (map_seq_shift _ (Z.to_nat (sz - tail))).
        apply map_ext_in. intros k Hk. apply in_seq in Hk.
        rewrite (mod_shift _ sz 1) by lia. f_equal. lia.
Qed.

Lemma contents_after_read size a :
  ring_ok a -> 0 < size ->
  let n := Z.min size (available a) in
  let r := ReadAudioData size a in
  ring_ok (snd r) /\
  available (snd r) = available a - n /\
  fst r = firstn (Z.to_nat n) (contents a) /\
  contents (snd r) = skipn (Z.to_nat n) (contents a).
Proof.
  intros Hok Hsize n r.
  destruct (read_from_ring size a Hok Hsize) as (R1 & R2 & R3 & R4 & R5).
  fold n r in R1, R2, R3, R4, R5.
  pose proof (available_range a Hok) as Hav.
  pose proof Hok as (Hs & Hh & Ht).
  set (sz := fAudioRingSize a) in *. set (tail := fAudioRingTail a) in *.
  set (head := fAudioRingHead a) in *.
  assert (Hn : 0 <= n <= available a) by (subst n; lia).
  assert (Hok' : ring_ok (snd r)).
  { unfold ring_ok. rewrite R3, R4, R5.
    split; [exact Hs|]. split; [exact Hh | apply Z.mod_pos_bound; lia]. }
  assert (Hav' : available (snd r) = available a - n).
  { unfold available at 1. rewrite R3, R4, R5. fold sz.
    rewrite Zminus_mod_idemp_r.
    replace (head - (tail + n)) with (-n + (head - tail)) by lia.
    rewrite <- Zplus_mod_idemp_r.
    change ((head - tail) mod sz) with (available a).
    rewrite Z.mod_small; lia. }
  split; [exact Hok'|]. split; [exact Hav'|]. split.
  - rewrite R1. unfold contents. fold sz tail.
    rewrite firstn_map, firstn_seq_le by lia. reflexivity.
  - unfold contents. rewrite Hav', R2, R3, R5. fold sz tail.
    rewrite skipn_map, skipn_seq. cbn [Nat.add].
    rewrite (map_seq_shift _ (Z.to_nat n)).
    replace (Z.to_nat (available a) - Z.to_nat n)%nat
      with (Z.to_nat (available a - n)) by lia.
    apply map_ext_in. intros k Hk. apply in_seq in Hk.
    rewrite Zplus_mod_idemp_l. f_equal. f_equal. lia.
Qed.

(** X21: reading takes the oldest bytes.  With head and tail valid ring
    indices, [ReadAudioData] asked for [size] > 0 bytes hands out the first
    min(size, waiting) bytes of the queue (none when it is empty), in the
    order they were written, and leaves the rest waiting; the ring stays
    valid and the head is not touched. *)
Theorem read_takes_oldest_bytes size a :
  ring_ok a -> 0 < size ->
  let n := Z.min size (available a) in
  let r := ReadAudioData size a in
  Z.of_nat (length (contents a)) = available a /\
  fst r = firstn (Z.to_nat n) (contents a) /\
  contents (snd r) = skipn (Z.to_nat n) (contents a) /\
  ring_ok (snd r) /\
  fAudioRingHead (snd r) = fAudioRingHead a.
Proof.
  intros Hok Hsize n r.
  destruct (contents_after_read size a Hok Hsize) as (C1 & _ & C3 & C4).
  destruct (read_from_ring size a Hok Hsize) as (_ & _ & _ & R4 & _).
  pose proof (available_range a Hok) as Hav.
  split.
  { unfold contents. rewrite length_map, length_seq. lia. }
  split; [exact C3|]. split; [exact C4|]. split; [exact C1 | exact R4].
Qed.

Lemma read_takes_oldest_bytes_witness :
  fst (ReadAudioData 4 S6_full) = [100; 101; 102; 103] /\
  contents (snd (ReadAudioData 4 S6_full)) = [104; 105; 106].
Proof.
  assert (Hok : ring_ok S6_full) by (vm_compute; repeat split; discriminate).
  destruct (read_takes_oldest_bytes 4 S6_full Hok ltac:(lia)) as (_ & H2 & H3 & _).
  split; [rewrite H2 | rewrite H3]; vm_compute; reflexivity.
Defined.

(** X22: what goes in comes out.  A packet accepted into an empty ring and
    then read back in full comes out byte for byte, and the ring is empty
    again; the head and tail have both moved on by its length. *)
Theorem ring_round_trip fAudioBuffer bytesPerPacket i d a :
  ring_ok a -> int16_length d -> available a = 0 -> accepted d a = true ->
  let a1 := pump_packet fAudioBuffer bytesPerPacket i d a in
  let r := ReadAudioData (actual_length d) a1 in
  fst r = mem_read fAudioBuffer (i * bytesPerPacket) (actual_length d) /\
  available (snd r) = 0 /\
  fAudioRingTail (snd r) = fAudioRingHead (snd r).
Proof.
  intros Hok Hrange Hempty Hacc a1 r.
  destruct (pump_packet_accepted fAudioBuffer bytesPerPacket i d a Hok Hrange Hacc)
    as (Hlen & _).
  destruct (contents_after_write fAudioBuffer bytesPerPacket i d a Hok Hrange Hacc)
    as (Hok1 & Hav1 & Hc1).
  fold a1 in Hok1, Hav1, Hc1.
  destruct (contents_after_read (actual_length d) a1 Hok1 ltac:(lia))
    as (Hok2 & Hav2 & Hf & _).
  fold r in Hok2, Hav2, Hf.
  rewrite Hav1, Hempty in Hav2, Hf.
  replace (Z.min (actual_length d) (0 + actual_length d)) with (actual_length d)
    in Hav2, Hf by lia.
  assert (Hc0 : contents a = []).
  { unfold contents. rewrite Hempty. reflexivity. }
  split; [|split].
  - rewrite Hf, Hc1, Hc0. cbn [app].
    apply firstn_all2. rewrite mem_read_length. lia.
  - lia.
  - assert (H0 : available (snd r) = 0) by lia.
    pose proof (head_from_tail (snd r) Hok2) as Hh. rewrite H0, Z.add_0_r in Hh.
    destruct Hok2 as (Hs & _ & Ht). rewrite Z.mod_small in Hh by lia. now symmetry.
Qed.

Lemma ring_round_trip_witness :
  fst (ReadAudioData 7 (pump_packet S6_buffer 7 0 (mkDesc 7 7 B_OK) S6_empty))
  = [100; 101; 102; 103; 104; 105; 106].
Proof.
  assert (Hok : ring_ok S6_empty) by (vm_compute; repeat split; discriminate).
  exact (proj1 (ring_round_trip S6_buffer 7 0 (mkDesc 7 7 B_OK) S6_empty
                  Hok ltac:(vm_compute; split; [discriminate | reflexivity])
                  eq_refl eq_refl)).
Defined.

End AudioFacts.


(** * Transfer retries ([CamDevice::BulkTransferWithRetry],
      [CamDevice::ControlTransferWithRetry]) *)

Module Recovery.

(** [enum usb_error_type]. *)
Inductive usb_error_type :=
| USB_ERROR_NONE
| USB_ERROR_TIMEOUT
| USB_ERROR_STALL
| USB_ERROR_CRC
| USB_ERROR_OVERFLOW
| USB_ERROR_DISCONNECTED
| USB_ERROR_UNKNOWN.

Definition is_disconnected (e : usb_error_type) : bool :=
  match e with USB_ERROR_DISCONNECTED => true | _ => false end.

Section Retry.

(** The platform's error codes that [ClassifyUSBError] names; their values
    come from the system headers and play no part below. *)
Variables B_TIMED_OUT B_DEV_TIMEOUT B_DEV_STALLED B_DEV_CRC_ERROR
  B_DEV_DATA_OVERRUN B_DEV_FIFO_OVERRUN B_DEV_DATA_UNDERRUN B_DEV_NOT_READY
  B_DEV_NO_MEDIA B_DEV_UNREADABLE : Z.

(** The device behind the endpoint: one transfer yields a result (the
    byte count, or a negative error) and the device afterwards. *)
Variable Device : Type.
Variable Transfer : Device -> Z * Device.

(** [CamDevice::ClassifyUSBError]; the cases of the switch in source
    order. *)
Definition ClassifyUSBError (error : Z) : usb_error_type :=
  if B_OK <=? error then USB_ERROR_NONE
  else if (error =? B_TIMED_OUT) || (error =? B_DEV_TIMEOUT) then USB_ERROR_TIMEOUT
  else if error =? B_DEV_STALLED then USB_ERROR_STALL
  else if (error =? B_DEV_CRC_ERROR) || (error =? B_DEV_DATA_OVERRUN)
  then USB_ERROR_CRC
  else if (error =? B_DEV_FIFO_OVERRUN) || (error =? B_DEV_DATA_UNDERRUN)
  then USB_ERROR_OVERFLOW
  else if (error =? B_DEV_NOT_READY) || (error =? B_DEV_NO_MEDIA)
          || (error =? B_DEV_UNREADABLE)
  then USB_ERROR_DISCONNECTED
  else USB_ERROR_UNKNOWN.

(** The loop [while (attempt <= config.max_retries)] of both retry
    wrappers, entered with [attempt] and [result]; [attempt] is a [uint32].
    The delay between attempts ([CalculateBackoffDelay], computed in
    [float], and [snooze]) only takes time.  [fuel] bounds the iterations;
    [None] means it ran out. *)
Fixpoint retry_loop (fuel : nat) (max_retries attempt result : Z) (dev : Device)
  : option (Z * Device) :=
  match fuel with
  | O => None
  | S fuel' =>
      if attempt <=? max_retries then
        let '(result, dev) := Transfer dev in
        if B_OK <=? result then Some (result, dev)
        else if is_disconnected (ClassifyUSBError result) then Some (result, dev)
        else retry_loop fuel' max_retries (to_uint32 (attempt + 1)) result dev
      else Some (result, dev)
  end.

(** [BulkTransferWithRetry] and [ControlTransferWithRetry] for a non-NULL
    endpoint or device. *)
Definition TransferWithRetry (fuel : nat) (max_retries : Z) (dev : Device)
  : option (Z * Device) :=
  retry_loop fuel max_retries 0 B_ERROR dev.

(** The result of the [n]-th transfer in a row and the device after it. *)
Fixpoint transfers (n : nat) (dev : Device) : Z * Device :=
  match n with
  | O => (B_ERROR, dev)
  | S n' => Transfer (snd (transfers n' dev))
  end.

(** A result the wrappers return at once: success, or an error classified
    as a disconnect. *)
Definition final (result : Z) : bool :=
  (B_OK <=? result) || is_disconnected (ClassifyUSBError result).

Lemma retry_loop_spec max_retries dev0 : forall fuel a r,
  0 <= max_retries < uint32_mod - 1 ->
  (a <= Z.to_nat max_retries)%nat ->
  (Z.to_nat max_retries + 2 <= fuel + a)%nat ->
  exists n,
    (a + 1 <= n <= Z.to_nat max_retries + 1)%nat /\
    retry_loop fuel max_retries (Z.of_nat a) r (snd (transfers a dev0))
    = Some (transfers n dev0) /\
    (forall k, (a + 1 <= k < n)%nat -> final (fst (transfers k dev0)) = false) /\
    (final (fst (transfers n dev0)) = true \/ n = (Z.to_nat max_retries + 1)%nat).
Proof.
  induction fuel as [|fuel IH]; intros a r Hmax Ha Hfuel; [lia|].
  cbn [retry_loop].
  replace (Z.of_nat a <=? max_retries) with true by (symmetry; apply Z.leb_le; lia).
  assert (Hstep : transfers (S a) dev0 = Transfer (snd (transfers a dev0)))
    by reflexivity.
  destruct (Transfer (snd (transfers a dev0))) as [res d1] eqn:E.
  assert (Hfin : final (fst (transfers (S a) dev0))
                 = (B_OK <=? res) || is_disconnected (ClassifyUSBError res))
    by (rewrite Hstep; reflexivity).
  assert (Hnow : (B_OK <=? res) || is_disconnected (ClassifyUSBError res) = true ->
            exists n,
              (a + 1 <= n <= Z.to_nat max_retries + 1)%nat /\
              Some (res, d1) = Some (transfers n dev0) /\
              (forall k, (a + 1 <= k < n)%nat -> final (fst (transfers k dev0)) = false) /\
              (final (fst (transfers n dev0)) = true
               \/ n = (Z.to_nat max_retries + 1)%nat)).
  { intros Ht. exists (S a). split; [lia|]. split; [now rewrite Hstep|].
    split; [intros k Hk; lia|]. left. now rewrite Hfin. }
  destruct (B_OK <=? res) eqn:Hok; [now apply Hnow|].
  destruct (is_disconnected (ClassifyUSBError res)) eqn:Hdis; [now apply Hnow|].
  clear Hnow. cbn [orb] in Hfin.
  assert (Hnext : to_uint32 (Z.of_nat a + 1) = Z.of_nat (S a)).
  { unfold to_uint32. rewrite Z.mod_small by lia. lia. }
  rewrite Hnext.
  destruct (Nat.eq_dec a (Z.to_nat max_retries)) as [Hlast | Hmore].
  - destruct fuel as [|fuel]; [lia|]. cbn [retry_loop].
    replace (Z.of_nat (S a) <=? max_retries) with false
      by (symmetry; apply Z.leb_gt; lia).
    exists (S a). split; [lia|]. split; [now rewrite Hstep|].
    split; [intros k Hk; lia|]. right. lia.
  - replace d1 with (snd (transfers (S a) dev0)) by now rewrite Hstep.
    destruct (IH (S a) res Hmax) as (n & N1 & N2 & N3 & N4); [lia | lia |].
    exists n. split; [lia|]. split; [exact N2|]. split; [|exact N4].
    intros k Hk. destruct (Nat.eq_dec k (S a)) as [-> | Hne];
      [exact Hfin | apply N3; lia].
Qed.

(** X23: retry until success, disconnect, or the budget is spent.  With
    [max_retries] below [UINT32_MAX], the retry wrappers return (the loop
    ends within [max_retries] + 2 tests of its condition) after some number
    n of transfers, 1 <= n <= [max_retries] + 1: the result and the device
    are those of the n-th transfer, every earlier transfer failed with an
    error that is not a disconnect, and the n-th succeeded, reported a
    disconnect, or was the last one allowed. *)
Theorem retry_stops_at_first_final_result max_retries fuel dev :
  0 <= max_retries < uint32_mod - 1 ->
  (Z.to_nat max_retries + 2 <= fuel)%nat ->
  exists n,
    (1 <= n <= Z.to_nat max_retries + 1)%nat /\
    TransferWithRetry fuel max_retries dev = Some (transfers n dev) /\
    (forall k, (1 <= k < n)%nat -> final (fst (transfers k dev)) = false) /\
    (final (fst (transfers n dev)) = true \/ n = (Z.to_nat max_retries + 1)%nat).
Proof.
  intros Hmax Hfuel.
  destruct (retry_loop_spec max_retries dev fuel 0 B_ERROR Hmax) as (n & H);
    [lia | lia |].
  exists n. exact H.
Qed.

End Retry.

(** A device that fails twice with a timeout and then delivers 512 bytes;
    the state counts the transfers.  The codes are distinct negative
    numbers. *)
Definition flaky (n : Z) : Z * Z := (if n <? 2 then -9 else 512, n + 1).

Lemma retry_stops_at_first_final_result_witness :
  TransferWithRetry (-9) (-10) (-11) (-12) (-13) (-14) (-15) (-16) (-17) (-18)
    Z flaky 4 2 0 = Some (512, 3).
Proof.
  destruct (retry_stops_at_first_final_result (-9) (-10) (-11) (-12) (-13) (-14)
              (-15) (-16) (-17) (-18) Z flaky 2 4 0)
    as (n & _ & H & _).
  - vm_compute. split; [discriminate | reflexivity].
  - vm_compute. lia.
  - vm_compute. reflexivity.
Defined.

End Recovery.

(** * Double buffering ([CamDevice], [usb_double_buffer]) *)

Module DoubleBuffer.

(** [struct usb_double_buffer].  A buffer pointer is the address [malloc]
    returned, [None] for [NULL]; [ready_count] is the count of the
    semaphore [bufferReady]. *)
Record usb_double_buffer := mkDB {
  buffers : list (option Z);
  bufferSize : Z;
  activeBuffer : Z;
  readyBuffer : Z;
  bufferReady : Z;
  ready_count : Z;
  initialized : bool
}.

(** The constructor of the struct, and line 92 of the [CamDevice]
    constructor. *)
Definition usb_double_buffer_new : usb_double_buffer :=
  mkDB [None; None] 0 0 (-1) (-1) 0 false.

(** [buffers[i]]; an index outside the array is marked by [None] on the
    outside. *)
Definition buffer_at (db : usb_double_buffer) (i : Z) : option (option Z) :=
  if (0 <=? i) && (i <? 2) then nth_error (buffers db) (Z.to_nat i) else None.

(** [CamDevice::CleanupDoubleBuffering]. *)
Definition CleanupDoubleBuffering (db : usb_double_buffer) : usb_double_buffer :=
  if negb (initialized db) then db
  else
    mkDB [None; None] 0 (activeBuffer db) (readyBuffer db)
      (if B_OK <=? bufferReady db then -1 else bufferReady db)
      (ready_count db) false.

(** [CamDevice::InitDoubleBuffering(bufferSize)]; [malloc0] and [malloc1]
    are what the two [malloc] calls return and [sem] what [create_sem]
    returns, when they are reached. *)
Definition InitDoubleBuffering (size : Z) (malloc0 malloc1 : option Z) (sem : Z)
    (db : usb_double_buffer) : Z * usb_double_buffer :=
  if initialized db && (bufferSize db =? size) then (B_OK, db)
  else
    let db := if initialized db then CleanupDoubleBuffering db else db in
    match malloc0 with
    | None =>
        (B_NO_MEMORY,
         mkDB [None; nth 1 (buffers db) None] (bufferSize db) (activeBuffer db)
           (readyBuffer db) (bufferReady db) (ready_count db) (initialized db))
    | Some p0 =>
        match malloc1 with
        | None =>
            (B_NO_MEMORY,
             mkDB [None; None] (bufferSize db) (activeBuffer db) (readyBuffer db)
               (bufferReady db) (ready_count db) (initialized db))
        | Some p1 =>
            if sem <? B_OK then
              (sem,
               mkDB [None; None] (bufferSize db) (activeBuffer db) (readyBuffer db)
                 sem (ready_count db) (initialized db))
            else
              (B_OK, mkDB [Some p0; Some p1] size 0 (-1) sem 0 true)
        end
    end.

(** [CamDevice::GetActiveBuffer]; [fBuffer] is the single-buffer
    fallback. *)
Definition GetActiveBuffer (fBuffer : option Z) (db : usb_double_buffer)
  : option (option Z) :=
  if negb (initialized db) then Some fBuffer
  else buffer_at db (activeBuffer db).

(** [CamDevice::GetReadyBuffer]. *)
Definition GetReadyBuffer (db : usb_double_buffer) : option (option Z) :=
  if negb (initialized db) || (readyBuffer db <? 0) then Some None
  else buffer_at db (readyBuffer db).

(** [CamDevice::SwapBuffers]. *)
Definition SwapBuffers (db : usb_double_buffer) : usb_double_buffer :=
  if negb (initialized db) then db
  else
    mkDB (buffers db) (bufferSize db) (1 - activeBuffer db) (activeBuffer db)
      (bufferReady db) (ready_count db + 1) true.

(** What can be done to the buffers; an allocation that succeeds twice
    returns two different blocks. *)
Inductive buffer_op :=
| OpInit (size : Z) (malloc0 malloc1 : option Z) (sem : Z)
| OpCleanup
| OpSwap.

Definition op_ok (o : buffer_op) : Prop :=
  match o with
  | OpInit _ (Some p0) (Some p1) _ => p0 <> p1
  | _ => True
  end.

Definition apply_buffer_op (o : buffer_op) (db : usb_double_buffer) : usb_double_buffer :=
  match o with
  | OpInit size malloc0 malloc1 sem =>
      snd (InitDoubleBuffering size malloc0 malloc1 sem db)
  | OpCleanup => CleanupDoubleBuffering db
  | OpSwap => SwapBuffers db
  end.

Inductive buffers_reachable : usb_double_buffer -> Prop :=
| buffers_new : buffers_reachable usb_double_buffer_new
| buffers_step o db :
    op_ok o -> buffers_reachable db -> buffers_reachable (apply_buffer_op o db).

Definition db_inv (db : usb_double_buffer) : Prop :=
  initialized db = true ->
  (exists p0 p1, buffers db = [Some p0; Some p1] /\ p0 <> p1) /\
  (activeBuffer db = 0 \/ activeBuffer db = 1) /\
  (readyBuffer db = -1 \/ readyBuffer db = 1 - activeBuffer db).

Lemma db_inv_step o db : op_ok o -> db_inv db -> db_inv (apply_buffer_op o db).
Proof.
  intros Hop Hinv. destruct o as [size m0 m1 sem | |]; cbn [apply_buffer_op].
  - unfold InitDoubleBuffering.
    destruct (initialized db && (bufferSize db =? size)) eqn:G; [exact Hinv|].
    assert (Hoff : initialized (if initialized db then CleanupDoubleBuffering db else db)
                   = false).
    { unfold CleanupDoubleBuffering. destruct (initialized db) eqn:I; cbn; auto. }
    set (db1 := if initialized db then CleanupDoubleBuffering db else db) in *.
    destruct m0 as [p0|]; [|intros H; cbn in H; congruence].
    destruct m1 as [p1|]; [|intros H; cbn in H; congruence].
    destruct (sem <? B_OK); [intros H; cbn in H; congruence|].
    intros _. cbn. split; [exists p0, p1; split; [reflexivity | exact Hop]|].
    split; [now left | now left].
  - unfold CleanupDoubleBuffering. destruct (initialized db) eqn:I; cbn [negb].
    + intros H. discriminate H.
    + exact Hinv.
  - unfold SwapBuffers. destruct (initialized db) eqn:I; cbn [negb]; [|exact Hinv].
    destruct (Hinv I) as (Hb & Ha & Hr).
    intros _. cbn [activeBuffer readyBuffer buffers]. split; [exact Hb|]. split; [lia | right; lia].
Qed.

Lemma reachable_db_inv db : buffers_reachable db -> db_inv db.
Proof.
  induction 1 as [|o db Hop _ IH]; [intros H; discriminate H|].
  now apply db_inv_step.
Qed.

(** X24: the buffer being filled is never the one handed out.  After any
    sequence of initialisations, clean-ups and swaps, while double
    buffering is initialised both indices stay inside the two-element
    array and both buffers are allocated; [GetActiveBuffer] returns an
    allocated buffer, and [GetReadyBuffer] returns NULL (before the first
    swap) or the other allocated buffer, never the active one. *)
Theorem ready_buffer_is_not_active fBuffer db :
  buffers_reachable db -> initialized db = true ->
  exists p0 p1,
    p0 <> p1 /\ buffers db = [Some p0; Some p1] /\
    (activeBuffer db = 0 \/ activeBuffer db = 1) /\
    GetActiveBuffer fBuffer db
    = Some (Some (if activeBuffer db =? 0 then p0 else p1)) /\
    (GetReadyBuffer db = Some None \/
     GetReadyBuffer db = Some (Some (if activeBuffer db =? 0 then p1 else p0))).
Proof.
  intros Hr Hi. destruct (reachable_db_inv db Hr Hi) as ((p0 & p1 & Hb & Hne) & Ha & Hrd).
  exists p0, p1. split; [exact Hne|]. split; [exact Hb|]. split; [exact Ha|].
  unfold GetActiveBuffer, GetReadyBuffer, buffer_at. rewrite Hi, Hb. cbn [negb orb].
  split.
  - destruct Ha as [-> | ->]; reflexivity.
  - destruct Hrd as [-> | ->]; [left; reflexivity|].
    right. destruct Ha as [-> | ->]; reflexivity.
Qed.

Lemma ready_buffer_is_not_active_witness :
  let db := apply_buffer_op OpSwap (apply_buffer_op (OpInit 4096 (Some 1000) (Some 6000) 7)
                               usb_double_buffer_new) in
  GetActiveBuffer None db = Some (Some 6000) /\
  GetReadyBuffer db = Some (Some 1000).
Proof.
  cbv zeta.
  destruct (ready_buffer_is_not_active None
              (apply_buffer_op OpSwap (apply_buffer_op (OpInit 4096 (Some 1000) (Some 6000) 7)
                                  usb_double_buffer_new)))
    as (p0 & p1 & _ & Hb & _ & Hact & _).
  - apply buffers_step; [exact I|].
    apply buffers_step; [cbn; discriminate | apply buffers_new].
  - reflexivity.
  - injection Hb as <- <-. split; [exact Hact | reflexivity].
Defined.

End DoubleBuffer.

(** * Frame timing statistics ([frame_timing_stats]) *)

Module Timing.

Definition INT64_MAX : Z := 2 ^ 63 - 1.

(** A value brought into [int64] (two's complement), the way the
    arithmetic of [bigtime_t] wraps. *)
Definition to_int64 (v : Z) : Z := (v + 2 ^ 63) mod 2 ^ 64 - 2 ^ 63.

(** [struct frame_timing_stats]; times are [bigtime_t] microseconds,
    [frame_count] is a [uint32]. *)
Record frame_timing_stats := mkStats {
  last_frame_time : Z;
  frame_interval_sum : Z;
  frame_interval_min : Z;
  frame_interval_max : Z;
  frame_count : Z;
  processing_time_sum : Z;
  processing_time_max : Z;
  expected_interval : Z;
  jitter_sum : Z;
  adaptive_timeout : Z
}.

(** [frame_timing_stats::Reset]. *)
Definition Reset : frame_timing_stats :=
  mkStats 0 0 INT64_MAX 0 0 0 0 33333 0 100000.

(** [frame_timing_stats::RecordFrame(processingTime)], [now] being what
    [system_time()] returns; [/] truncates. *)
Definition RecordFrame (now processingTime : Z) (s : frame_timing_stats)
  : frame_timing_stats :=
  let s :=
    if 0 <? last_frame_time s then
      let interval := to_int64 (now - last_frame_time s) in
      let sum := to_int64 (frame_interval_sum s + interval) in
      let min := if interval <? frame_interval_min s then interval
                 else frame_interval_min s in
      let max := if frame_interval_max s <? interval then interval
                 else frame_interval_max s in
      let jitter := if expected_interval s <? interval
                    then to_int64 (interval - expected_interval s)
                    else to_int64 (expected_interval s - interval) in
      let targetTimeout := to_int64 (to_int64 (max * 2) + processing_time_max s) in
      let timeout :=
        Z.quot (to_int64 (to_int64 (adaptive_timeout s * 7) + targetTimeout)) 8 in
      let timeout := if timeout <? 10000 then 10000 else timeout in
      let timeout := if 500000 <? timeout then 500000 else timeout in
      mkStats (last_frame_time s) sum min max (frame_count s)
        (processing_time_sum s) (processing_time_max s) (expected_interval s)
        (to_int64 (jitter_sum s + jitter)) timeout
    else s in
  mkStats now (frame_interval_sum s) (frame_interval_min s) (frame_interval_max s)
    (to_uint32 (frame_count s + 1))
    (to_int64 (processing_time_sum s + processingTime))
    (if processing_time_max s <? processingTime then processingTime
     else processing_time_max s)
    (expected_interval s) (jitter_sum s) (adaptive_timeout s).

(** [frame_timing_stats::GetAverageInterval]; the [uint32] divisor is
    converted to [int64] for the division. *)
Definition GetAverageInterval (s : frame_timing_stats) : Z :=
  if frame_count s <? 2 then expected_interval s
  else Z.quot (frame_interval_sum s) (to_uint32 (frame_count s - 1)).

(** The statistics after a run of frames, each given as the time it was
    recorded at and its processing time. *)
Definition record_all (frames : list (Z * Z)) (s : frame_timing_stats)
  : frame_timing_stats :=
  fold_left (fun s f => RecordFrame (fst f) (snd f) s) frames s.

(** A clock reading the statistics can take: positive and below 2^62
    microseconds. *)
Definition clock_reading (t : Z) : Prop := 0 < t < 2 ^ 62.

(** What holds of the statistics after [n] >= 1 recorded frames, the first
    of them at time [t1]. *)
Definition stats_inv (t1 n : Z) (s : frame_timing_stats) : Prop :=
  frame_count s = n /\
  clock_reading (last_frame_time s) /\
  10000 <= adaptive_timeout s <= 500000 /\
  frame_interval_sum s = last_frame_time s - t1 /\
  (n = 1 -> last_frame_time s = t1) /\
  (2 <= n ->
   (n - 1) * frame_interval_min s <= frame_interval_sum s
   /\ frame_interval_sum s <= (n - 1) * frame_interval_max s).

Lemma to_int64_small v : - 2 ^ 63 <= v < 2 ^ 63 -> to_int64 v = v.
Proof.
  intros H. unfold to_int64. rewrite Z.mod_small; lia.
Qed.

Lemma timeout_clamped t :
  10000 <= (if 500000 <? (if t <? 10000 then 10000 else t) then 500000
            else (if t <? 10000 then 10000 else t)) <= 500000.
Proof.
  destruct (t <? 10000) eqn:A; [cbn; lia|]. apply Z.ltb_ge in A.
  destruct (500000 <? t) eqn:B; [lia | apply Z.ltb_ge in B; lia].
Qed.

Lemma RecordFrame_first now processingTime :
  clock_reading now ->
  stats_inv now 1 (RecordFrame now processingTime Reset).
Proof.
  intros Hnow. unfold stats_inv, RecordFrame. cbn.
  split; [reflexivity|]. split; [exact Hnow|]. split; [lia|].
  split; [lia|]. split; [reflexivity|]. intros H; lia.
Qed.

Lemma stats_inv_step t1 n now processingTime s :
  1 <= n < uint32_mod - 1 -> clock_reading t1 -> clock_reading now ->
  stats_inv t1 n s -> stats_inv t1 (n + 1) (RecordFrame now processingTime s).
Proof.
  intros Hn Ht1 Hnow (Hc & Hl & Ha & Hsum & H1 & Hs). unfold RecordFrame.
  unfold uint32_mod in Hn. change (2 ^ 32) with 4294967296 in Hn.
  unfold clock_reading in *. change (2 ^ 62) with 4611686018427387904 in *.
  replace (0 <? last_frame_time s) with true by (symmetry; apply Z.ltb_lt; lia).
  unfold stats_inv.
  cbn [frame_count last_frame_time adaptive_timeout frame_interval_sum
       frame_interval_min frame_interval_max].
  rewrite (to_int64_small (now - last_frame_time s))
    by (change (2 ^ 63) with 9223372036854775808; lia).
  rewrite Hsum.
  rewrite (to_int64_small (last_frame_time s - t1 + (now - last_frame_time s)))
    by (change (2 ^ 63) with 9223372036854775808; lia).
  rewrite Hc.
  split; [unfold to_uint32, uint32_mod; change (2 ^ 32) with 4294967296;
          apply Z.mod_small; lia|].
  split; [exact Hnow|]. split; [apply timeout_clamped|].
  split; [lia|]. split; [intros H; lia|].
  intros _. set (interval := now - last_frame_time s).
  replace (last_frame_time s - t1 + interval) with (frame_interval_sum s + interval)
    by (rewrite Hsum; reflexivity).
  destruct (Z.eq_dec n 1) as [-> | Hn2].
  - assert (Hz : frame_interval_sum s = 0) by (rewrite Hsum, H1; [lia | reflexivity]).
    rewrite Hz.
    destruct (interval <? frame_interval_min s) eqn:A, (frame_interval_max s <? interval) eqn:B;
      try apply Z.ltb_lt in A; try apply Z.ltb_ge in A;
      try apply Z.ltb_lt in B; try apply Z.ltb_ge in B; lia.
  - destruct Hs as [Hs1 Hs2]; [lia|].
    destruct (interval <? frame_interval_min s) eqn:A, (frame_interval_max s <? interval) eqn:B;
      try apply Z.ltb_lt in A; try apply Z.ltb_ge in A;
      try apply Z.ltb_lt in B; try apply Z.ltb_ge in B; nia.
Qed.

Lemma fst_last_cons (rest : list (Z * Z)) : forall f d d',
  fst d = fst f -> fst (last rest d) = fst (last (f :: rest) d').
Proof.
  induction rest as [|g rest IH]; intros f d d' Hd; [exact Hd|].
  change (last (f :: g :: rest) d') with (last (g :: rest) d').
  rewrite <- (IH g g d' eq_refl), <- (IH g g d eq_refl). reflexivity.
Qed.

Lemma stats_inv_run t1 frames : forall n s,
  1 <= n -> n + Z.of_nat (length frames) < uint32_mod ->
  clock_reading t1 ->
  Forall (fun f => clock_reading (fst f)) frames ->
  stats_inv t1 n s ->
  stats_inv t1 (n + Z.of_nat (length frames)) (record_all frames s) /\
  last_frame_time (record_all frames s) = fst (last frames (last_frame_time s, 0)).
Proof.
  unfold uint32_mod. change (2 ^ 32) with 4294967296.
  induction frames as [|f rest IH]; intros n s Hn Hlen Ht1 Hall Hinv.
  - cbn. now rewrite Z.add_0_r.
  - inversion Hall as [|? ? Hf Hrest]; subst. cbn [length] in *.
    cbn [record_all fold_left].
    replace (n + Z.of_nat (S (length rest))) with (n + 1 + Z.of_nat (length rest)) by lia.
    destruct (IH (n + 1) (RecordFrame (fst f) (snd f) s)) as [I1 I2];
      [lia | lia | exact Ht1 | exact Hrest | |].
    { apply stats_inv_step;
        [unfold uint32_mod; change (2 ^ 32) with 4294967296; lia
        | exact Ht1 | exact Hf | exact Hinv]. }
    split; [exact I1|]. unfold record_all in I2. rewrite I2.
    apply fst_last_cons. reflexivity.
Qed.

(** X25: the timing statistics stay consistent.  After any run of fewer than
    2^32 frames recorded since [Reset], at clock readings that are positive
    and below 2^62 microseconds, the adaptive timeout lies between 10 ms
    and 500 ms, the sum of the intervals is the time from the first frame
    to the last, and once two frames have been recorded the average
    interval [GetAverageInterval] reports lies between the smallest and
    the largest interval recorded.  Processing times may be anything. *)
Theorem timing_statistics_consistent frames :
  Z.of_nat (length frames) < uint32_mod ->
  Forall (fun f => clock_reading (fst f)) frames ->
  let s := record_all frames Reset in
  frame_count s = Z.of_nat (length frames) /\
  10000 <= adaptive_timeout s <= 500000 /\
  frame_interval_sum s = fst (last frames (0, 0)) - fst (hd (0, 0) frames) /\
  (2 <= frame_count s ->
   frame_interval_min s <= GetAverageInterval s <= frame_interval_max s).
Proof.
  intros Hlen Hall s.
  destruct frames as [|f rest].
  { subst s. cbn. repeat split; try lia. }
  inversion Hall as [|? ? Hf Hrest]; subst.
  cbn [length] in Hlen.
  destruct (stats_inv_run (fst f) rest 1 (RecordFrame (fst f) (snd f) Reset))
    as [(Hc & _ & Ha & Hsum & _ & Hs) Hlast];
    [lia | lia | exact Hf | exact Hrest | now apply RecordFrame_first |].
  change (record_all rest (RecordFrame (fst f) (snd f) Reset)) with s in *.
  replace (1 + Z.of_nat (length rest)) with (Z.of_nat (length (f :: rest))) in *
    by (cbn [length]; lia).
  split; [exact Hc|]. split; [exact Ha|].
  split.
  { rewrite Hsum, Hlast. cbn [hd]. f_equal.
    apply fst_last_cons. reflexivity. }
  intros H2. rewrite Hc in H2. destruct (Hs H2) as [Hs1 Hs2].
  unfold GetAverageInterval. rewrite Hc.
  replace (Z.of_nat (length (f :: rest)) <? 2) with false by (symmetry; apply Z.ltb_ge; lia).
  assert (Hd : to_uint32 (Z.of_nat (length (f :: rest)) - 1)
               = Z.of_nat (length (f :: rest)) - 1).
  { unfold to_uint32. apply Z.mod_small. cbn [length] in *. lia. }
  rewrite Hd.
  set (n1 := Z.of_nat (length (f :: rest)) - 1) in *.
  assert (Hn1 : 0 < n1) by lia.
  split.
  - apply Z.quot_le_lower_bound; [lia|]. lia.
  - apply Z.quot_le_upper_bound; [lia|]. lia.
Qed.

Lemma timing_statistics_consistent_witness :
  let s := record_all [(1000, 50); (34000, 60); (70000, 40)] Reset in
  frame_interval_sum s = 69000 /\
  frame_interval_min s <= GetAverageInterval s <= frame_interval_max s.
Proof.
  cbv zeta.
  destruct (timing_statistics_consistent [(1000, 50); (34000, 60); (70000, 40)])
    as (_ & _ & Hsum & Havg).
  - vm_compute. reflexivity.
  - repeat constructor.
  - split; [exact Hsum | apply Havg; vm_compute; discriminate].
Defined.

End Timing.
